(** * Omi card game server: rule engine, scoring, dealing, seating and the
      room state machine of [index.js], with the properties of its
      specification. *)

From stdpp Require Import gmap strings list fin_maps.
From Stdlib Require Import ZArith Lia Sorted.

Local Open Scope string_scope.
Local Open Scope Z_scope.

(** ** Payload values *)

(** The handlers do not validate the fields of an event payload: a room id,
    a trump or a team is whatever value the client sent.  [JsVal] has the
    scalar values that JSON carries in a field, and [undefined] for a field
    that is absent; a number is taken as an integer.  Objects and arrays are
    left out. *)
Inductive JsVal :=
  | VUndefined
  | VNull
  | VBool (b : bool)
  | VNum (n : Z)
  | VStr (s : string).

Coercion VStr : string >-> JsVal.

#[global] Instance JsVal_eq_dec : EqDecision JsVal.
Proof. solve_decision. Defined.

#[global] Instance JsVal_countable : Countable JsVal.
Proof.
  refine (inj_countable'
    (λ v, match v with
          | VUndefined => inl (inl ())
          | VNull => inl (inr ())
          | VBool b => inr (inl b)
          | VNum n => inr (inr (inl n))
          | VStr s => inr (inr (inr s))
          end)
    (λ x : (unit + unit) + (bool + (Z + string)),
       match x with
       | inl (inl _) => VUndefined
       | inl (inr _) => VNull
       | inr (inl b) => VBool b
       | inr (inr (inl n)) => VNum n
       | inr (inr (inr s)) => VStr s
       end) _).
  by intros [].
Defined.

(** The truth value of a condition [if (v)]: [undefined], [null], [false],
    [0] and the empty string are falsy. *)
Definition truthy (v : JsVal) : bool :=
  match v with
  | VUndefined | VNull => false
  | VBool b => b
  | VNum n => negb (n =? 0)
  | VStr s => negb (bool_decide (s = ""))
  end.

(** ** Cards *)

(** [suits] and [ranks] of index.js are arrays of string literals; the cards
    of the program are built from them by [createDeck] only. *)
Inductive Suit := Hearts | Diamonds | Clubs | Spades.
Inductive Rank := R7 | R8 | R9 | R10 | RJ | RQ | RK | RA.

Record Card := mkCard { suit : Suit; rank : Rank }.

#[global] Instance Suit_eq_dec : EqDecision Suit.
Proof. solve_decision. Defined.
#[global] Instance Rank_eq_dec : EqDecision Rank.
Proof. solve_decision. Defined.
#[global] Instance Card_eq_dec : EqDecision Card.
Proof. solve_decision. Defined.

Definition suits : list Suit := [Hearts; Diamonds; Clubs; Spades].
Definition ranks : list Rank := [R7; R8; R9; R10; RJ; RQ; RK; RA].

(** [createDeck]: the outer loop runs over the suits, the inner one over the
    ranks. *)
Definition createDeck : list Card :=
  s ← suits; r ← ranks; [mkCard s r].

(** [[a[i], a[j]] = [a[j], a[i]]] on indices that are in range. *)
Definition swap {A} (a : list A) (i j : nat) : list A :=
  match a !! i, a !! j with
  | Some x, Some y => <[j := x]> (<[i := y]> a)
  | _, _ => a
  end.

(** The loop of [shuffleDeck], from [i] down to 1.  [Math.random] is an
    oracle: each iteration consumes one natural number [d] of [draws], and
    [Math.floor(Math.random() * (i + 1))], an integer of [0..i], is
    [d mod (i + 1)]. *)
Fixpoint shuffleLoop (i : nat) (draws : list nat) (a : list Card) : list Card :=
  match i with
  | O => a
  | S i' =>
      let j := (hd O draws mod (i + 1))%nat in
      shuffleLoop i' (tl draws) (swap a i j)
  end.

Definition shuffleDeck (draws : list nat) (deck : list Card) : list Card :=
  shuffleLoop (length deck - 1) draws deck.

(** [rankValues] of [getCardValue]. *)
Definition rankValues (r : Rank) : Z :=
  match r with
  | R7 => 1 | R8 => 2 | R9 => 3 | R10 => 4
  | RJ => 5 | RQ => 6 | RK => 7 | RA => 8
  end.

(** The string of a suit. *)
Definition suitName (s : Suit) : string :=
  match s with
  | Hearts => "Hearts" | Diamonds => "Diamonds"
  | Clubs => "Clubs" | Spades => "Spades"
  end.

(** [card.suit === trump].  [room.trump] is [null], or the [trump] field of
    the payload that [selectTrump] stored. *)
Definition isSuit (c : Card) (t : JsVal) : bool :=
  bool_decide (t = VStr (suitName (suit c))).

Definition getCardValue (c : Card) (trump : JsVal) : Z :=
  let value := rankValues (rank c) in
  if isSuit c trump then value + 10 else value.

(** An entry of [room.currentTrick]. *)
Record TrickEntry := mkEntry {
  playerIndex : Z;
  playerName : string;
  card : Card
}.

(** A hand is an array of slots; a played card leaves [null] in its slot. *)
Definition Hand := list (option Card).

Definition hasSuit (s : Suit) (slot : option Card) : bool :=
  match slot with
  | Some c => bool_decide (suit c = s)
  | None => false
  end.

Definition leadSuitOf (trick : list TrickEntry) : option Suit :=
  match trick with
  | [] => None
  | e :: _ => Some (suit (card e))
  end.

(** [isValidPlay]. *)
Definition isValidPlay (c : Card) (hand : Hand) (currentTrick : list TrickEntry)
    (trump : JsVal) : bool :=
  match currentTrick with
  | [] => true
  | e :: _ =>
      let leadSuit := suit (card e) in
      let cardsOfLeadSuit := filter (λ s, hasSuit leadSuit s = true) hand in
      if (0 <? length cardsOfLeadSuit)%nat
      then bool_decide (suit c = leadSuit)
      else true
  end.

(** [hand.forEach((card, index) => { if (P(card)) out.push(index); })],
    started at index [i]. *)
Fixpoint pushIndices (P : option Card → bool) (i : nat) (hand : Hand) : list nat :=
  match hand with
  | [] => []
  | slot :: rest =>
      if P slot then i :: pushIndices P (S i) rest
      else pushIndices P (S i) rest
  end.

Definition nonNull (slot : option Card) : bool :=
  match slot with Some _ => true | None => false end.

(** [getPlayableCards]. *)
Definition getPlayableCards (hand : Hand) (currentTrick : list TrickEntry)
    (trump : JsVal) : list nat :=
  match currentTrick with
  | [] => pushIndices nonNull 0 hand
  | e :: _ =>
      let leadSuit := suit (card e) in
      let leadSuitCardIndices := pushIndices (hasSuit leadSuit) 0 hand in
      if (0 <? length leadSuitCardIndices)%nat
      then leadSuitCardIndices
      else pushIndices nonNull 0 hand
  end.

(** [Array.prototype.reduce] without an initial value: it throws on an
    empty array ([None]). *)
Definition reduce1 {A} (f : A → A → A) (l : list A) : option A :=
  match l with
  | [] => None
  | x :: xs => Some (foldl f x xs)
  end.

Definition higher (trump : JsVal) (highest current : TrickEntry) : TrickEntry :=
  if getCardValue (card highest) trump <? getCardValue (card current) trump
  then current else highest.

(** [getTrickWinner]; [None] stands for the [TypeError] of an empty trick. *)
Definition getTrickWinner (trick : list TrickEntry) (trump : JsVal)
    : option TrickEntry :=
  match trick with
  | [] => None
  | e :: _ =>
      let leadSuit := suit (card e) in
      let trumpCards := filter (λ t, isSuit (card t) trump = true) trick in
      if (0 <? length trumpCards)%nat
      then reduce1 (higher trump) trumpCards
      else
        let leadSuitCards := filter (λ t, suit (card t) = leadSuit) trick in
        reduce1 (higher trump) leadSuitCards
  end.

(** ** Seats, rooms and the registry *)

Inductive Team := TeamA | TeamB.

#[global] Instance Team_eq_dec : EqDecision Team.
Proof. solve_decision. Defined.

(** [TEAM_POSITIONS]: an object with the two properties ['A'] and ['B']. *)
Definition TEAM_POSITIONS (t : Team) : list Z :=
  match t with
  | TeamA => [0; 2]
  | TeamB => [1; 3]
  end.

(** The string of a team. *)
Definition teamName (t : Team) : string :=
  match t with TeamA => "A" | TeamB => "B" end.

(** The property of [TEAM_POSITIONS] that [TEAM_POSITIONS[v]] reads, if [v]
    names one: for any other value the lookup gives [undefined], or an
    inherited member of the object, which has no [filter]. *)
Definition teamKey (v : JsVal) : option Team :=
  if bool_decide (v = VStr "A") then Some TeamA
  else if bool_decide (v = VStr "B") then Some TeamB
  else None.

(** A seat's player object.  [id] is the socket id of the connection. *)
Record Player := mkPlayer {
  id : string;
  name : string;
  team : Team;
  hand : Hand;
  connected : bool;
  position : Z;
  lastSeen : Z
}.

Definition setId (v : string) (p : Player) : Player :=
  mkPlayer v (name p) (team p) (hand p) (connected p) (position p) (lastSeen p).
Definition setHand (v : Hand) (p : Player) : Player :=
  mkPlayer (id p) (name p) (team p) v (connected p) (position p) (lastSeen p).
Definition setConnected (v : bool) (p : Player) : Player :=
  mkPlayer (id p) (name p) (team p) (hand p) v (position p) (lastSeen p).
Definition setLastSeen (v : Z) (p : Player) : Player :=
  mkPlayer (id p) (name p) (team p) (hand p) (connected p) (position p) v.

Inductive GameState := Waiting | TrumpSelection | Playing | Completed | Paused.

#[global] Instance GameState_eq_dec : EqDecision GameState.
Proof. solve_decision. Defined.

Record Scores := mkScores { teamA : nat; teamB : nat }.

Record Room := mkRoom {
  room_id : JsVal;
  players : list (option Player);
  gameState : GameState;
  deck : list Card;
  trump : JsVal;
  trumpSelector : Z;
  currentPlayerIndex : Z;
  currentTrick : list TrickEntry;
  tricksWon : list nat;
  scores : Scores;
  round : nat;
  currentRoundIndex : nat;
  lastTrickWinner : Z;
  createdAt : Z;
  lastActivity : Z
}.

Definition setPlayers (v : list (option Player)) (r : Room) : Room :=
  mkRoom (room_id r) v (gameState r) (deck r) (trump r) (trumpSelector r)
    (currentPlayerIndex r) (currentTrick r) (tricksWon r) (scores r) (round r)
    (currentRoundIndex r) (lastTrickWinner r) (createdAt r) (lastActivity r).
Definition setGameState (v : GameState) (r : Room) : Room :=
  mkRoom (room_id r) (players r) v (deck r) (trump r) (trumpSelector r)
    (currentPlayerIndex r) (currentTrick r) (tricksWon r) (scores r) (round r)
    (currentRoundIndex r) (lastTrickWinner r) (createdAt r) (lastActivity r).
Definition setDeck (v : list Card) (r : Room) : Room :=
  mkRoom (room_id r) (players r) (gameState r) v (trump r) (trumpSelector r)
    (currentPlayerIndex r) (currentTrick r) (tricksWon r) (scores r) (round r)
    (currentRoundIndex r) (lastTrickWinner r) (createdAt r) (lastActivity r).
Definition setTrump (v : JsVal) (r : Room) : Room :=
  mkRoom (room_id r) (players r) (gameState r) (deck r) v (trumpSelector r)
    (currentPlayerIndex r) (currentTrick r) (tricksWon r) (scores r) (round r)
    (currentRoundIndex r) (lastTrickWinner r) (createdAt r) (lastActivity r).
Definition setTrumpSelector (v : Z) (r : Room) : Room :=
  mkRoom (room_id r) (players r) (gameState r) (deck r) (trump r) v
    (currentPlayerIndex r) (currentTrick r) (tricksWon r) (scores r) (round r)
    (currentRoundIndex r) (lastTrickWinner r) (createdAt r) (lastActivity r).
Definition setCurrentPlayerIndex (v : Z) (r : Room) : Room :=
  mkRoom (room_id r) (players r) (gameState r) (deck r) (trump r) (trumpSelector r)
    v (currentTrick r) (tricksWon r) (scores r) (round r)
    (currentRoundIndex r) (lastTrickWinner r) (createdAt r) (lastActivity r).
Definition setCurrentTrick (v : list TrickEntry) (r : Room) : Room :=
  mkRoom (room_id r) (players r) (gameState r) (deck r) (trump r) (trumpSelector r)
    (currentPlayerIndex r) v (tricksWon r) (scores r) (round r)
    (currentRoundIndex r) (lastTrickWinner r) (createdAt r) (lastActivity r).
Definition setTricksWon (v : list nat) (r : Room) : Room :=
  mkRoom (room_id r) (players r) (gameState r) (deck r) (trump r) (trumpSelector r)
    (currentPlayerIndex r) (currentTrick r) v (scores r) (round r)
    (currentRoundIndex r) (lastTrickWinner r) (createdAt r) (lastActivity r).
Definition setScores (v : Scores) (r : Room) : Room :=
  mkRoom (room_id r) (players r) (gameState r) (deck r) (trump r) (trumpSelector r)
    (currentPlayerIndex r) (currentTrick r) (tricksWon r) v (round r)
    (currentRoundIndex r) (lastTrickWinner r) (createdAt r) (lastActivity r).
Definition setCurrentRoundIndex (v : nat) (r : Room) : Room :=
  mkRoom (room_id r) (players r) (gameState r) (deck r) (trump r) (trumpSelector r)
    (currentPlayerIndex r) (currentTrick r) (tricksWon r) (scores r) (round r)
    v (lastTrickWinner r) (createdAt r) (lastActivity r).
Definition setLastTrickWinner (v : Z) (r : Room) : Room :=
  mkRoom (room_id r) (players r) (gameState r) (deck r) (trump r) (trumpSelector r)
    (currentPlayerIndex r) (currentTrick r) (tricksWon r) (scores r) (round r)
    (currentRoundIndex r) v (createdAt r) (lastActivity r).
Definition setLastActivity (v : Z) (r : Room) : Room :=
  mkRoom (room_id r) (players r) (gameState r) (deck r) (trump r) (trumpSelector r)
    (currentPlayerIndex r) (currentTrick r) (tricksWon r) (scores r) (round r)
    (currentRoundIndex r) (lastTrickWinner r) (createdAt r) v.

(** [a[i]] for a JavaScript number [i]: [undefined] ([None]) outside the
    array, in particular at the sentinel [-1]. *)
Definition atZ {A} (a : list A) (i : Z) : option A :=
  if i <? 0 then None else a !! Z.to_nat i.

(** [room.players[i]]; an empty seat ([null]) and a missing one are both
    falsy. *)
Definition seat (r : Room) (i : Z) : option Player :=
  mjoin (atZ (players r) i).

(** [room.players[i] = v] for a seat index of the room. *)
Definition setSeat (i : Z) (v : option Player) (r : Room) : Room :=
  if i <? 0 then r else setPlayers (<[Z.to_nat i := v]> (players r)) r.

(** Field updates of the player object seated at [i], as in
    [room.players[i].connected = true]. *)
Definition updSeat (i : Z) (f : Player → Player) (r : Room) : Room :=
  if i <? 0 then r else setPlayers (alter (fmap f) (Z.to_nat i) (players r)) r.

(** [Array.prototype.findIndex]: the first index whose element satisfies
    [P], or [-1]. *)
Fixpoint findIndexFrom {A} (P : A → bool) (i : Z) (a : list A) : Z :=
  match a with
  | [] => -1
  | x :: rest => if P x then i else findIndexFrom P (i + 1) rest
  end.

Definition findIndex {A} (P : A → bool) (a : list A) : Z := findIndexFrom P 0 a.

(** The callbacks used on [room.players]. *)
Definition isConnected (slot : option Player) : bool :=
  match slot with Some p => connected p | None => false end.
Definition hasId (sid : string) (slot : option Player) : bool :=
  match slot with Some p => bool_decide (id p = sid) | None => false end.
Definition namedDisconnected (n : string) (slot : option Player) : bool :=
  match slot with
  | Some p => bool_decide (name p = n) && negb (connected p)
  | None => false
  end.
Definition namedConnected (n : string) (slot : option Player) : bool :=
  match slot with
  | Some p => bool_decide (name p = n) && connected p
  | None => false
  end.

Definition nonNullPlayer (slot : option Player) : bool :=
  match slot with Some _ => true | None => false end.

(** [room.players.filter(p => p && p.connected).length]. *)
Definition connectedCount (r : Room) : nat :=
  length (filter (λ s, isConnected s = true) (players r)).

(** [getTeamForPosition]. *)
Definition getTeamForPosition (position : Z) : Team :=
  if bool_decide (position ∈ TEAM_POSITIONS TeamA) then TeamA else TeamB.

Definition otherTeamOf (t : Team) : Team :=
  match t with TeamA => TeamB | TeamB => TeamA end.

(** [!room.players[pos] || !room.players[pos].id]: the seat is empty, or its
    player has no connection id (the empty string is the falsy string). *)
Definition seatAvailable (r : Room) (pos : Z) : bool :=
  match seat r pos with
  | None => true
  | Some p => bool_decide (id p = "")
  end.

(** [findPositionForTeam]; [preferredTeam] is the [team] field of the
    payload.  [None] stands for the [TypeError] of
    [TEAM_POSITIONS[preferredTeam].filter] when [preferredTeam] names no
    property of [TEAM_POSITIONS]. *)
Definition findPositionForTeam (r : Room) (preferredTeam : JsVal) : option Z :=
  match teamKey preferredTeam with
  | None => None
  | Some team =>
      let availablePositions :=
        filter (λ pos, seatAvailable r pos = true) (TEAM_POSITIONS team) in
      match availablePositions with
      | pos :: _ => Some pos
      | [] =>
          let otherTeam :=
            if bool_decide (preferredTeam = VStr "A") then TeamB else TeamA in
          let otherAvailablePositions :=
            filter (λ pos, seatAvailable r pos = true) (TEAM_POSITIONS otherTeam) in
          match otherAvailablePositions with
          | pos :: _ => Some pos
          | [] => Some (-1)
          end
      end
  end.

(** [initializeRoom]; [now] is the value of [Date.now()]. *)
Definition initializeRoom (roomId : JsVal) (now : Z) : Room :=
  {| room_id := roomId;
     players := [None; None; None; None];
     gameState := Waiting;
     deck := [];
     trump := VNull;
     trumpSelector := -1;
     currentPlayerIndex := 0;
     currentTrick := [];
     tricksWon := [0; 0; 0; 0]%nat;
     scores := mkScores 0 0;
     round := 1;
     currentRoundIndex := 0;
     lastTrickWinner := -1;
     createdAt := now;
     lastActivity := now |}.

(** The two global tables of index.js: [rooms], keyed by the room ids that
    the payloads carried, and [playerSockets], from socket ids to room
    ids. *)
Record Server := mkServer {
  rooms : gmap JsVal Room;
  playerSockets : gmap string JsVal
}.

Definition initialServer : Server := mkServer ∅ ∅.

Definition MAX_ROOMS : nat := 100.
Definition PLAYER_TIMEOUT : Z := 5 * 60 * 1000.

(** Writing through the room object held by [rooms] under [roomId]. *)
Definition storeRoom (roomId : JsVal) (r : Room) (σ : Server) : Server :=
  mkServer (<[roomId := r]> (rooms σ)) (playerSockets σ).

Definition trackSocket (sid : string) (roomId : JsVal) (σ : Server) : Server :=
  mkServer (rooms σ) (<[sid := roomId]> (playerSockets σ)).

Definition untrackSocket (sid : string) (σ : Server) : Server :=
  mkServer (rooms σ) (delete sid (playerSockets σ)).

(** ** The state snapshot of a reconnection *)

(** The public part of a seat, as sent in rosters. *)
Module PublicInfo.
Record t := mk {
  name : string;
  team : Team;
  position : Z;
  connected : bool
}.
End PublicInfo.

(** [room.players.map((p, index) => p ? { name, team, position: index,
    connected } : null)]. *)
Definition playerList (r : Room) : list (option PublicInfo.t) :=
  imap (λ index slot,
          match slot with
          | Some p => Some (PublicInfo.mk (name p) (team p) (Z.of_nat index) (connected p))
          | None => None
          end) (players r).

Module Snapshot.
Record t := mk {
  gameState : GameState;
  trump : JsVal;
  currentPlayerIndex : Z;
  position : Z;
  hand : Hand;
  isYourTurn : bool;
  playableCards : list nat;
  currentTrick : list TrickEntry;
  scores : Scores;
  tricksWon : list nat;
  playerNames : list (option string);
  players : list (option PublicInfo.t)
}.
End Snapshot.

(** [getFullGameStateForPlayer]; [None] is the [null] of an empty seat. *)
Definition getFullGameStateForPlayer (r : Room) (playerPosition : Z)
    : option Snapshot.t :=
  match seat r playerPosition with
  | None => None
  | Some player =>
      let myTurn :=
        bool_decide (currentPlayerIndex r = playerPosition)
        && bool_decide (gameState r = Playing) in
      Some {|
        Snapshot.gameState := gameState r;
        Snapshot.trump := trump r;
        Snapshot.currentPlayerIndex := currentPlayerIndex r;
        Snapshot.position := playerPosition;
        Snapshot.hand := hand player;
        Snapshot.isYourTurn := myTurn;
        Snapshot.playableCards :=
          if myTurn
          then getPlayableCards (hand player) (currentTrick r) (trump r)
          else [];
        Snapshot.currentTrick := currentTrick r;
        Snapshot.scores := scores r;
        Snapshot.tricksWon := tricksWon r;
        Snapshot.playerNames := (λ slot : option Player, name <$> slot) <$> players r;
        Snapshot.players := playerList r
      |}
  end.

(** ** Joining *)

(** The result object of [addPlayerToRoom]: [{ success: false, message }] or
    [{ success: true, room, position, isReconnection }]; [JoinThrows] is the
    [TypeError] of [findPositionForTeam], with which the call ends without a
    result. *)
Inductive JoinResult :=
  | JoinFail (message : string)
  | JoinOk (room : Room) (position : Z) (isReconnection : bool)
  | JoinThrows.

(** [addPlayerToRoom].  [playerData] is [{ id: sid, name: pname }].  When
    [findPositionForTeam] throws, the room has been created and its
    [lastActivity] set. *)
Definition addPlayerToRoom (σ : Server) (roomId : JsVal) (sid pname : string)
    (preferredTeam : JsVal) (isReconnect : bool) (now : Z)
    : Server * JoinResult :=
  if bool_decide (rooms σ !! roomId = None)
     && (MAX_ROOMS <=? size (rooms σ))%nat
  then (σ, JoinFail "Server is full. Please try again later.")
  else
    let room :=
      setLastActivity now (default (initializeRoom roomId now) (rooms σ !! roomId)) in
    let normalJoin :=
      match findPositionForTeam room preferredTeam with
      | None => (storeRoom roomId room σ, JoinThrows)
      | Some position =>
          if position =? -1
          then (storeRoom roomId room σ, JoinFail "Room is full")
          else
            let existingPlayers := filter (λ s, isConnected s = true) (players room) in
            if existsb (λ s, match s with
                             | Some p => bool_decide (name p = pname)
                             | None => false
                             end) existingPlayers
            then (storeRoom roomId room σ, JoinFail "Name already taken")
            else
              let room' :=
                setSeat position
                  (Some {| id := sid; name := pname;
                           team := getTeamForPosition position;
                           hand := []; connected := true;
                           position := position; lastSeen := now |}) room in
              (trackSocket sid roomId (storeRoom roomId room' σ),
               JoinOk room' position false)
      end in
    if isReconnect then
      let existingPlayerIndex := findIndex (namedDisconnected pname) (players room) in
      if negb (existingPlayerIndex =? -1) then
        let room' :=
          updSeat existingPlayerIndex
            (λ p, setLastSeen now (setConnected true (setId sid p))) room in
        (trackSocket sid roomId (storeRoom roomId room' σ),
         JoinOk room' existingPlayerIndex true)
      else
        let connectedPlayerIndex := findIndex (namedConnected pname) (players room) in
        if negb (connectedPlayerIndex =? -1)
        then (storeRoom roomId room σ,
              JoinFail "Player with this name is already connected")
        else normalJoin
    else normalJoin.

(** ** Dealing *)

(** [dealCardsForTrumpSelection]; [draws] feeds the shuffle.  [room.deck] and
    the local [deck] are one array, so [deck.splice(0, 4)] shortens
    [room.deck] too. *)
Definition dealCardsForTrumpSelection (draws : list nat) (r : Room) : Room :=
  let deck := shuffleDeck draws createDeck in
  match seat r (currentPlayerIndex r) with
  | Some trumpSelector =>
      let dealt := take 4 deck in
      setDeck (drop 4 deck)
        (setPlayers
           (imap (λ index slot,
                    match slot with
                    | Some player =>
                        if Z.of_nat index =? currentPlayerIndex r
                        then Some (setHand (Some <$> dealt) player)
                        else Some (setHand [] player)
                    | None => None
                    end) (players r)) r)
  | None => setDeck deck r
  end.

(** The [forEach] of [dealRemainingCards] from seat [index] on, with the deck
    threaded through the [splice] calls. *)
Fixpoint dealLoop (cur index : Z) (ps : list (option Player)) (deck : list Card)
    : list (option Player) * list Card :=
  match ps with
  | [] => ([], deck)
  | None :: rest =>
      let '(rest', deck') := dealLoop cur (index + 1) rest deck in
      (None :: rest', deck')
  | Some player :: rest =>
      if index =? cur then
        let newCards := take 4 deck in
        let '(rest', deck') := dealLoop cur (index + 1) rest (drop 4 deck) in
        (Some (setHand (hand player ++ (Some <$> newCards))%list player) :: rest', deck')
      else
        let '(rest', deck') := dealLoop cur (index + 1) rest (drop 8 deck) in
        (Some (setHand (Some <$> take 8 deck) player) :: rest', deck')
  end.

(** [dealRemainingCards]. *)
Definition dealRemainingCards (r : Room) : Room :=
  let '(ps, deck') := dealLoop (currentPlayerIndex r) 0 (players r) (deck r) in
  setDeck deck' (setPlayers ps r).

(** [startGame]. *)
Definition startGame (σ : Server) (roomId : JsVal) (now : Z) (draws : list nat)
    : Server * bool :=
  match rooms σ !! roomId with
  | None => (σ, false)
  | Some room =>
      let connectedPlayers := filter (λ s, nonNullPlayer s = true) (players room) in
      if negb (length connectedPlayers =? 4)%nat then (σ, false)
      else
        let room1 :=
          setLastActivity now
            (setTricksWon [0; 0; 0; 0]%nat
               (setScores (mkScores 0 0)
                  (setTrumpSelector 0
                     (setCurrentPlayerIndex 0
                        (setCurrentRoundIndex 0
                           (setGameState TrumpSelection room)))))) in
        (storeRoom roomId (dealCardsForTrumpSelection draws room1) σ, true)
  end.

(** ** Scoring *)

Record RoundResult := mkRoundResult {
  winningTeam : option Team;
  pointsAwarded : nat;
  teamATricks : nat;
  teamBTricks : nat;
  trumpTeam : Team;
  defendingTeam : Team
}.

Record RoundStatus := mkRoundStatus {
  roundComplete : bool;
  gameComplete : bool;
  roundResult : option RoundResult
}.

Definition tricksExpected : nat := 8.
Definition targetScore : nat := 10.

(** [room.tricksWon[i]]; the array always holds the four counters. *)
Definition tricksOf (r : Room) (i : nat) : nat := default O (tricksWon r !! i).

(** [room.tricksWon[i]++] for a seat index. *)
Definition incrTricks (i : Z) (r : Room) : Room :=
  if i <? 0 then r else setTricksWon (alter S (Z.to_nat i) (tricksWon r)) r.

(** [checkRoundComplete]: the mutated room and the returned status. *)
Definition checkRoundComplete (r : Room) : Room * RoundStatus :=
  let tricksPlayed := foldl Nat.add O (tricksWon r) in
  if (tricksExpected <=? tricksPlayed)%nat then
    let teamATricks := (tricksOf r 0 + tricksOf r 2)%nat in
    let teamBTricks := (tricksOf r 1 + tricksOf r 3)%nat in
    let trumpTeam := getTeamForPosition (trumpSelector r) in
    let defendingTeam :=
      if bool_decide (trumpTeam = TeamA) then TeamB else TeamA in
    let '(winningTeam, pointsAwarded, scores') :=
      if (teamBTricks <? teamATricks)%nat then
        let points :=
          if bool_decide (defendingTeam = TeamA) && (teamATricks =? tricksExpected)%nat
          then 2%nat else 1%nat in
        (Some TeamA, points,
         mkScores (teamA (scores r) + points) (teamB (scores r)))
      else if (teamATricks <? teamBTricks)%nat then
        let points :=
          if bool_decide (defendingTeam = TeamB) && (teamBTricks =? tricksExpected)%nat
          then 2%nat else 1%nat in
        (Some TeamB, points,
         mkScores (teamA (scores r)) (teamB (scores r) + points))
      else (None, O, scores r) in
    let result :=
      mkRoundResult winningTeam pointsAwarded teamATricks teamBTricks
        trumpTeam defendingTeam in
    let r1 := setScores scores' r in
    if (targetScore <=? teamA scores')%nat || (targetScore <=? teamB scores')%nat
    then (setGameState Completed r1, mkRoundStatus true true (Some result))
    else
      let next := Z.rem (currentPlayerIndex r1 + 1) 4 in
      (setTrumpSelector next
         (setCurrentPlayerIndex next
            (setGameState TrumpSelection
               (setTrump VNull
                  (setCurrentTrick []
                     (setTricksWon [0; 0; 0; 0]%nat r1))))),
       mkRoundStatus true false (Some result))
  else (r, mkRoundStatus false false None).

(** ** Notifications *)

(** Where an [emit] goes: [socket.emit] and [io.to(player.id)] reach one
    connection, [io.to(roomId)] the room, [socket.to(roomId)] the room
    without the sender. *)
Inductive Dest :=
  | ToSocket (sid : string)
  | ToRoom (roomId : JsVal)
  | ToOthers (sender : string) (roomId : JsVal).

(** ['Team A'], ['Team B'] or ['Tie'] of the [gameOver] notification. *)
Inductive FinalWinner := WinnerTeamA | WinnerTeamB | Tie.

(** The notifications with the fields of their payloads that carry state;
    the display texts of the [message] fields other than those of [error]
    are left out. *)
Inductive Message :=
  | MError (message : string)
  | MGameInProgress (snapshot : Snapshot.t)
  | MPlayerRejoined (name : string) (position : Z) (gameState : GameState)
  | MCanSelectTrump (hand : Hand)
  | MWaitingForTrump (trumpSelector : string)
  | MGameResumed
  | MYourTurn (playableCards : list nat)
  | MPlayerJoined (name : string) (playerCount : nat)
      (players : list (option PublicInfo.t))
  | MTrumpSelected (trump : JsVal)
  | MFullHand (hand : Hand) (position : Z) (trump : JsVal)
  | MTurnUpdate (currentPlayer : string) (currentPlayerIndex : Z)
  | MCardPlayed (player : string) (playerIndex : Z) (card : Card)
      (trickProgress : nat)
  | MTrickComplete (winner : string) (winnerIndex : Z) (trickCards : list Card)
      (scores : Scores) (tricksWon : list nat)
  | MGameOver (winner : FinalWinner) (finalScores : Scores)
      (roundResult : option RoundResult)
  | MRoundComplete (roundResult : option RoundResult) (newScores : Scores)
  | MPlayerLeft (name : string) (remainingPlayers : nat) (canContinue : bool)
  | MGameInterrupted (disconnectedPlayer : string)
  | MRoomCleaned (players : list (option PublicInfo.t)) (connectedCount : nat)
  | MRoomClosed.

Definition Emit : Type := Dest * Message.

(** [room.players.forEach((player, index) => { if (player && index !==
    room.currentPlayerIndex [&& player.connected]) io.to(player.id).emit(m) })]. *)
Definition emitToOthers (needConnected : bool) (r : Room) (m : Message)
    : list Emit :=
  omap (λ e, e)
    (imap (λ index slot,
             match slot with
             | Some player =>
                 if (negb needConnected || connected player)
                    && negb (Z.of_nat index =? currentPlayerIndex r)
                 then Some (ToSocket (id player), m)
                 else None
             | None => None
             end) (players r)).

(** The [canSelectTrump] / [waitingForTrump] pair. *)
Definition emitTrumpSelection (r : Room) : list Emit :=
  match seat r (currentPlayerIndex r) with
  | Some trumpSelector =>
      if connected trumpSelector then
        (ToSocket (id trumpSelector), MCanSelectTrump (hand trumpSelector))
        :: emitToOthers true r (MWaitingForTrump (name trumpSelector))
      else []
  | None => []
  end.

(** ** The socket handlers *)

(** [room.players[i].hand] of an occupied seat. *)
Definition handAt (r : Room) (i : Z) : Hand :=
  match seat r i with Some p => hand p | None => [] end.

(** The ['yourTurn'] / ['turnUpdate'] pair sent when a seat is to play. *)
Definition emitTurn (needConnected : bool) (r : Room) : list Emit :=
  match seat r (currentPlayerIndex r) with
  | Some nextPlayer =>
      if negb needConnected || connected nextPlayer then
        (ToSocket (id nextPlayer),
         MYourTurn (getPlayableCards (hand nextPlayer) (currentTrick r) (trump r)))
        :: emitToOthers needConnected r
             (MTurnUpdate (name nextPlayer) (currentPlayerIndex r))
      else []
  | None => []
  end.

(** [socket.on('joinRoom', ...)]; [roomId] and [preferred] are the [room]
    and [team] fields of the payload.  The [TypeError] of
    [findPositionForTeam] is not caught: the handler sends nothing, and the
    [uncaughtException] handler of the process ends it.  The runs below go
    on from the state at the throw, so the runs of the program are among
    them. *)
Definition onJoinRoom (σ : Server) (sid : string) (roomId : JsVal) (pname : string)
    (preferred : JsVal) (isReconnect : bool) (now : Z) (draws : list nat)
    : Server * list Emit :=
  let '(σ1, result) := addPlayerToRoom σ roomId sid pname preferred isReconnect now in
  match result with
  | JoinThrows => (σ1, [])
  | JoinFail message => (σ1, [(ToSocket sid, MError message)])
  | JoinOk room position isReconnection =>
      if isReconnection then
        let snapshotEmit :=
          match getFullGameStateForPlayer room position with
          | Some gs => [(ToSocket sid, MGameInProgress gs)]
          | None => []
          end in
        let rejoined :=
          (ToOthers sid roomId, MPlayerRejoined pname position (gameState room)) in
        let connectedPlayers := connectedCount room in
        if bool_decide (gameState room = Paused) && (4 <=? connectedPlayers)%nat then
          if bool_decide (trump room = VNull) then
            let room1 := setGameState TrumpSelection room in
            let room2 :=
              match seat room1 (currentPlayerIndex room1) with
              | Some trumpSelector =>
                  if connected trumpSelector
                     && (length (hand trumpSelector) =? 0)%nat
                  then dealCardsForTrumpSelection draws room1
                  else room1
              | None => room1
              end in
            (storeRoom roomId room2 σ1,
             snapshotEmit ++ [rejoined] ++ emitTrumpSelection room2)%list
          else
            let room1 := setGameState Playing room in
            (storeRoom roomId room1 σ1,
             snapshotEmit ++ [rejoined; (ToRoom roomId, MGameResumed)]
             ++ (if currentPlayerIndex room1 =? position
                 then [(ToSocket sid,
                        MYourTurn (getPlayableCards (handAt room1 position)
                                     (currentTrick room1) (trump room1)))]
                 else []))%list
        else (σ1, snapshotEmit ++ [rejoined])%list
      else
        let joined :=
          (ToRoom roomId,
           MPlayerJoined pname (connectedCount room) (playerList room)) in
        if (connectedCount room =? 4)%nat && bool_decide (gameState room = Waiting)
        then
          let '(σ2, started) := startGame σ1 roomId now draws in
          if started then
            match rooms σ2 !! roomId with
            | Some room' => (σ2, joined :: emitTrumpSelection room')
            | None => (σ2, [joined])
            end
          else (σ2, [joined])
        else (σ1, [joined])
  end.

(** [socket.on('selectTrump', ...)]; [choice] is the [trump] field of the
    payload, which is stored as it came. *)
Definition onSelectTrump (σ : Server) (sid : string) (roomId choice : JsVal)
    (now : Z) : Server * list Emit :=
  match rooms σ !! roomId with
  | None => (σ, [(ToSocket sid, MError "Cannot select trump now")])
  | Some room =>
      if negb (bool_decide (gameState room = TrumpSelection))
      then (σ, [(ToSocket sid, MError "Cannot select trump now")])
      else
        let playerIndex := findIndex (hasId sid) (players room) in
        if negb (playerIndex =? currentPlayerIndex room)
        then (σ, [(ToSocket sid, MError "Not your turn to select trump")])
        else
          let room1 :=
            setLastActivity now
              (setGameState Playing
                 (setTrumpSelector playerIndex
                    (setTrump choice room))) in
          let room2 := dealRemainingCards room1 in
          let fullHands :=
            omap (λ e, e)
              (imap (λ index slot,
                       match slot with
                       | Some player =>
                           Some (ToSocket (id player),
                                 MFullHand (hand player) (Z.of_nat index) (trump room2))
                       | None => None
                       end) (players room2)) in
          (storeRoom roomId room2 σ,
           (ToRoom roomId, MTrumpSelected choice) :: fullHands
           ++ emitTurn false room2)%list
  end.

(** The error text of a rejected card in [playCard]. *)
Definition invalidPlayMessage (h : Hand) (trick : list TrickEntry) : string :=
  match leadSuitOf trick with
  | Some leadSuit =>
      if existsb (hasSuit leadSuit) h
      then "Must follow suit! You have " ++ suitName leadSuit ++ " cards."
      else "Invalid card!"
  | None => "Invalid card!"
  end.

(** [socket.on('playCard', ...)], for a [cardIndex] that is an index: a
    non-negative integer.  (The handler reads [player.hand[cardIndex]] for
    any property key; a key that is not an index, such as ['length'], is
    outside this model, and so is a hand whose array such a play has
    changed.)  The two deferred callbacks of a completed trick are not run
    here: the one after a deal is the event [DealTimer] below, the one after
    an ordinary trick only sends [emitTurn true]. *)
Definition onPlayCard (σ : Server) (sid : string) (roomId : JsVal) (cardIndex : nat)
    (now : Z) : Server * list Emit :=
  match rooms σ !! roomId with
  | None => (σ, [(ToSocket sid, MError "Game not in playing state")])
  | Some room =>
      if negb (bool_decide (gameState room = Playing))
      then (σ, [(ToSocket sid, MError "Game not in playing state")])
      else
        let playerIdx := findIndex (hasId sid) (players room) in
        if playerIdx =? -1
        then (σ, [(ToSocket sid, MError "Player not found")])
        else if negb (playerIdx =? currentPlayerIndex room)
        then (σ, [(ToSocket sid, MError "Not your turn")])
        else
          match seat room playerIdx with
          | None => (σ, []) (* not taken: [findIndex] found this seat *)
          | Some player =>
              match mjoin (hand player !! cardIndex) with
              | None => (σ, [(ToSocket sid, MError "Invalid card - card not found")])
              | Some theCard =>
                  if negb (isValidPlay theCard (hand player) (currentTrick room) (trump room))
                  then (σ, [(ToSocket sid,
                             MError (invalidPlayMessage (hand player) (currentTrick room)))])
                  else
                    let room1 :=
                      updSeat playerIdx
                        (λ p, setHand (<[cardIndex := None]> (hand p)) p)
                        (setCurrentTrick
                           (currentTrick room ++ [mkEntry playerIdx (name player) theCard])%list
                           (setLastActivity now room)) in
                    let played :=
                      (ToRoom roomId,
                       MCardPlayed (name player) playerIdx theCard
                         (length (currentTrick room1))) in
                    if (length (currentTrick room1) =? 4)%nat then
                      match getTrickWinner (currentTrick room1) (trump room1) with
                      | None => (storeRoom roomId room1 σ, [played])
                          (* not taken: the trick has four entries *)
                      | Some winner =>
                          let winnerIndex := playerIndex winner in
                          let trickCards := card <$> currentTrick room1 in
                          let room2 :=
                            setLastTrickWinner winnerIndex
                              (setCurrentPlayerIndex winnerIndex
                                 (setCurrentTrick []
                                    (incrTricks winnerIndex room1))) in
                          let trickDone :=
                            (ToRoom roomId,
                             MTrickComplete (playerName winner) winnerIndex trickCards
                               (scores room2) (tricksWon room2)) in
                          let '(room3, roundStatus) := checkRoundComplete room2 in
                          if gameComplete roundStatus then
                            let finalWinner :=
                              if (teamB (scores room3) <? teamA (scores room3))%nat
                              then WinnerTeamA
                              else if (teamA (scores room3) <? teamB (scores room3))%nat
                              then WinnerTeamB
                              else Tie in
                            (storeRoom roomId room3 σ,
                             [played; trickDone;
                              (ToRoom roomId,
                               MGameOver finalWinner (scores room3)
                                 (roundResult roundStatus))])
                          else if roundComplete roundStatus then
                            (storeRoom roomId room3 σ,
                             [played; trickDone;
                              (ToRoom roomId,
                               MRoundComplete (roundResult roundStatus) (scores room3))])
                          else (storeRoom roomId room3 σ, [played; trickDone])
                      end
                    else
                      let room2 :=
                        setCurrentPlayerIndex
                          (Z.rem (currentPlayerIndex room1 + 1) 4) room1 in
                      (storeRoom roomId room2 σ, played :: emitTurn true room2)
              end
          end
  end.

(** [cleanupRoom]. *)
Definition cleanupRoom (σ : Server) (roomId : JsVal) : Server * list Emit :=
  match rooms σ !! roomId with
  | None => (σ, [])
  | Some room =>
      let connectedIds :=
        omap (λ slot : option Player,
                match slot with
                | Some p => if connected p then Some (id p) else None
                | None => None
                end) (players room) in
      (mkServer (delete roomId (rooms σ))
         (foldl (λ m sid, delete sid m) (playerSockets σ) connectedIds),
       (λ sid, (ToSocket sid, MRoomClosed)) <$> connectedIds)
  end.

Definition timedOut (now : Z) (slot : option Player) : bool :=
  match slot with
  | Some p => negb (connected p) && (PLAYER_TIMEOUT <? now - lastSeen p)
  | None => false
  end.

(** [checkRoomHealth]; the boolean is its return value. *)
Definition checkRoomHealth (σ : Server) (roomId : JsVal) (now : Z)
    : Server * list Emit * bool :=
  match rooms σ !! roomId with
  | None => (σ, [], false)
  | Some room =>
      if (connectedCount room =? 0)%nat && (2 * 60 * 1000 <? now - lastActivity room)
      then (cleanupRoom σ roomId, false)
      else
        let hasChanges := existsb (timedOut now) (players room) in
        if hasChanges then
          let room1 :=
            setLastActivity now
              (setPlayers
                 ((λ slot, if timedOut now slot then None else slot) <$> players room)
                 room) in
          let remainingPlayers := filter (λ s, isConnected s = true) (players room1) in
          (storeRoom roomId room1 σ,
           omap (λ slot : option Player,
                   match slot with
                   | Some p =>
                       Some (ToSocket (id p),
                             MRoomCleaned (playerList room1) (length remainingPlayers))
                   | None => None
                   end) remainingPlayers,
           true)
        else (σ, [], true)
  end.

(** [socket.on('disconnect', ...)].  [if (roomId)] is false for a socket that
    is not tracked and for one tracked under a falsy room id.  The seat that
    [findIndex] returns is occupied, so [playerName] is its player's name. *)
Definition onDisconnect (σ : Server) (sid : string) (now : Z)
    : Server * list Emit :=
  match playerSockets σ !! sid with
  | None => (σ, [])
  | Some roomId =>
      if negb (truthy roomId) then (σ, [])
      else
        let '(σ1, out) :=
          match rooms σ !! roomId with
          | None => (σ, [])
          | Some room =>
              let playerIndex := findIndex (hasId sid) (players room) in
              if negb (playerIndex =? -1) then
                let playerName :=
                  match seat room playerIndex with Some p => name p | None => "" end in
                let room1 :=
                  setLastActivity now
                    (updSeat playerIndex
                       (λ p, setLastSeen now (setConnected false p)) room) in
                let connectedCount := connectedCount room1 in
                let left :=
                  (ToOthers sid roomId,
                   MPlayerLeft playerName connectedCount (2 <=? connectedCount)%nat) in
                if (bool_decide (gameState room1 = Playing)
                    || bool_decide (gameState room1 = TrumpSelection))
                   && (1 <=? connectedCount)%nat
                then
                  (storeRoom roomId (setGameState Paused room1) σ,
                   [left; (ToRoom roomId, MGameInterrupted playerName)])
                else (storeRoom roomId room1 σ, [left])
              else (σ, [])
          end in
        (untrackSocket sid σ1, out)
  end.

(** ** Events and runs *)

(** What the server reacts to: the socket events, and the callbacks of
    [setTimeout] and [setInterval] that change state.  [now] is the clock
    read by a handler and [draws] the random numbers of a shuffle it may
    perform.  The timers are not tied to the clock here: [DealTimer] (the
    callback that [playCard] schedules after a deal, which deals for the next
    trump selection), [HealthCheck] ([checkRoomHealth], run by the periodic
    sweep and after a disconnect) and [CleanupTimer] ([cleanupRoom], scheduled
    at the end of a match) may occur at any point of a run and for any room,
    so the runs of the program are among the runs below.  The deal callback
    holds the room object; here it finds the room by its name. *)
Inductive Event :=
  | JoinRoom (sid : string) (roomId : JsVal) (pname : string) (preferred : JsVal)
      (isReconnect : bool) (now : Z) (draws : list nat)
  | SelectTrump (sid : string) (roomId choice : JsVal) (now : Z)
  | PlayCard (sid : string) (roomId : JsVal) (cardIndex : nat) (now : Z)
  | Disconnect (sid : string) (now : Z)
  | DealTimer (roomId : JsVal) (draws : list nat)
  | HealthCheck (roomId : JsVal) (now : Z)
  | CleanupTimer (roomId : JsVal).

Definition handle (σ : Server) (e : Event) : Server * list Emit :=
  match e with
  | JoinRoom sid roomId pname preferred isReconnect now draws =>
      onJoinRoom σ sid roomId pname preferred isReconnect now draws
  | SelectTrump sid roomId choice now => onSelectTrump σ sid roomId choice now
  | PlayCard sid roomId cardIndex now => onPlayCard σ sid roomId cardIndex now
  | Disconnect sid now => onDisconnect σ sid now
  | DealTimer roomId draws =>
      match rooms σ !! roomId with
      | Some room =>
          let room' := dealCardsForTrumpSelection draws room in
          (storeRoom roomId room' σ, emitTrumpSelection room')
      | None => (σ, [])
      end
  | HealthCheck roomId now => (checkRoomHealth σ roomId now).1
  | CleanupTimer roomId => cleanupRoom σ roomId
  end.

Definition step (σ : Server) (e : Event) : Server := (handle σ e).1.

(** The server after the events of [evs], oldest first. *)
Definition run (evs : list Event) : Server := foldl step initialServer evs.

Inductive reachable : Server → Prop :=
  | reachable_init : reachable initialServer
  | reachable_step σ e : reachable σ → reachable (step σ e).

(** ** Vocabulary of the properties *)

(** The slot [i] of [hand] holds a card of suit [s], or any card. *)
Definition suitAt (s : Suit) (hand : Hand) (i : nat) : Prop :=
  ∃ c, hand !! i = Some (Some c) ∧ suit c = s.
Definition cardAt (hand : Hand) (i : nat) : Prop :=
  ∃ c, hand !! i = Some (Some c).

(** The value of a trick entry's card under [trump]. *)
Definition valueOf (trump : JsVal) (e : TrickEntry) : Z :=
  getCardValue (card e) trump.

(** Team tricks: seats 0 and 2 are Team A, seats 1 and 3 Team B. *)
Definition teamTricks (t : Team) (r : Room) : nat :=
  match t with
  | TeamA => (tricksOf r 0 + tricksOf r 2)%nat
  | TeamB => (tricksOf r 1 + tricksOf r 3)%nat
  end.

Definition scoreOf (t : Team) (s : Scores) : nat :=
  match t with TeamA => teamA s | TeamB => teamB s end.

(** The defending team is the one that does not hold the seat
    [trumpSelector]. *)
Definition defends (t : Team) (r : Room) : Prop :=
  trumpSelector r ∉ TEAM_POSITIONS t.

(** The points of a deal won by [t]: two for a defending team that took all
    eight tricks, one for any other majority. *)
Definition awardTo (t : Team) (r : Room) : nat :=
  if bool_decide (getTeamForPosition (trumpSelector r) = otherTeamOf t)
     && (teamTricks t r =? 8)%nat
  then 2%nat else 1%nat.

(** All four seats are taken. *)
Definition fullySeated (r : Room) : Prop :=
  length (players r) = 4%nat ∧ Forall (λ s, nonNullPlayer s = true) (players r).

(** The number of cards held in a hand. *)
Definition cardsIn (h : Hand) : nat := length (filter (λ s, nonNull s = true) h).

(** The seat [i] of [r] is held by the disconnected player [p] called [n]. *)
Definition disconnectedSeat (n : string) (r : Room) (i : nat) (p : Player) : Prop :=
  players r !! i = Some (Some p) ∧ name p = n ∧ connected p = false.

(** The order in which a join looks at the seats. *)
Definition seatOrder (preferred : Team) : list Z :=
  (TEAM_POSITIONS preferred ++ TEAM_POSITIONS (otherTeamOf preferred))%list.

(** [pos] is the first seat of [order] that is available in [r]. *)
Definition firstAvailable (r : Room) (order : list Z) (pos : Z) : Prop :=
  ∃ k, order !! k = Some pos ∧ seatAvailable r pos = true
       ∧ ∀ k' q, (k' < k)%nat → order !! k' = Some q → seatAvailable r q = false.

(** A connected seat of [r] holds the name [n]. *)
Definition nameConnected (n : string) (r : Room) : Prop :=
  ∃ i p, players r !! i = Some (Some p) ∧ connected p = true ∧ name p = n.

(** ** Invariants of the rooms of a run *)

(** The [trump] field of the payload of a [selectTrump] is not [null]. *)
Definition nonNullChoice (e : Event) : Prop :=
  match e with
  | SelectTrump _ _ choice _ => choice ≠ VNull
  | _ => True
  end.

(** What holds of every room the server ever has: four seats; a game that
    is in progress has all four seats connected; the trump is [null] before
    and during trump selection; an unfinished match has both scores below
    the target.  In the runs in which no [selectTrump] carried [null]
    ([strict]), the trump is moreover not [null] while playing and after the
    match. *)
Definition RoomInv (strict : bool) (r : Room) : Prop :=
  length (players r) = 4%nat
  ∧ (gameState r = TrumpSelection ∨ gameState r = Playing →
       Forall (λ s, isConnected s = true) (players r))
  ∧ (gameState r = Waiting ∨ gameState r = TrumpSelection → trump r = VNull)
  ∧ (gameState r = Playing ∨ gameState r = Completed →
       strict = true → trump r ≠ VNull)
  ∧ (gameState r ≠ Completed →
       (teamA (scores r) < targetScore ∧ teamB (scores r) < targetScore)%nat).

Definition ServerInv (strict : bool) (σ : Server) : Prop :=
  ∀ rid r, rooms σ !! rid = Some r → RoomInv strict r.

(** A handler takes the room [r] to [r']: the invariant is kept, and a room
    that is paused afterwards was paused or in progress before and has the
    trump it had. *)
Definition okTrans (strict : bool) (r r' : Room) : Prop :=
  RoomInv strict r →
  RoomInv strict r'
  ∧ (gameState r' = Paused →
       trump r' = trump r
       ∧ (gameState r = Paused ∨ gameState r = TrumpSelection ∨ gameState r = Playing)).

(** The room [r'] found under [rid] after a step comes from the room that
    was there, or from a room that the step created. *)
Definition roomTrans (strict : bool) (σ : Server) (rid : JsVal) (r' : Room) : Prop :=
  ∃ r0, (rooms σ !! rid = Some r0
         ∨ (rooms σ !! rid = None ∧ ∃ now, r0 = initializeRoom rid now))
        ∧ okTrans strict r0 r'.

(** A change of a room that leaves its phase, trump, scores and the
    connection flags of its seats alone. *)
Definition sameCore (r r' : Room) : Prop :=
  gameState r' = gameState r ∧ trump r' = trump r ∧ scores r' = scores r
  ∧ length (players r') = length (players r)
  ∧ (Forall (λ s, isConnected s = true) (players r) →
     Forall (λ s, isConnected s = true) (players r')).

(** Where the room of a join comes from: it was in the registry, or the
    join made it. *)
Definition originOf (σ : Server) (roomId : JsVal) (now : Z) (r0 : Room) : Prop :=
  rooms σ !! roomId = Some r0
  ∨ (rooms σ !! roomId = None ∧ r0 = initializeRoom roomId now).

(** ** The phase a pause interrupted *)

(** The program does not store the phase that a pause interrupted.  It is
    recovered from the run: [notePhase] keeps, for every room, the last phase
    that was not [Paused]. *)
Definition notePhase (σ : Server) (g : JsVal → GameState) : JsVal → GameState :=
  λ rid,
    match rooms σ !! rid with
    | Some r => if bool_decide (gameState r = Paused) then g rid else gameState r
    | None => Waiting
    end.

Definition stepNoting (st : Server * (JsVal → GameState)) (e : Event)
    : Server * (JsVal → GameState) :=
  let σ' := step st.1 e in (σ', notePhase σ' st.2).

Definition runNoting (evs : list Event) : Server * (JsVal → GameState) :=
  foldl stepNoting (initialServer, λ _, Waiting) evs.

(** The phase of room [rid] when it was last not paused in the run [evs]:
    for a paused room, the phase that the pause interrupted. *)
Definition interruptedPhase (evs : list Event) (rid : JsVal) : GameState :=
  (runNoting evs).2 rid.

(** The socket [sid] is the connection of a seat of [r]. *)
Definition seatedWith (sid : string) (r : Room) : Prop :=
  ∃ i p, players r !! i = Some (Some p) ∧ id p = sid.

Definition winnerOf (t : Team) : FinalWinner :=
  match t with TeamA => WinnerTeamA | TeamB => WinnerTeamB end.

(** ** Sample runs *)

(** Four connections take the seats of room ["omi"]: Team A gets the seats
    0 and 2, Team B the seats 1 and 3.  The empty list of draws makes every
    [Math.floor(Math.random() * (i + 1))] of a shuffle 0. *)
Definition tableJoins : list Event :=
  [JoinRoom "s0" "omi" "a" "A" false 0 [];
   JoinRoom "s1" "omi" "b" "B" false 0 [];
   JoinRoom "s2" "omi" "c" "A" false 0 [];
   JoinRoom "s3" "omi" "d" "B" false 0 []].

(** The room once the four seats are taken. *)
Definition seatedRoom : Room :=
  Eval vm_compute in
    default (initializeRoom "omi" 0) (rooms (run tableJoins) !! VStr "omi").

(** The first deal with Clubs as trump, every seat playing a legal card. *)
Definition firstDeal : list Event :=
  [SelectTrump "s0" "omi" "Clubs" 1;
   PlayCard "s0" "omi" 0 2; PlayCard "s1" "omi" 0 2;
   PlayCard "s2" "omi" 0 2; PlayCard "s3" "omi" 7 2;
   PlayCard "s2" "omi" 1 2; PlayCard "s3" "omi" 0 2;
   PlayCard "s0" "omi" 1 2; PlayCard "s1" "omi" 7 2;
   PlayCard "s2" "omi" 2 2; PlayCard "s3" "omi" 1 2;
   PlayCard "s0" "omi" 2 2; PlayCard "s1" "omi" 1 2;
   PlayCard "s2" "omi" 3 2; PlayCard "s3" "omi" 2 2;
   PlayCard "s0" "omi" 3 2; PlayCard "s1" "omi" 2 2;
   PlayCard "s2" "omi" 4 2; PlayCard "s3" "omi" 3 2;
   PlayCard "s0" "omi" 4 2; PlayCard "s1" "omi" 3 2;
   PlayCard "s2" "omi" 5 2; PlayCard "s3" "omi" 4 2;
   PlayCard "s0" "omi" 5 2; PlayCard "s1" "omi" 4 2;
   PlayCard "s2" "omi" 6 2; PlayCard "s3" "omi" 5 2;
   PlayCard "s0" "omi" 6 2; PlayCard "s1" "omi" 5 2;
   PlayCard "s2" "omi" 7 2; PlayCard "s3" "omi" 6 2;
   PlayCard "s0" "omi" 7 2].

(** The play that ends the first deal. *)
Definition lastPlayOfFirstDeal : Event := PlayCard "s1" "omi" 6 2.

(** A scripted table, to run whole matches: the seat to act plays its first
    legal card, the trump selector names [choice] once it holds four cards,
    and the deal timer fires when a new deal is due. *)
Definition scriptedEvent (choice rid : JsVal) (σ : Server) : option Event :=
  match rooms σ !! rid with
  | Some r =>
      match gameState r, seat r (currentPlayerIndex r) with
      | Playing, Some p =>
          match getPlayableCards (hand p) (currentTrick r) (trump r) with
          | i :: _ => Some (PlayCard (id p) rid i 2)
          | [] => None
          end
      | TrumpSelection, Some p =>
          if (length (hand p) =? 4)%nat
          then Some (SelectTrump (id p) rid choice 1)
          else Some (DealTimer rid [])
      | _, _ => None
      end
  | None => None
  end.

Fixpoint scripted (choice rid : JsVal) (n : nat) (σ : Server)
    : list Event :=
  match n with
  | O => []
  | S n' =>
      match scriptedEvent choice rid σ with
      | Some e => e :: scripted choice rid n' (step σ e)
      | None => []
      end
  end.

(** A whole match at the scripted table with Hearts as trump: the events up
    to the play that ends it, and that play. *)
Definition scriptedMatch : list Event :=
  Eval vm_compute in
    (tableJoins ++ scripted "Hearts" "omi" 2000 (run tableJoins))%list.

Definition matchUntilLastPlay : list Event :=
  Eval vm_compute in removelast scriptedMatch.

Definition lastPlayOfMatch : Event :=
  Eval vm_compute in List.last scriptedMatch (DealTimer "omi" []).

(** A socket that sits in room ["omi"] and then joins room ["side"], and the
    three joins that fill ["omi"]. *)
Definition twoRooms : list Event :=
  [JoinRoom "s0" "omi" "a" "A" false 0 [];
   JoinRoom "s0" "side" "a" "A" false 0 [];
   JoinRoom "s1" "omi" "b" "B" false 0 [];
   JoinRoom "s2" "omi" "c" "A" false 0 [];
   JoinRoom "s3" "omi" "d" "B" false 0 []].

(** Four connections take the seats of the room whose id is [roomId]. *)
Definition joinsOf (roomId : JsVal) : list Event :=
  [JoinRoom "s0" roomId "a" "A" false 0 [];
   JoinRoom "s1" roomId "b" "B" false 0 [];
   JoinRoom "s2" roomId "c" "A" false 0 [];
   JoinRoom "s3" roomId "d" "B" false 0 []].

(** Four connections take the seats of the room whose name is the empty
    string. *)
Definition namelessRoom : list Event :=
  [JoinRoom "s0" "" "a" "A" false 0 [];
   JoinRoom "s1" "" "b" "B" false 0 [];
   JoinRoom "s2" "" "c" "A" false 0 [];
   JoinRoom "s3" "" "d" "B" false 0 []].

(** ** Statements of the specification that the program does not satisfy,
       as the specification words them *)


(** ["if all four seats are occupied the join is rejected with a full-room
    error; otherwise, if the chosen name is already held by a connected seat
    the join is rejected as a duplicate; otherwise the join succeeds"], for
    every join without the reconnection flag to an existing room. *)
Definition joinRejectedOrSeated : Prop :=
  ∀ σ roomId sid pname preferred now room,
    rooms σ !! roomId = Some room → length (players room) = 4%nat →
    let res := addPlayerToRoom σ roomId sid pname preferred false now in
    let full := ∀ pos, pos ∈ [0; 1; 2; 3] → seatAvailable room pos = false in
    (full → res.2 = JoinFail "Room is full")
    ∧ (¬ full → nameConnected pname room → res.2 = JoinFail "Name already taken")
    ∧ (¬ full → ¬ nameConnected pname room →
         ∃ room' pos, res.2 = JoinOk room' pos false).

(** ["a disconnect event for any seated player moves the phase to paused"]. *)
Definition disconnectAlwaysPauses : Prop :=
  ∀ σ rid r sid now,
    reachable σ → rooms σ !! rid = Some r →
    gameState r = TrumpSelection ∨ gameState r = Playing →
    seatedWith sid r →
    ∃ r', rooms (step σ (Disconnect sid now)) !! rid = Some r'
          ∧ gameState r' = Paused.

(** ["the new trump selector is the previous deal's trump selector + 1 mod
    4"], for the play [e] that ends a deal of room [rid] in [σ]. *)
Definition selectorRotates (σ : Server) (rid : JsVal) (e : Event) : Prop :=
  ∀ r r', rooms σ !! rid = Some r → rooms (step σ e) !! rid = Some r' →
    gameState r = Playing → gameState r' = TrumpSelection →
    trumpSelector r' = (trumpSelector r + 1) `mod` 4
    ∧ currentPlayerIndex r' = trumpSelector r'.

(** ** Proof steps *)

(** A play that is rejected leaves the registry as it was; [Hr] is the
    lookup of the room and [Hsame] refutes that the room is unchanged. *)
Ltac rejected_play Hr Hsame :=
  cbn [fst]; rewrite Hr; intros [= <-]; by destruct Hsame.


(** ** Further invariants of the rooms of a run *)

Definition trickSum (r : Room) : nat := foldl Nat.add O (tricksWon r).

(** The seat that played the [k]-th card of the current trick, counted back
    from the seat to act. *)
Definition trickSeat (r : Room) (k : nat) : Z :=
  (currentPlayerIndex r - Z.of_nat (length (currentTrick r)) + Z.of_nat k) `mod` 4.

(** What else holds of every room the server ever has: four trick counters;
    a seat index as the seat to act; fewer than four cards in the trick,
    played by consecutive seats up to the seat to act, and none before the
    game starts; at most eight tricks in a deal, eight exactly when the match is
    completed; every player's team and position are those of the seat; no
    points before the game starts; a completed match has a score at the
    target, no score is more than one point above it, and the two are never
    both at the target. *)
Definition RoomInv2 (r : Room) : Prop :=
  length (tricksWon r) = 4%nat
  ∧ 0 ≤ currentPlayerIndex r < 4
  ∧ (length (currentTrick r) < 4)%nat
  ∧ (∀ k e, currentTrick r !! k = Some e → playerIndex e = trickSeat r k)
  ∧ (gameState r = Waiting → currentTrick r = [])
  ∧ (trickSum r ≤ 8)%nat
  ∧ (gameState r ≠ Completed → (trickSum r < 8)%nat)
  ∧ (gameState r = Completed → trickSum r = 8%nat)
  ∧ (∀ i p, players r !! i = Some (Some p) →
       team p = getTeamForPosition (Z.of_nat i) ∧ position p = Z.of_nat i)
  ∧ (gameState r = Waiting → scores r = mkScores 0 0)
  ∧ (gameState r = Completed →
       (targetScore ≤ teamA (scores r) ∨ targetScore ≤ teamB (scores r))%nat)
  ∧ (teamA (scores r) ≤ targetScore + 1 ∧ teamB (scores r) ≤ targetScore + 1)%nat
  ∧ ¬ (targetScore ≤ teamA (scores r) ∧ targetScore ≤ teamB (scores r))%nat.

(** The arrows of the phase machine, as one step of a room takes them. *)
Definition phaseStep (r r' : Room) : Prop :=
  gameState r' = gameState r
  ∨ (gameState r = Waiting ∧ gameState r' = TrumpSelection)
  ∨ (gameState r = TrumpSelection ∧ gameState r' = Playing)
  ∨ ((gameState r = TrumpSelection ∨ gameState r = Playing) ∧ gameState r' = Paused)
  ∨ (gameState r = Playing
     ∧ (gameState r' = TrumpSelection ∨ gameState r' = Completed))
  ∨ (gameState r = Paused ∧ gameState r' = TrumpSelection ∧ trump r = VNull)
  ∨ (gameState r = Paused ∧ gameState r' = Playing ∧ trump r ≠ VNull).

Definition scoresLe (r r' : Room) : Prop :=
  (teamA (scores r) ≤ teamA (scores r') ∧ teamB (scores r) ≤ teamB (scores r'))%nat.

(** A handler takes the room [r] to [r']. *)
Definition okTrans2 (r r' : Room) : Prop :=
  RoomInv false r → RoomInv2 r → RoomInv2 r' ∧ phaseStep r r' ∧ scoresLe r r'.

Definition roomTrans2 (σ : Server) (rid : JsVal) (r' : Room) : Prop :=
  ∃ r0, (rooms σ !! rid = Some r0
         ∨ (rooms σ !! rid = None ∧ ∃ now, r0 = initializeRoom rid now))
        ∧ okTrans2 r0 r'.

(** A change of the seats only: the phase, the trump, the scores, the
    counters, the trick and the turn stay,
    and every player of [r'] is the player that sat there, up to the fields
    other than team and position, or a player made for that seat. *)
Definition seatsFrame (r r' : Room) : Prop :=
  gameState r' = gameState r ∧ trump r' = trump r ∧ scores r' = scores r
  ∧ tricksWon r' = tricksWon r ∧ currentTrick r' = currentTrick r
  ∧ currentPlayerIndex r' = currentPlayerIndex r
  ∧ ∀ i p', players r' !! i = Some (Some p') →
      (∃ p, players r !! i = Some (Some p)
            ∧ team p' = team p ∧ position p' = position p)
      ∨ (team p' = getTeamForPosition (Z.of_nat i) ∧ position p' = Z.of_nat i).

(** A change that keeps the phase, the trump and the scores, and the
    invariants. *)
Definition frame2 (r r' : Room) : Prop :=
  sameCore r r' ∧ (RoomInv2 r → RoomInv2 r').

Definition ServerInv2 (σ : Server) : Prop :=
  ∀ rid r, rooms σ !! rid = Some r → RoomInv2 r.

(** ** Server statistics *)

Record RoomStats := mkRoomStats {
  totalRooms : nat;
  activeRooms : nat;
  waitingRooms : nat;
  playingRooms : nat;
  pausedRooms : nat;
  totalPlayers : nat;
  connectedPlayers : nat
}.

(** The body of the loop of [getRoomStats] for one room; a completed room
    is counted by no case of the [switch]. *)
Definition countRoom (room : Room) (stats : RoomStats) : RoomStats :=
  let connectedCount := connectedCount room in
  let stats1 :=
    mkRoomStats (totalRooms stats) (activeRooms stats) (waitingRooms stats)
      (playingRooms stats) (pausedRooms stats)
      (totalPlayers stats
       + length (filter (λ s, nonNullPlayer s = true) (players room)))
      (connectedPlayers stats + connectedCount) in
  let stats2 :=
    if (0 <? connectedCount)%nat
    then mkRoomStats (totalRooms stats1) (S (activeRooms stats1))
           (waitingRooms stats1) (playingRooms stats1) (pausedRooms stats1)
           (totalPlayers stats1) (connectedPlayers stats1)
    else stats1 in
  match gameState room with
  | Waiting =>
      mkRoomStats (totalRooms stats2) (activeRooms stats2)
        (S (waitingRooms stats2)) (playingRooms stats2) (pausedRooms stats2)
        (totalPlayers stats2) (connectedPlayers stats2)
  | Playing | TrumpSelection =>
      mkRoomStats (totalRooms stats2) (activeRooms stats2)
        (waitingRooms stats2) (S (playingRooms stats2)) (pausedRooms stats2)
        (totalPlayers stats2) (connectedPlayers stats2)
  | Paused =>
      mkRoomStats (totalRooms stats2) (activeRooms stats2)
        (waitingRooms stats2) (playingRooms stats2) (S (pausedRooms stats2))
        (totalPlayers stats2) (connectedPlayers stats2)
  | Completed => stats2
  end.

(** [getRoomStats].  The loop visits the rooms in the order of the [Map];
    the fold below visits them in the order of the keys, which gives the
    same counters since every one of them is a sum over the rooms. *)
Definition getRoomStats (σ : Server) : RoomStats :=
  map_fold (λ _ room stats, countRoom room stats)
    (mkRoomStats (size (rooms σ)) 0 0 0 0 0 0) (rooms σ).

(** ** Plays and trump choices that the handlers accept *)

(** The play of the card in slot [cardIndex] by the connection [sid] is
    legal in the room [room] of [σ]: the room is playing, the connection
    holds the seat to act, whose player is [p], and the slot holds the card
    [c], which [isValidPlay] admits. *)
Definition legalPlay (σ : Server) (sid : string) (roomId : JsVal) (cardIndex : nat)
    (room : Room) (p : Player) (c : Card) : Prop :=
  rooms σ !! roomId = Some room
  ∧ gameState room = Playing
  ∧ findIndex (hasId sid) (players room) = currentPlayerIndex room
  ∧ seat room (currentPlayerIndex room) = Some p
  ∧ hand p !! cardIndex = Some (Some c)
  ∧ isValidPlay c (hand p) (currentTrick room) (trump room) = true.

(** The room after the card is taken from the hand and put on the trick. *)
Definition withCardPlayed (cardIndex : nat) (e : TrickEntry) (now : Z)
    (room : Room) : Room :=
  updSeat (playerIndex e) (λ q, setHand (<[cardIndex := None]> (hand q)) q)
    (setCurrentTrick (currentTrick room ++ [e])%list (setLastActivity now room)).

(** The connection [sid] may choose the trump in the room [room] of [σ]. *)
Definition maySelectTrump (σ : Server) (sid : string) (roomId : JsVal) (room : Room)
    : Prop :=
  rooms σ !! roomId = Some room
  ∧ gameState room = TrumpSelection
  ∧ findIndex (hasId sid) (players room) = currentPlayerIndex room.

(** ** Vocabulary of the remaining properties *)

(** A connected seat of [r] holds the connection [sid]. *)
Definition connectedSeatOf (r : Room) (sid : string) : Prop :=
  ∃ i p, players r !! i = Some (Some p) ∧ connected p = true ∧ id p = sid.

(** The rank [r1] comes before [r2] in [ranks]. *)
Definition rankBefore (r1 r2 : Rank) : Prop :=
  ∃ i j, ranks !! i = Some r1 ∧ ranks !! j = Some r2 ∧ (i < j)%nat.

(** One connection takes two seats of room ["omi"] under two names, two
    others take the remaining seats, seat 0 chooses the trump and plays its
    first card: seat 1, held by the connection of seat 0, is to act. *)
Definition doubleSeating : list Event :=
  [JoinRoom "s0" "omi" "a" "A" false 0 [];
   JoinRoom "s0" "omi" "b" "B" false 0 [];
   JoinRoom "s2" "omi" "c" "A" false 0 [];
   JoinRoom "s3" "omi" "d" "B" false 0 [];
   SelectTrump "s0" "omi" "Clubs" 1;
   PlayCard "s0" "omi" 0 2].

(** The room that an event is about: the one it names, and for a
    disconnection the one that the table of connections gives. *)
Definition targetOf (σ : Server) (e : Event) : option JsVal :=
  match e with
  | JoinRoom _ roomId _ _ _ _ _ => Some roomId
  | SelectTrump _ roomId _ _ => Some roomId
  | PlayCard _ roomId _ _ => Some roomId
  | Disconnect sid _ => playerSockets σ !! sid
  | DealTimer roomId _ => Some roomId
  | HealthCheck roomId _ => Some roomId
  | CleanupTimer roomId => Some roomId
  end.

(** No seat of [r] can be taken by a join. *)
Definition noSeatAvailable (r : Room) : Prop :=
  ∀ pos, pos ∈ [0; 1; 2; 3] → seatAvailable r pos = false.

(** Three connections sit down in room ["omi"], one of them leaves, a
    fourth takes the last seat and the one that left comes back: four
    connected players in a room that is still waiting. *)
Definition lateFourth : list Event :=
  [JoinRoom "s0" "omi" "a" "A" false 0 [];
   JoinRoom "s1" "omi" "b" "B" false 0 [];
   JoinRoom "s2" "omi" "c" "A" false 0 [];
   Disconnect "s2" 1;
   JoinRoom "s3" "omi" "d" "B" false 2 [];
   JoinRoom "s9" "omi" "c" "A" true 3 []].

(** ** The periodic sweep *)

(** What [checkRoomHealth] at time [now] leaves of a room: nothing of an
    idle room, and a room without its stale players otherwise. *)
Definition afterHealthCheck (now : Z) (r : Room) : option Room :=
  if (connectedCount r =? 0)%nat && (2 * 60 * 1000 <? now - lastActivity r)
  then None
  else if existsb (timedOut now) (players r)
  then Some (setLastActivity now
               (setPlayers
                  ((λ slot, if timedOut now slot then None else slot) <$> players r) r))
  else Some r.

(** The loop of the cleanup interval over [roomsToCheck], the names of the
    rooms at its start; [nows] gives the clock that [checkRoomHealth] reads
    for each of them. *)
Definition sweep (σ : Server) (roomsToCheck : list JsVal) (nows : JsVal → Z)
    : Server :=
  foldl (λ σ' roomId, (checkRoomHealth σ' roomId (nows roomId)).1.1) σ roomsToCheck.

(** * Properties *)

(** ** The model on small inputs *)

Example createDeck_first_last :
  length createDeck = 32%nat
  ∧ head createDeck = Some (mkCard Hearts R7)
  ∧ last createDeck = Some (mkCard Spades RA).
Proof. repeat split. Qed.

Example shuffle_all_zero :
  take 5 (shuffleDeck [] createDeck)
  = [mkCard Hearts R8; mkCard Hearts R9; mkCard Hearts R10; mkCard Hearts RJ;
     mkCard Hearts RQ]
  ∧ last (shuffleDeck [] createDeck) = Some (mkCard Hearts R7).
Proof. split; vm_compute; reflexivity. Qed.

Example getCardValue_samples :
  getCardValue (mkCard Spades R7) "Spades" = 11
  ∧ getCardValue (mkCard Hearts RA) "Spades" = 8
  ∧ getCardValue (mkCard Hearts RA) VNull = 8.
Proof. repeat split. Qed.

Example follow_suit_sample :
  getPlayableCards [Some (mkCard Hearts R7); None; Some (mkCard Spades RA)]
    [mkEntry 1 "b" (mkCard Spades R9)] "Hearts" = [2%nat]
  ∧ getPlayableCards [Some (mkCard Hearts R7); None; Some (mkCard Spades RA)]
      [mkEntry 1 "b" (mkCard Clubs R9)] "Hearts" = [0%nat; 2%nat]
  ∧ isValidPlay (mkCard Hearts R7)
      [Some (mkCard Hearts R7); None; Some (mkCard Spades RA)]
      [mkEntry 1 "b" (mkCard Spades R9)] "Hearts" = false.
Proof. repeat split. Qed.

(** The scenario of the specification: a disconnect in the playing phase
    pauses the room, and the reconnection under the same name resumes it. *)
Example pause_and_resume :
  let evs := (tableJoins ++ firstDeal ++ [Disconnect "s2" 3])%list in
  let back := JoinRoom "s9" "omi" "c" "A" true 4 [] in
  (gameState <$> rooms (run evs) !! VStr "omi") = Some Paused
  ∧ interruptedPhase evs "omi" = Playing
  ∧ (gameState <$> rooms (run (evs ++ [back])) !! VStr "omi") = Some Playing
  ∧ (connectedCount <$> rooms (run (evs ++ [back])) !! VStr "omi") = Some 4%nat.
Proof. repeat split; vm_compute; reflexivity. Qed.

Example pause_in_trump_selection :
  let evs := (tableJoins ++ [Disconnect "s2" 3])%list in
  (gameState <$> rooms (run evs) !! VStr "omi") = Some Paused
  ∧ interruptedPhase evs "omi" = TrumpSelection
  ∧ (trump <$> rooms (run evs) !! VStr "omi") = Some VNull.
Proof. repeat split; vm_compute; reflexivity. Qed.

(** A fifth join is turned away and changes no seat. *)
Example fifth_join_rejected :
  (handle (run tableJoins) (JoinRoom "s4" "omi" "e" "A" false 5 [])).2
  = [(ToSocket "s4", MError "Room is full")]
  ∧ (players <$> rooms (step (run tableJoins) (JoinRoom "s4" "omi" "e" "A" false 5 [])) !! VStr "omi")
    = (players <$> rooms (run tableJoins) !! VStr "omi").
Proof. split; vm_compute; reflexivity. Qed.

(** The scripted match ends 10 to 5. *)
Example scripted_match_result :
  (scores <$> rooms (run scriptedMatch) !! VStr "omi") = Some (mkScores 10 5)
  ∧ length scriptedMatch = 513%nat.
Proof. split; vm_compute; reflexivity. Qed.

(** ** Legal plays *)

Section PlayableCards.

Lemma pushIndices_elem P k hand i :
  i ∈ pushIndices P k hand ↔
  ∃ slot, (k ≤ i)%nat ∧ hand !! (i - k)%nat = Some slot ∧ P slot = true.
Proof.
  revert k. induction hand as [|slot rest IH]; intros k; simpl.
  - split; [intros H; inversion H | intros (? & _ & H & _); done].
  - assert (Hrest : i ∈ pushIndices P (S k) rest ↔
      ∃ s, (k ≤ i)%nat ∧ (slot :: rest) !! (i - k)%nat = Some s ∧ P s = true ∧ i ≠ k).
    { rewrite IH. split.
      - intros (s & Hle & Hl & HP). exists s. split_and!; [lia | | done | lia].
        replace (i - k)%nat with (S (i - S k)) by lia. done.
      - intros (s & Hle & Hl & HP & Hne). exists s. split_and!; [lia | | done].
        replace (i - k)%nat with (S (i - S k)) in Hl by lia. done. }
    destruct (P slot) eqn:HP.
    + rewrite elem_of_cons, Hrest. split.
      * intros [-> | (s & ? & ? & ? & ?)]; [|by eauto].
        exists slot. rewrite Nat.sub_diag. done.
      * intros (s & Hle & Hl & HPs). destruct (decide (i = k)) as [->|]; [by left|].
        right. eauto 6.
    + rewrite Hrest. split.
      * intros (s & ? & ? & ? & ?). eauto.
      * intros (s & Hle & Hl & HPs). exists s. split_and!; try done.
        intros ->. rewrite Nat.sub_diag in Hl. simpl in Hl. congruence.
Qed.

Lemma pushIndices_sorted P k hand :
  StronglySorted lt (pushIndices P k hand) ∧ Forall (λ i, (k ≤ i)%nat) (pushIndices P k hand).
Proof.
  revert k. induction hand as [|slot rest IH]; intros k; simpl.
  - split; constructor.
  - destruct (IH (S k)) as [Hs Hf].
    assert (Forall (λ i, (k ≤ i)%nat) (pushIndices P (S k) rest))
      by (eapply Forall_impl; [exact Hf | simpl; lia]).
    destruct (P slot); [|done]. split.
    + constructor; [done|]. eapply Forall_impl; [exact Hf | simpl; lia].
    + constructor; [lia | done].
Qed.

Lemma pushIndices_nonNull hand i :
  i ∈ pushIndices nonNull 0 hand ↔ cardAt hand i.
Proof.
  rewrite pushIndices_elem, Nat.sub_0_r. split.
  - intros ([c|] & _ & Hl & HP); [by exists c | done].
  - intros (c & Hl). exists (Some c). split_and!; [lia | done | done].
Qed.

Lemma pushIndices_hasSuit s hand i :
  i ∈ pushIndices (hasSuit s) 0 hand ↔ suitAt s hand i.
Proof.
  rewrite pushIndices_elem, Nat.sub_0_r. split.
  - intros ([c|] & _ & Hl & HP); [|done]. exists c. split; [done|].
    by apply bool_decide_eq_true in HP.
  - intros (c & Hl & Hs). exists (Some c). split_and!; [lia | done |].
    by apply bool_decide_eq_true.
Qed.

End PlayableCards.

(** C1.  For every hand, trick and trump suit, [getPlayableCards] returns
    its indices in increasing order, each once, and: for an empty trick they
    are exactly the indices of the non-null cards; for a trick that has been
    led, if the hand holds a card of the lead suit they are exactly the
    indices of the lead-suit cards, and if it holds none they are exactly the
    indices of the non-null cards. *)
Theorem getPlayableCards_exact (hand : Hand) (trick : list TrickEntry)
    (trump : JsVal) :
  let out := getPlayableCards hand trick trump in
  StronglySorted lt out ∧
  (trick = [] → ∀ i, i ∈ out ↔ cardAt hand i) ∧
  (∀ e rest, trick = e :: rest →
     ((∃ i, suitAt (suit (card e)) hand i) →
        ∀ i, i ∈ out ↔ suitAt (suit (card e)) hand i) ∧
     ((¬ ∃ i, suitAt (suit (card e)) hand i) →
        ∀ i, i ∈ out ↔ cardAt hand i)).
Proof.
  intros out. subst out. split_and!.
  - unfold getPlayableCards. destruct trick as [|e rest].
    + apply pushIndices_sorted.
    + simpl. case_match; apply pushIndices_sorted.
  - intros -> i. apply pushIndices_nonNull.
  - intros e rest ->. unfold getPlayableCards.
    set (idx := pushIndices (hasSuit (suit (card e))) 0 hand).
    split.
    + intros [j Hj] i. apply pushIndices_hasSuit in Hj. fold idx in Hj.
      destruct idx as [|a l] eqn:Hidx; [inversion Hj|]. simpl.
      rewrite <- Hidx. apply pushIndices_hasSuit.
    + intros Hnone i.
      destruct idx as [|a l] eqn:Hidx; simpl.
      * apply pushIndices_nonNull.
      * exfalso. apply Hnone. exists a. apply pushIndices_hasSuit.
        fold idx. rewrite Hidx. left.
Qed.

Lemma getPlayableCards_exact_witness :
  3%nat ∈ getPlayableCards
            [Some (mkCard Hearts R7); None; Some (mkCard Spades RA); Some (mkCard Hearts RK)]
            [mkEntry 2 "c" (mkCard Hearts R9)] "Spades"
  ↔ suitAt Hearts
      [Some (mkCard Hearts R7); None; Some (mkCard Spades RA); Some (mkCard Hearts RK)] 3.
Proof.
  refine (proj1 (proj2 (proj2 (getPlayableCards_exact _ _ _)) _ _ eq_refl) _ 3%nat).
  exists 0%nat. exists (mkCard Hearts R7). split; reflexivity.
Defined.

(** ** Trick resolution *)

Lemma suitName_inj s1 s2 : suitName s1 = suitName s2 → s1 = s2.
Proof. by destruct s1, s2. Qed.

Section TrickWinner.
Variable trump : JsVal.

Lemma rankValues_bounds r : 1 ≤ rankValues r ≤ 8.
Proof. destruct r; simpl; lia. Qed.

Lemma rankValues_inj r1 r2 : rankValues r1 = rankValues r2 → r1 = r2.
Proof. destruct r1, r2; simpl; intros; try reflexivity; lia. Qed.

Lemma trump_outranks c1 c2 :
  isSuit c1 trump = true → isSuit c2 trump = false →
  getCardValue c2 trump < getCardValue c1 trump.
Proof.
  unfold getCardValue. intros -> ->.
  pose proof (rankValues_bounds (rank c1)). pose proof (rankValues_bounds (rank c2)). lia.
Qed.

Lemma higher_cases a b :
  (higher trump a b = a ∧ valueOf trump b ≤ valueOf trump a)
  ∨ (higher trump a b = b ∧ valueOf trump a < valueOf trump b).
Proof.
  unfold higher, valueOf.
  destruct (Z.ltb_spec (getCardValue (card a) trump) (getCardValue (card b) trump)); auto.
Qed.

Lemma foldl_higher_max l x :
  let w := foldl (higher trump) x l in
  w ∈ x :: l ∧ ∀ e, e ∈ x :: l → valueOf trump e ≤ valueOf trump w.
Proof.
  revert x. induction l as [|y l IH]; intros x; simpl.
  - split; [left|]. intros e He. apply list_elem_of_singleton in He as ->. lia.
  - destruct (IH (higher trump x y)) as [Hin Hmax]. split.
    + apply elem_of_cons in Hin as [Heq|Hin].
      * rewrite Heq. destruct (higher_cases x y) as [[-> _]|[-> _]];
          [left | right; left].
      * right; right; done.
    + intros e He.
      assert (Hxy : valueOf trump x ≤ valueOf trump (higher trump x y)
                    ∧ valueOf trump y ≤ valueOf trump (higher trump x y)).
      { destruct (higher_cases x y) as [[-> ?]|[-> ?]]; lia. }
      pose proof (Hmax (higher trump x y) ltac:(left)).
      apply elem_of_cons in He as [->|He]; [lia|].
      apply elem_of_cons in He as [->|He]; [lia|].
      apply Hmax. right; done.
Qed.

Lemma reduce1_higher_max l :
  l ≠ [] →
  ∃ w, reduce1 (higher trump) l = Some w ∧ w ∈ l
       ∧ ∀ e, e ∈ l → valueOf trump e ≤ valueOf trump w.
Proof.
  destruct l as [|x l]; [done|]. intros _. simpl. eexists. split; [done|].
  apply foldl_higher_max.
Qed.

End TrickWinner.

(** C2.  For every trick of four entries and every trump, [getTrickWinner]
    returns an entry of the trick.  If a trump card was played, the winner is
    a trump card, no card of the trick has a higher [getCardValue], and any
    trump entry of the same value holds the same card; otherwise the winner
    follows the lead suit and no lead-suit entry has a higher value.  A trump
    card always outranks a card that is not trump. *)
Theorem getTrickWinner_highest (trick : list TrickEntry) (trump : JsVal) :
  length trick = 4%nat →
  ∃ w, getTrickWinner trick trump = Some w ∧ w ∈ trick ∧
    ((∃ e, e ∈ trick ∧ isSuit (card e) trump = true) →
       isSuit (card w) trump = true
       ∧ (∀ e, e ∈ trick → valueOf trump e ≤ valueOf trump w)
       ∧ (∀ e, e ∈ trick → isSuit (card e) trump = true →
            valueOf trump e = valueOf trump w → card e = card w)) ∧
    ((¬ ∃ e, e ∈ trick ∧ isSuit (card e) trump = true) →
       leadSuitOf trick = Some (suit (card w))
       ∧ (∀ e, e ∈ trick → leadSuitOf trick = Some (suit (card e)) →
            valueOf trump e ≤ valueOf trump w)) ∧
    (∀ c1 c2, isSuit c1 trump = true → isSuit c2 trump = false →
       getCardValue c2 trump < getCardValue c1 trump).
Proof.
  intros Hlen. destruct trick as [|e0 rest]; [done|].
  unfold getTrickWinner.
  set (tc := filter (λ t, isSuit (card t) trump = true) (e0 :: rest)).
  set (lc := filter (λ t, suit (card t) = suit (card e0)) (e0 :: rest)).
  destruct tc as [|t tc'] eqn:Htc.
  - (* no trump card was played *)
    simpl. destruct (reduce1_higher_max trump lc) as (w & Hw & Hin & Hmax).
    { subst lc. rewrite filter_cons_True by done. done. }
    exists w. split; [done|].
    apply list_elem_of_filter in Hin as [Hsuit Hin]. split; [done|].
    split_and!.
    + intros (e & He & Ht). exfalso.
      assert (e ∈ tc) by (apply list_elem_of_filter; done).
      rewrite Htc in *. by eapply not_elem_of_nil.
    + intros _. simpl. split; [by rewrite Hsuit|].
      intros e He Hlead. apply Hmax. apply list_elem_of_filter. split; [congruence|done].
    + apply trump_outranks.
  - (* some trump card was played *)
    simpl. destruct (reduce1_higher_max trump (t :: tc')) as (w & Hw & Hin & Hmax); [done|].
    exists w. split; [done|].
    rewrite <- Htc in Hin. apply list_elem_of_filter in Hin as [Hwt Hin]. split; [done|].
    split_and!.
    + intros _. split_and!; [done | |].
      * intros e He. destruct (isSuit (card e) trump) eqn:Het.
        -- apply Hmax. rewrite <- Htc. apply list_elem_of_filter. done.
        -- unfold valueOf. pose proof (trump_outranks trump _ _ Hwt Het). lia.
      * intros e He Het Hv. unfold valueOf, getCardValue in Hv. rewrite Het, Hwt in Hv.
        assert (rank (card e) = rank (card w)) by (apply rankValues_inj; lia).
        apply bool_decide_eq_true in Het, Hwt.
        assert (suit (card e) = suit (card w)) by (apply suitName_inj; congruence).
        destruct (card e), (card w); simpl in *. congruence.
    + intros Hno. exfalso. apply Hno. exists w. done.
    + apply trump_outranks.
Qed.

Lemma getTrickWinner_highest_witness :
  ∃ w, getTrickWinner
         [mkEntry 0 "a" (mkCard Hearts RA); mkEntry 1 "b" (mkCard Spades R7);
          mkEntry 2 "c" (mkCard Hearts RK); mkEntry 3 "d" (mkCard Spades R9)]
         "Spades" = Some w ∧ playerIndex w = 3.
Proof.
  destruct (getTrickWinner_highest
         [mkEntry 0 "a" (mkCard Hearts RA); mkEntry 1 "b" (mkCard Spades R7);
          mkEntry 2 "c" (mkCard Hearts RK); mkEntry 3 "d" (mkCard Spades R9)]
         "Spades" eq_refl) as (w & Hw & _).
  exists w. split; [exact Hw|].
  vm_compute in Hw. injection Hw as <-. reflexivity.
Defined.

(** ** Scoring *)

Lemma getTeamForPosition_seat (i : Z) :
  0 ≤ i < 4 →
  (getTeamForPosition i = TeamA ↔ i = 0 ∨ i = 2)
  ∧ (getTeamForPosition i = TeamB ↔ i = 1 ∨ i = 3).
Proof.
  intros H. unfold getTeamForPosition. simpl.
  case_bool_decide as Hin.
  - rewrite !elem_of_cons in Hin. destruct Hin as [?|[?|Hin]]; [| |by apply not_elem_of_nil in Hin].
    all: split; split; intros; try done; lia.
  - rewrite !elem_of_cons in Hin. split; split; intros Hx; try done.
    + exfalso. apply Hin. tauto.
    + destruct (decide (i = 0)); [tauto|]. destruct (decide (i = 2)); [tauto|]. lia.
Qed.

Lemma defends_other (r : Room) t :
  0 ≤ trumpSelector r < 4 →
  (defends t r ↔ getTeamForPosition (trumpSelector r) = otherTeamOf t).
Proof.
  intros H. unfold defends. destruct (getTeamForPosition_seat _ H) as [HA HB].
  destruct t; simpl; rewrite ?HA, ?HB, !elem_of_cons, elem_of_nil; lia.
Qed.

Lemma tricksWon_sum4 (r : Room) :
  length (tricksWon r) = 4%nat →
  foldl Nat.add O (tricksWon r) = (teamTricks TeamA r + teamTricks TeamB r)%nat.
Proof.
  unfold teamTricks, tricksOf. destruct (tricksWon r) as [|a [|b [|c [|d [|]]]]]; try done.
  intros _. simpl. lia.
Qed.

Lemma checkRoundComplete_done (r : Room) :
  (8 ≤ foldl Nat.add O (tricksWon r))%nat →
  let a := teamTricks TeamA r in
  let b := teamTricks TeamB r in
  let r' := (checkRoundComplete r).1 in
  let st := (checkRoundComplete r).2 in
  roundComplete st = true ∧
  ((b < a)%nat →
     scores r' = mkScores (teamA (scores r) + awardTo TeamA r) (teamB (scores r))
     ∧ ∃ res, roundResult st = Some res ∧ winningTeam res = Some TeamA
              ∧ pointsAwarded res = awardTo TeamA r) ∧
  ((a < b)%nat →
     scores r' = mkScores (teamA (scores r)) (teamB (scores r) + awardTo TeamB r)
     ∧ ∃ res, roundResult st = Some res ∧ winningTeam res = Some TeamB
              ∧ pointsAwarded res = awardTo TeamB r) ∧
  (a = b →
     scores r' = scores r
     ∧ ∃ res, roundResult st = Some res ∧ winningTeam res = None
              ∧ pointsAwarded res = O).
Proof.
  intros Hsum a b r' st. subst r' st.
  unfold checkRoundComplete.
  destruct (Nat.leb_spec tricksExpected (foldl Nat.add O (tricksWon r)));
    [|unfold tricksExpected in *; lia].
  fold (teamTricks TeamA r) (teamTricks TeamB r). fold a b. cbv zeta.
  assert (HdA : bool_decide ((if bool_decide (getTeamForPosition (trumpSelector r) = TeamA)
                              then TeamB else TeamA) = TeamA)
                = bool_decide (getTeamForPosition (trumpSelector r) = otherTeamOf TeamA)).
  { simpl. destruct (getTeamForPosition (trumpSelector r)); reflexivity. }
  assert (HdB : bool_decide ((if bool_decide (getTeamForPosition (trumpSelector r) = TeamA)
                              then TeamB else TeamA) = TeamB)
                = bool_decide (getTeamForPosition (trumpSelector r) = otherTeamOf TeamB)).
  { simpl. destruct (getTeamForPosition (trumpSelector r)); reflexivity. }
  rewrite HdA, HdB. unfold tricksExpected.
  fold (awardTo TeamA r). 
  change (if bool_decide (getTeamForPosition (trumpSelector r) = otherTeamOf TeamB) && (b =? 8)%nat then 2%nat else 1%nat) with (awardTo TeamB r).
  destruct (Nat.ltb_spec b a); [|destruct (Nat.ltb_spec a b)].
  all: match goal with |- context [if ?c then _ else _] => destruct c end; simpl.
  all: split; [reflexivity|]; split_and!; intros; try lia.
  all: try (split; [reflexivity | eexists; split_and!; reflexivity]).
Qed.

(** C3.  For every room whose four trick counters sum to 8 and whose trump
    selector is a seat, [checkRoundComplete] completes the deal and: a
    defending team (the team without the selector's seat) that took all 8
    tricks gets exactly 2 points; a team with 5 to 8 tricks in any other case,
    a sweep by the trump team included, gets exactly 1 point; the other
    team's score does not move; after a 4-4 split no score moves. *)
Theorem checkRoundComplete_award (r : Room) :
  length (tricksWon r) = 4%nat →
  0 ≤ trumpSelector r < 4 →
  foldl Nat.add O (tricksWon r) = 8%nat →
  let r' := (checkRoundComplete r).1 in
  let st := (checkRoundComplete r).2 in
  roundComplete st = true ∧
  (∀ t, teamTricks t r = 8%nat → defends t r →
     scoreOf t (scores r') = (scoreOf t (scores r) + 2)%nat
     ∧ scoreOf (otherTeamOf t) (scores r') = scoreOf (otherTeamOf t) (scores r)
     ∧ ∃ res, roundResult st = Some res ∧ winningTeam res = Some t ∧ pointsAwarded res = 2%nat) ∧
  (∀ t, (5 ≤ teamTricks t r)%nat → ¬ (teamTricks t r = 8%nat ∧ defends t r) →
     scoreOf t (scores r') = (scoreOf t (scores r) + 1)%nat
     ∧ scoreOf (otherTeamOf t) (scores r') = scoreOf (otherTeamOf t) (scores r)
     ∧ ∃ res, roundResult st = Some res ∧ winningTeam res = Some t ∧ pointsAwarded res = 1%nat) ∧
  (teamTricks TeamA r = 4%nat → teamTricks TeamB r = 4%nat →
     scores r' = scores r
     ∧ ∃ res, roundResult st = Some res ∧ winningTeam res = None ∧ pointsAwarded res = O).
Proof.
  intros Hlen Hsel Hsum r' st.
  pose proof (tricksWon_sum4 r Hlen) as Hteams. rewrite Hsum in Hteams.
  destruct (checkRoundComplete_done r ltac:(lia)) as (Hrc & HA & HB & Htie).
  fold r' st in Hrc, HA, HB, Htie.
  assert (Haward : ∀ t, awardTo t r = if bool_decide (teamTricks t r = 8%nat ∧ defends t r) then 2%nat else 1%nat).
  { intros t. unfold awardTo. pose proof (defends_other r t Hsel) as Hd.
    case_bool_decide as H1; destruct (Nat.eqb_spec (teamTricks t r) 8); simpl;
      case_bool_decide as H2; try reflexivity; exfalso; tauto. }
  split; [exact Hrc|]. split_and!.
  - intros t H8 Hdef. 
    destruct t; simpl in *.
    + destruct HA as (Hs & res & ? & ? & Hp); [lia|]. rewrite Haward in Hs, Hp.
      rewrite bool_decide_eq_true_2 in Hs, Hp by done. rewrite Hs. simpl. eauto 8.
    + destruct HB as (Hs & res & ? & ? & Hp); [lia|]. rewrite Haward in Hs, Hp.
      rewrite bool_decide_eq_true_2 in Hs, Hp by done. rewrite Hs. simpl. eauto 8.
  - intros t H5 Hnot.
    destruct t; simpl in *.
    + destruct HA as (Hs & res & ? & ? & Hp); [lia|]. rewrite Haward in Hs, Hp.
      rewrite bool_decide_eq_false_2 in Hs, Hp by done. rewrite Hs. simpl. eauto 8.
    + destruct HB as (Hs & res & ? & ? & Hp); [lia|]. rewrite Haward in Hs, Hp.
      rewrite bool_decide_eq_false_2 in Hs, Hp by done. rewrite Hs. simpl. eauto 8.
  - intros H4a H4b. apply Htie. congruence.
Qed.

Lemma checkRoundComplete_award_witness :
  let r := setTricksWon [3; 0; 5; 0]%nat (setTrumpSelector 1 (initializeRoom "omi" 0)) in
  scoreOf TeamA (scores (checkRoundComplete r).1) = (scoreOf TeamA (scores r) + 2)%nat.
Proof.
  intros r.
  refine (proj1 (proj1 (proj2 (checkRoundComplete_award r eq_refl _ eq_refl)) TeamA eq_refl _)).
  - simpl. lia.
  - unfold defends. simpl. rewrite !not_elem_of_cons. split_and!; try done.
    apply not_elem_of_nil.
Defined.


(** ** Dealing *)

Section Shuffle.

Lemma insert_head_perm {A} (t : list A) j y h :
  t !! j = Some y → y :: <[j := h]> t ≡ₚ h :: t.
Proof.
  revert j. induction t as [|z t IH]; intros [|j] Hj; simplify_eq/=.
  - apply perm_swap.
  - rewrite perm_swap, (IH _ Hj). apply perm_swap.
Qed.

Lemma swap_perm {A} (a : list A) i j : swap a i j ≡ₚ a.
Proof.
  unfold swap. destruct (a !! i) as [x|] eqn:Hi; [|done].
  destruct (a !! j) as [y|] eqn:Hj; [|done].
  revert i j Hi Hj. induction a as [|h t IH]; intros [|i] [|j] Hi Hj; simplify_eq/=.
  - done.
  - by apply insert_head_perm.
  - by apply insert_head_perm.
  - by rewrite IH.
Qed.

Lemma shuffleLoop_perm i draws a : shuffleLoop i draws a ≡ₚ a.
Proof.
  revert draws a. induction i as [|i IH]; intros draws a; [done|].
  simpl. rewrite IH. apply swap_perm.
Qed.

Lemma shuffleDeck_perm draws deck : shuffleDeck draws deck ≡ₚ deck.
Proof. apply shuffleLoop_perm. Qed.

Lemma shuffleDeck_length draws : length (shuffleDeck draws createDeck) = 32%nat.
Proof. by rewrite shuffleDeck_perm. Qed.

Lemma createDeck_NoDup : NoDup createDeck.
Proof. apply (bool_decide_unpack _). vm_compute. reflexivity. Qed.

Lemma shuffleDeck_NoDup draws : NoDup (shuffleDeck draws createDeck).
Proof. rewrite shuffleDeck_perm. apply createDeck_NoDup. Qed.

End Shuffle.

(** C7.  For every fully seated room, selector seat [sel] and shuffle:
    after [dealCardsForTrumpSelection] the selector holds the first 4 cards
    of a shuffled 32-card deck (a permutation of [createDeck]), every other
    seat holds nothing and the deck keeps the other 28; after the following
    [dealRemainingCards] the selector holds its 4 cards and 4 more, every
    seat holds exactly 8 cards, the four hands together are the cards of that
    deck, and the deck is empty. *)
Theorem two_phase_deal (r : Room) (draws : list nat) :
  fullySeated r →
  0 ≤ currentPlayerIndex r < 4 →
  let d := shuffleDeck draws createDeck in
  let r1 := dealCardsForTrumpSelection draws r in
  let r2 := dealRemainingCards r1 in
  let sel := currentPlayerIndex r in
  (d ≡ₚ createDeck ∧ NoDup d ∧ length d = 32%nat) ∧
  handAt r1 sel = Some <$> take 4 d ∧
  (∀ i, 0 ≤ i < 4 → i ≠ sel → handAt r1 i = []) ∧
  deck r1 = drop 4 d ∧
  (∃ more, handAt r2 sel = (handAt r1 sel ++ (Some <$> more))%list ∧ length more = 4%nat) ∧
  (∀ i, 0 ≤ i < 4 → length (handAt r2 i) = 8%nat ∧ cardsIn (handAt r2 i) = 8%nat) ∧
  (handAt r2 0 ++ handAt r2 1 ++ handAt r2 2 ++ handAt r2 3)%list ≡ₚ Some <$> d ∧
  deck r2 = [].
Proof.
  intros [Hlen Hall] Hcur d r1 r2 sel.
  pose proof (shuffleDeck_length draws) as Hd. fold d in Hd.
  split; [split_and!; [apply shuffleDeck_perm | apply shuffleDeck_NoDup | done]|].
  subst r2 r1. unfold dealCardsForTrumpSelection. fold d. clearbody d.
  destruct r as [rid ps gs dk tr ts cur ct tw sc rd cri ltw ca la].
  simpl in *. destruct ps as [|[p0|] [|[p1|] [|[p2|] [|[p3|] [|]]]]]; try done.
  all: try (exfalso; repeat (apply Forall_cons in Hall as [? Hall]); done).
  clear Hall Hlen.
  assert (cur = 0 ∨ cur = 1 ∨ cur = 2 ∨ cur = 3) as Hc by lia.
  subst sel.
  destruct Hc as [-> | [-> | [-> | ->]]].
  all: unfold dealRemainingCards, handAt, seat, atZ; simpl.
  all: split_and!.
  all: try reflexivity.
  all: try (intros i Hi Hne; assert (i = 0 ∨ i = 1 ∨ i = 2 ∨ i = 3) as Hc by lia;
       destruct Hc as [-> | [-> | [-> | ->]]]; try done).
  all: try (eexists; split; [reflexivity|]).
  all: do 32 (destruct d as [|? d]; [done|]); destruct d; [|done]; simpl.
  all: try (intros i Hi; assert (i = 0 ∨ i = 1 ∨ i = 2 ∨ i = 3) as Hc by lia;
       destruct Hc as [-> | [-> | [-> | ->]]]; split; reflexivity).
  all: try reflexivity.
  all: solve_Permutation.
Qed.

Lemma two_phase_deal_witness :
  length (handAt (dealRemainingCards (dealCardsForTrumpSelection [] seatedRoom)) 2) = 8%nat.
Proof.
  refine (proj1 (proj1 (proj2 (proj2 (proj2 (proj2 (proj2
            (two_phase_deal seatedRoom [] _ _)))))) 2 _)).
  - split; [reflexivity | repeat constructor].
  - simpl. lia.
  - lia.
Defined.

(** The theorem is about the two functions in this order.  The handlers can
    also run [dealRemainingCards] without a deal before it: a trump choice
    that arrives after a deal has ended and before the deal timer finds the
    played-out hands and the empty deck of the last deal. *)
Example select_before_deal_timer :
  let evs := (tableJoins ++ firstDeal
              ++ [lastPlayOfFirstDeal; SelectTrump "s0" "omi" "Hearts" 3])%list in
  ((λ r, (gameState r, deck r, cardsIn (handAt r 0), handAt r 1, handAt r 2, handAt r 3))
     <$> rooms (run evs) !! VStr "omi")
  = Some (Playing, [], 0%nat, [], [], []).
Proof. vm_compute. reflexivity. Qed.



(** ** Reconnection *)

Section FindIndex.
Context {A : Type} (P : A → bool).

Lemma findIndexFrom_spec k (l : list A) :
  (findIndexFrom P k l = -1 ∧ Forall (λ x, P x = false) l)
  ∨ (∃ n x, findIndexFrom P k l = k + Z.of_nat n ∧ l !! n = Some x ∧ P x = true
            ∧ ∀ m y, (m < n)%nat → l !! m = Some y → P y = false).
Proof.
  revert k. induction l as [|a l IH]; intros k; simpl.
  - left. split; [done | constructor].
  - destruct (P a) eqn:Ha.
    + right. exists O, a. split_and!; [lia | done | done | intros; lia].
    + destruct (IH (k + 1)) as [[-> Hall] | (n & x & -> & Hl & Hx & Hmin)].
      * left. split; [done | by constructor].
      * right. exists (S n), x. split_and!; [lia | done | done |].
        intros [|m] y Hm Hy; simplify_eq/=; [done|]. eapply Hmin; [|done]. lia.
Qed.

Lemma findIndex_found (l : list A) :
  findIndex P l ≠ -1 →
  ∃ n x, findIndex P l = Z.of_nat n ∧ l !! n = Some x ∧ P x = true
         ∧ ∀ m y, (m < n)%nat → l !! m = Some y → P y = false.
Proof.
  unfold findIndex. intros Hne.
  destruct (findIndexFrom_spec 0 l) as [[? _] | (n & x & ? & ?)]; [done|].
  exists n, x. split; [lia | done].
Qed.

Lemma findIndex_none (l : list A) :
  findIndex P l = -1 → Forall (λ x, P x = false) l.
Proof.
  unfold findIndex. intros He.
  destruct (findIndexFrom_spec 0 l) as [[_ ?] | (n & x & ? & ?)]; [done|lia].
Qed.

Lemma findIndex_exists (l : list A) n x :
  l !! n = Some x → P x = true → findIndex P l ≠ -1.
Proof.
  intros Hl Hx He. apply findIndex_none in He.
  rewrite Forall_lookup in He. specialize (He _ _ Hl). simpl in He. congruence.
Qed.
End FindIndex.

Lemma seat_lookup r (n : nat) : seat r (Z.of_nat n) = mjoin (players r !! n).
Proof.
  unfold seat, atZ. destruct (Z.ltb_spec (Z.of_nat n) 0); [lia|]. by rewrite Nat2Z.id.
Qed.

Lemma players_updSeat r (n : nat) f :
  players (updSeat (Z.of_nat n) f r) = alter (fmap f) n (players r).
Proof.
  unfold updSeat. destruct (Z.ltb_spec (Z.of_nat n) 0); [lia|]. by rewrite Nat2Z.id.
Qed.

Lemma players_setSeat r (n : nat) v :
  players (setSeat (Z.of_nat n) v r) = <[n := v]> (players r).
Proof.
  unfold setSeat. destruct (Z.ltb_spec (Z.of_nat n) 0); [lia|]. by rewrite Nat2Z.id.
Qed.

(** C9.  For every room that holds a disconnected seat with the joining
    name, [addPlayerToRoom] with the reconnection flag succeeds at the first
    such seat: it sets that seat's [id], [connected] and [lastSeen] and the
    room's [lastActivity], and leaves the seat's hand, name, team and
    position, the other seats, and the room's phase, trump, trick, scores,
    trick counters, deck and turn as they were; other rooms are not touched.
    The snapshot that the [joinRoom] handler sends to the connection reports
    this state, with the legal plays when it is that seat's turn in the
    playing phase, and with the roster: for every seat its name, team, index
    and connection flag, the reconnected seat being connected.  (A resume of
    a paused game is a later step of the handler, after the snapshot.) *)
Theorem reconnect_frame (σ : Server) (roomId : JsVal) (sid pname : string)
    (preferred : JsVal) (now : Z) (draws : list nat) (room : Room) :
  rooms σ !! roomId = Some room →
  (∃ j q, disconnectedSeat pname room j q) →
  ∃ (i : nat) (p p' : Player) (room' : Room) (snap : Snapshot.t),
    let res := addPlayerToRoom σ roomId sid pname preferred true now in
    (disconnectedSeat pname room i p
     ∧ ∀ j q, (j < i)%nat → ¬ disconnectedSeat pname room j q)
    ∧ (res.2 = JoinOk room' (Z.of_nat i) true
       ∧ rooms res.1 !! roomId = Some room'
       ∧ (∀ other, other ≠ roomId → rooms res.1 !! other = rooms σ !! other)
       ∧ playerSockets res.1 = <[sid := roomId]> (playerSockets σ))
    ∧ (players room' !! i = Some (Some p')
       ∧ id p' = sid ∧ connected p' = true ∧ lastSeen p' = now
       ∧ hand p' = hand p ∧ name p' = name p ∧ team p' = team p
       ∧ position p' = position p
       ∧ length (players room') = length (players room)
       ∧ ∀ j, j ≠ i → players room' !! j = players room !! j)
    ∧ (gameState room' = gameState room ∧ trump room' = trump room
       ∧ currentTrick room' = currentTrick room ∧ scores room' = scores room
       ∧ tricksWon room' = tricksWon room ∧ deck room' = deck room
       ∧ currentPlayerIndex room' = currentPlayerIndex room
       ∧ trumpSelector room' = trumpSelector room
       ∧ lastActivity room' = now)
    ∧ (getFullGameStateForPlayer room' (Z.of_nat i) = Some snap
       ∧ (ToSocket sid, MGameInProgress snap)
           ∈ (onJoinRoom σ sid roomId pname preferred true now draws).2
       ∧ Snapshot.gameState snap = gameState room
       ∧ Snapshot.trump snap = trump room
       ∧ Snapshot.currentPlayerIndex snap = currentPlayerIndex room
       ∧ Snapshot.position snap = Z.of_nat i
       ∧ Snapshot.hand snap = hand p
       ∧ Snapshot.currentTrick snap = currentTrick room
       ∧ Snapshot.scores snap = scores room
       ∧ Snapshot.tricksWon snap = tricksWon room
       ∧ Snapshot.playerNames snap = (λ s : option Player, name <$> s) <$> players room
       ∧ Snapshot.isYourTurn snap
           = bool_decide (currentPlayerIndex room = Z.of_nat i ∧ gameState room = Playing)
       ∧ Snapshot.playableCards snap
           = (if bool_decide (currentPlayerIndex room = Z.of_nat i ∧ gameState room = Playing)
              then getPlayableCards (hand p) (currentTrick room) (trump room)
              else [])
       ∧ Snapshot.players snap !! i
           = Some (Some (PublicInfo.mk (name p) (team p) (Z.of_nat i) true))
       ∧ ∀ j, j ≠ i →
           Snapshot.players snap !! j
           = (λ s : option Player,
                (λ q, PublicInfo.mk (name q) (team q) (Z.of_nat j) (connected q)) <$> s)
             <$> players room !! j).
Proof.
  intros Hroom (j & q & Hj & Hqn & Hqc).
  assert (Hfound : findIndex (namedDisconnected pname) (players room) ≠ -1).
  { eapply findIndex_exists; [exact Hj|]. simpl.
    rewrite Hqc, bool_decide_eq_true_2 by done. done. }
  destruct (findIndex_found _ _ Hfound) as (i & slot & Hi & Hslot & HP & Hmin).
  destruct slot as [p|]; [|done]. simpl in HP.
  apply andb_true_iff in HP as [Hpn Hpc]. apply bool_decide_eq_true in Hpn.
  apply negb_true_iff in Hpc.
  set (p' := setLastSeen now (setConnected true (setId sid p))).
  set (room' := updSeat (Z.of_nat i) (λ p, setLastSeen now (setConnected true (setId sid p)))
                  (setLastActivity now room)).
  assert (Hres : addPlayerToRoom σ roomId sid pname preferred true now
                 = (trackSocket sid roomId (storeRoom roomId room' σ),
                    JoinOk room' (Z.of_nat i) true)).
  { unfold addPlayerToRoom. rewrite Hroom. simpl.
    rewrite ?bool_decide_eq_false_2 by done. simpl.
    rewrite Hi. destruct (Z.eqb_spec (Z.of_nat i) (-1)); [lia|]. simpl. done. }
  assert (Hplayers : players room' = <[i := Some p']> (players room)).
  { unfold room'. rewrite players_updSeat. simpl.
    apply list_eq. intros k. destruct (decide (k = i)) as [->|].
    - rewrite list_lookup_alter_eq, Hslot. simpl.
      rewrite list_lookup_insert_eq; [done|]. by eapply lookup_lt_Some.
    - by rewrite list_lookup_alter_ne, list_lookup_insert_ne. }
  assert (Hseat' : players room' !! i = Some (Some p')).
  { rewrite Hplayers. apply list_lookup_insert_eq. by eapply lookup_lt_Some. }
  assert (Hfields : gameState room' = gameState room ∧ trump room' = trump room
       ∧ currentTrick room' = currentTrick room ∧ scores room' = scores room
       ∧ tricksWon room' = tricksWon room ∧ deck room' = deck room
       ∧ currentPlayerIndex room' = currentPlayerIndex room
       ∧ trumpSelector room' = trumpSelector room
       ∧ lastActivity room' = now).
  { unfold room', updSeat. destruct (Z.of_nat i <? 0); simpl; done. }
  destruct Hfields as (Hgs & Htr & Hct & Hsc & Htw & Hdk & Hcur & Hts & Hla).
  assert (Hsnap : ∃ snap, getFullGameStateForPlayer room' (Z.of_nat i) = Some snap).
  { unfold getFullGameStateForPlayer. rewrite seat_lookup, Hseat'. simpl. eauto. }
  destruct Hsnap as [snap Hsnap].
  exists i, p, p', room', snap. cbv zeta. rewrite Hres. simpl.
  split_and!; try done.
  - intros k q' Hk (Hq1 & Hq2 & Hq3). specialize (Hmin _ _ Hk Hq1). simpl in Hmin.
    rewrite Hq3, bool_decide_eq_true_2 in Hmin by done. done.
  - apply lookup_insert_eq.
  - intros other Hne. by apply lookup_insert_ne.
  - rewrite Hplayers. apply length_insert.
  - intros k Hk. rewrite Hplayers. by apply list_lookup_insert_ne.
  - unfold onJoinRoom. rewrite Hres. simpl. rewrite Hsnap.
    repeat case_match; simpl; set_solver.
  - unfold getFullGameStateForPlayer in Hsnap. rewrite seat_lookup, Hseat' in Hsnap.
    simpl in Hsnap. by injection Hsnap as <-.
  - unfold getFullGameStateForPlayer in Hsnap. rewrite seat_lookup, Hseat' in Hsnap.
    simpl in Hsnap. by injection Hsnap as <-.
  - unfold getFullGameStateForPlayer in Hsnap. rewrite seat_lookup, Hseat' in Hsnap.
    simpl in Hsnap. by injection Hsnap as <-.
  - unfold getFullGameStateForPlayer in Hsnap. rewrite seat_lookup, Hseat' in Hsnap.
    simpl in Hsnap. by injection Hsnap as <-.
  - unfold getFullGameStateForPlayer in Hsnap. rewrite seat_lookup, Hseat' in Hsnap.
    simpl in Hsnap. by injection Hsnap as <-.
  - unfold getFullGameStateForPlayer in Hsnap. rewrite seat_lookup, Hseat' in Hsnap.
    simpl in Hsnap. by injection Hsnap as <-.
  - unfold getFullGameStateForPlayer in Hsnap. rewrite seat_lookup, Hseat' in Hsnap.
    simpl in Hsnap. by injection Hsnap as <-.
  - unfold getFullGameStateForPlayer in Hsnap. rewrite seat_lookup, Hseat' in Hsnap.
    simpl in Hsnap. by injection Hsnap as <-.
  - unfold getFullGameStateForPlayer in Hsnap. rewrite seat_lookup, Hseat' in Hsnap.
    simpl in Hsnap. injection Hsnap as <-. simpl. rewrite Hplayers.
    rewrite list_fmap_insert. simpl.
    apply list_insert_id. rewrite list_lookup_fmap, Hslot. done.
  - unfold getFullGameStateForPlayer in Hsnap. rewrite seat_lookup, Hseat' in Hsnap.
    simpl in Hsnap. injection Hsnap as <-. simpl. rewrite Hcur, Hgs.
    repeat case_bool_decide; simpl; try done; tauto.
  - unfold getFullGameStateForPlayer in Hsnap. rewrite seat_lookup, Hseat' in Hsnap.
    simpl in Hsnap. injection Hsnap as <-. simpl. rewrite Hcur, Hgs, Hct, Htr.
    repeat case_bool_decide; simpl; try done; tauto.
  - unfold getFullGameStateForPlayer in Hsnap. rewrite seat_lookup, Hseat' in Hsnap.
    simpl in Hsnap. injection Hsnap as <-. simpl. unfold playerList.
    by rewrite list_lookup_imap, Hseat'.
  - intros k Hk.
    unfold getFullGameStateForPlayer in Hsnap. rewrite seat_lookup, Hseat' in Hsnap.
    simpl in Hsnap. injection Hsnap as <-. simpl. unfold playerList.
    rewrite list_lookup_imap, Hplayers, list_lookup_insert_ne by done.
    by destruct (players room !! k) as [[?|]|].
Qed.

Lemma reconnect_frame_witness :
  ∃ (i : nat) (room' : Room),
    (addPlayerToRoom (run (tableJoins ++ [Disconnect "s2" 3])) "omi" "s9" "c" "A" true 9).2
    = JoinOk room' (Z.of_nat i) true
    ∧ gameState room' = Paused.
Proof.
  assert (Hr : ∃ r, rooms (run (tableJoins ++ [Disconnect "s2" 3])) !! VStr "omi" = Some r
                    ∧ gameState r = Paused
                    ∧ ∃ j q, disconnectedSeat "c" r j q).
  { eexists. split; [vm_compute; reflexivity|]. split; [reflexivity|].
    exists 2%nat. eexists. split_and!; reflexivity. }
  destruct Hr as (r & Hr & Hg & Hseat).
  destruct (reconnect_frame (run (tableJoins ++ [Disconnect "s2" 3])) "omi" "s9" "c"
              "A" 9 [] r Hr Hseat)
    as (i & p & p' & room' & snap & _ & (Hres & _) & _ & (Hphase & _) & _).
  exists i, room'. split; [exact Hres | congruence].
Defined.


(** ** Seating *)

Lemma findPositionForTeam_other (r : Room) (preferred : JsVal) :
  preferred ≠ VStr "A" → preferred ≠ VStr "B" →
  findPositionForTeam r preferred = None.
Proof.
  intros. unfold findPositionForTeam, teamKey. by rewrite !bool_decide_eq_false_2.
Qed.

Lemma findPositionForTeam_spec (r : Room) (t : Team) :
  (findPositionForTeam r (teamName t) = Some (-1)
   ∧ ∀ pos, pos ∈ [0; 1; 2; 3] → seatAvailable r pos = false)
  ∨ (∃ pos, findPositionForTeam r (teamName t) = Some pos
            ∧ firstAvailable r (seatOrder t) pos ∧ 0 ≤ pos < 4).
Proof.
  unfold findPositionForTeam, firstAvailable, seatOrder.
  destruct t; simpl.
  all: destruct (seatAvailable r 0) eqn:H0; destruct (seatAvailable r 1) eqn:H1;
       destruct (seatAvailable r 2) eqn:H2; destruct (seatAvailable r 3) eqn:H3.
  all: repeat (rewrite ?filter_cons_True, ?filter_cons_False, ?filter_nil by (rewrite ?H0, ?H1, ?H2, ?H3; done)).
  all: simpl.
  all: try (left; split; [reflexivity|];
            intros pos Hpos; rewrite !elem_of_cons, elem_of_nil in Hpos;
            destruct Hpos as [->|[->|[->|[->|[]]]]]; done).
  all: right; eexists; split; [reflexivity|]; split; [|lia].
  all: first
    [ by (exists 0%nat; split_and!; [done|done|]; intros k' q ?; lia)
    | by (exists 1%nat; split_and!; [done|done|]; intros [|k'] q ? ?; simplify_eq/=; [done|lia])
    | by (exists 2%nat; split_and!; [done|done|]; intros [|[|k']] q ? ?; simplify_eq/=; [done|done|lia])
    | by (exists 3%nat; split_and!; [done|done|]; intros [|[|[|k']]] q ? ?; simplify_eq/=; [done|done|done|lia]) ].
Qed.

Lemma existsb_name_connected (pname : string) (r : Room) :
  existsb (λ s : option Player, match s with
                   | Some p => bool_decide (name p = pname)
                   | None => false
                   end)
    (filter (λ s, isConnected s = true) (players r)) = true
  ↔ nameConnected pname r.
Proof.
  rewrite existsb_exists. unfold nameConnected. split.
  - intros ([p|] & Hin & Hn); [|done]. apply bool_decide_eq_true in Hn.
    apply list_elem_of_In, list_elem_of_filter in Hin as [Hc Hin].
    apply list_elem_of_lookup in Hin as [i Hi]. eauto.
  - intros (i & p & Hi & Hc & Hn). exists (Some p). split.
    + apply list_elem_of_In, list_elem_of_filter. split; [done|].
      apply list_elem_of_lookup. eauto.
    + by apply bool_decide_eq_true.
Qed.

(** C10, as amended.  For every join without the reconnection flag to an
    existing room of four seats.  When the team of the payload is neither
    ['A'] nor ['B'] (another string, a number, a boolean, [null] or an
    absent field), [findPositionForTeam] throws: the call ends without a
    result, before the seats and the name are looked at, and no seat
    changes.  When the team is ['A'] or ['B']: if no seat is available the
    result is the error ['Room is full'] and no seat changes; otherwise, if a
    connected seat holds the name, the result is ['Name already taken'] and
    no seat changes (a disconnected seat with the name does not count);
    otherwise the join succeeds at the first available seat in the order
    "the two seats of the preferred team, then the two of the other team",
    which gets the new connected player with an empty hand, and no other
    seat changes. *)
Theorem join_seating (σ : Server) (roomId : JsVal) (sid pname : string)
    (preferred : JsVal) (now : Z) (room : Room) :
  rooms σ !! roomId = Some room →
  length (players room) = 4%nat →
  let res := addPlayerToRoom σ roomId sid pname preferred false now in
  let full := ∀ pos, pos ∈ [0; 1; 2; 3] → seatAvailable room pos = false in
  (∃ room', rooms res.1 !! roomId = Some room' ∧
     ((preferred ≠ VStr "A" → preferred ≠ VStr "B" →
         res.2 = JoinThrows ∧ players room' = players room)
      ∧ ∀ t, preferred = VStr (teamName t) →
          (full → res.2 = JoinFail "Room is full" ∧ players room' = players room)
          ∧ (¬ full → nameConnected pname room →
               res.2 = JoinFail "Name already taken" ∧ players room' = players room)
          ∧ (¬ full → ¬ nameConnected pname room →
               ∃ pos : nat,
                 res.2 = JoinOk room' (Z.of_nat pos) false
                 ∧ firstAvailable room (seatOrder t) (Z.of_nat pos)
                 ∧ players room' !! pos =
                     Some (Some {| id := sid; name := pname;
                                   team := getTeamForPosition (Z.of_nat pos);
                                   hand := []; connected := true;
                                   position := Z.of_nat pos; lastSeen := now |})
                 ∧ (∀ j, j ≠ pos → players room' !! j = players room !! j)
                 ∧ playerSockets res.1 !! sid = Some roomId)))
  ∧ (∀ other, other ≠ roomId → rooms res.1 !! other = rooms σ !! other).
Proof.
  intros Hroom Hlen res full. subst res.
  unfold addPlayerToRoom. rewrite Hroom. simpl.
  set (room0 := setLastActivity now room).
  change (players room) with (players room0) at 1.
  assert (Hcases : (preferred ≠ VStr "A" ∧ preferred ≠ VStr "B")
                   ∨ ∃ t, preferred = VStr (teamName t)).
  { destruct (decide (preferred = VStr "A")) as [->|]; [right; by exists TeamA|].
    destruct (decide (preferred = VStr "B")) as [->|]; [right; by exists TeamB|].
    by left. }
  destruct Hcases as [[HnA HnB] | [t ->]].
  { rewrite (findPositionForTeam_other room0 preferred HnA HnB). simpl.
    split; [|intros; by apply lookup_insert_ne].
    exists room0. split; [apply lookup_insert_eq|]. split; [done|].
    intros t ->. by destruct t. }
  assert (Ht : ∀ t', VStr (teamName t) = VStr (teamName t') → t' = t).
  { intros t' [= Heq]. by destruct t, t'. }
  destruct (findPositionForTeam_spec room0 t)
    as [[Hpos Hfull] | (pos & Hpos & Hfirst & Hrange)]; rewrite Hpos.
  - simpl. split; [|intros; by apply lookup_insert_ne].
    exists room0. split; [apply lookup_insert_eq|].
    split; [intros HnA HnB; by destruct t|]. intros t' ->%Ht.
    split_and!; [done | intros Hn; by destruct Hn | intros Hn; by destruct Hn].
  - assert (Hnf : ¬ full).
    { intros Hf. destruct Hfirst as (k & Hk & Hav & _).
      assert (pos ∈ [0; 1; 2; 3]) as Hin.
      { rewrite !elem_of_cons. lia. }
      apply Hf in Hin. change (seatAvailable room0) with (seatAvailable room) in Hav.
      congruence. }
    destruct (Z.eqb_spec pos (-1)); [lia|].
    destruct (existsb _ _) eqn:Hex.
    + apply existsb_name_connected in Hex. simpl.
      split; [|intros; by apply lookup_insert_ne].
      exists room0. split; [apply lookup_insert_eq|].
      split; [intros HnA HnB; by destruct t|]. intros t' ->%Ht.
      split_and!; [done | done | intros _ Hn; by destruct Hn].
    + assert (¬ nameConnected pname room0) as Hnn.
      { intros Hn. apply existsb_name_connected in Hn. congruence. }
      simpl. split; [|intros; by apply lookup_insert_ne].
      eexists. split; [apply lookup_insert_eq|].
      split; [intros HnA HnB; by destruct t|]. intros t' ->%Ht.
      split_and!; [done | done |]. intros _ _.
      assert (∃ m, pos = Z.of_nat m) as [m ->] by (exists (Z.to_nat pos); lia).
      exists m. simpl. rewrite players_setSeat. split_and!.
      * reflexivity.
      * exact Hfirst.
      * apply list_lookup_insert_eq. simpl. lia.
      * intros j Hj. by apply list_lookup_insert_ne.
      * apply lookup_insert_eq.
Qed.

Lemma join_seating_witness :
  ∃ (room' : Room) (pos : nat),
    (addPlayerToRoom (run [JoinRoom "s0" "omi" "a" "A" false 0 []])
       "omi" "s1" "b" "A" false 1).2 = JoinOk room' (Z.of_nat pos) false
    ∧ players room' !! pos
      = Some (Some {| id := "s1"; name := "b"; team := getTeamForPosition (Z.of_nat pos);
                      hand := []; connected := true; position := Z.of_nat pos;
                      lastSeen := 1 |}).
Proof.
  assert (Hr : ∃ r, rooms (run [JoinRoom "s0" "omi" "a" "A" false 0 []]) !! VStr "omi" = Some r
                    ∧ length (players r) = 4%nat
                    ∧ seatAvailable r 2 = true
                    ∧ ¬ nameConnected "b" r).
  { eexists. split; [vm_compute; reflexivity|]. split; [reflexivity|].
    split; [reflexivity|].
    intros (i & p & Hi & _ & Hn).
    destruct i as [|[|[|[|i]]]]; simpl in Hi; try discriminate Hi.
    injection Hi as <-. discriminate Hn. }
  destruct Hr as (r & Hr & Hlen & Hav & Hname).
  destruct (join_seating (run [JoinRoom "s0" "omi" "a" "A" false 0 []])
              "omi" "s1" "b" "A" 1 r Hr Hlen) as [(room' & _ & _ & Hjoin) _].
  destruct (Hjoin TeamA eq_refl) as (_ & _ & Hseated).
  destruct Hseated as (pos & Hres & _ & Hseat & _).
  - intros Hfull. rewrite Hfull in Hav; [discriminate Hav|].
    rewrite !elem_of_cons. auto.
  - exact Hname.
  - exists room', pos. split; [exact Hres | exact Hseat].
Defined.

(** C10, as stated, fails: a join whose team is the string ['C'], or whose
    payload has no team, ends in the [TypeError] of [findPositionForTeam],
    in a room with a free seat and in a full room alike: it is neither
    rejected nor seated. *)
Lemma join_with_unknown_team_throws :
  (∃ room, rooms (run (take 1 tableJoins)) !! VStr "omi" = Some room
           ∧ length (players room) = 4%nat
           ∧ seatAvailable room 1 = true
           ∧ ¬ nameConnected "b" room
           ∧ (addPlayerToRoom (run (take 1 tableJoins)) "omi" "s1" "b" "C" false 1).2
             = JoinThrows)
  ∧ (addPlayerToRoom (run tableJoins) "omi" "s4" "e" VUndefined false 5).2 = JoinThrows
  ∧ ¬ joinRejectedOrSeated.
Proof.
  assert (H : ∃ room, rooms (run (take 1 tableJoins)) !! VStr "omi" = Some room
           ∧ length (players room) = 4%nat
           ∧ seatAvailable room 1 = true
           ∧ ¬ nameConnected "b" room
           ∧ (addPlayerToRoom (run (take 1 tableJoins)) "omi" "s1" "b" "C" false 1).2
             = JoinThrows).
  { eexists. split; [vm_compute; reflexivity|]. split; [reflexivity|].
    split; [reflexivity|]. split; [|vm_compute; reflexivity].
    intros (i & p & Hi & _ & Hn).
    destruct i as [|[|[|[|i]]]]; simpl in Hi; try discriminate Hi.
    injection Hi as <-. discriminate Hn. }
  split; [exact H|]. split; [vm_compute; reflexivity|].
  intros Hclaim. destruct H as (room & Hr & Hlen & Hav & Hname & Hres).
  destruct (Hclaim (run (take 1 tableJoins)) (VStr "omi") "s1" "b" (VStr "C") 1 room Hr Hlen)
    as (_ & _ & Hseated).
  destruct Hseated as (room' & pos & Hok).
  - intros Hfull. rewrite Hfull in Hav; [discriminate Hav|].
    rewrite !elem_of_cons. auto.
  - exact Hname.
  - rewrite Hres in Hok. discriminate Hok.
Qed.


(** ** The invariants of a run *)

Section RoomSteps.

(** [strict]: the run has no [selectTrump] whose payload carried [null]. *)
Variable strict : bool.

Local Opaque shuffleDeck createDeck.

Lemma sameCore_refl r : sameCore r r.
Proof. by repeat split. Qed.

Lemma sameCore_trans r1 r2 r3 : sameCore r1 r2 → sameCore r2 r3 → sameCore r1 r3.
Proof.
  intros (? & ? & ? & ? & ?) (? & ? & ? & ? & ?).
  repeat split; try congruence; auto.
Qed.

Lemma sameCore_inv r r' : sameCore r r' → RoomInv strict r → RoomInv strict r'.
Proof.
  intros (Hg & Ht & Hs & Hl & Hc) (I1 & I2 & I3 & I4 & I5).
  unfold RoomInv. rewrite Hg, Ht, Hs, Hl. split_and!; auto.
Qed.

Lemma sameCore_okTrans r r' : sameCore r r' → okTrans strict r r'.
Proof.
  intros Hs Hinv. split; [by eapply sameCore_inv|].
  destruct Hs as (Hg & Ht & _). rewrite Hg. auto.
Qed.

Lemma okTrans_refl r : okTrans strict r r.
Proof. apply sameCore_okTrans, sameCore_refl. Qed.

(** A change of phase after, or before, a frame-preserving change. *)
Lemma okTrans_after r r1 r' : sameCore r r1 → okTrans strict r1 r' → okTrans strict r r'.
Proof.
  intros Hs Ht Hinv. pose proof (sameCore_inv _ _ Hs Hinv) as Hinv1.
  destruct (Ht Hinv1) as [Hinv' Hpaused]. split; [done|].
  intros Hg. destruct (Hpaused Hg) as [Htr Hph].
  destruct Hs as (Hg1 & Ht1 & _). rewrite <- Hg1, <- Ht1. done.
Qed.

Lemma okTrans_before r r1 r' : okTrans strict r r1 → sameCore r1 r' → okTrans strict r r'.
Proof.
  intros Ht Hs Hinv. destruct (Ht Hinv) as [Hinv1 Hpaused].
  split; [by eapply sameCore_inv|].
  destruct Hs as (Hg1 & Ht1 & _). rewrite Hg1, Ht1. done.
Qed.

Lemma sameCore_setLastActivity now r : sameCore r (setLastActivity now r).
Proof. by repeat split. Qed.

Lemma isConnected_imap_hand (f : nat → Player → Hand) ps :
  Forall (λ s, isConnected s = true) ps →
  Forall (λ s, isConnected s = true)
    (imap (λ index slot, match slot with
                         | Some player => Some (setHand (f index player) player)
                         | None => None
                         end) ps).
Proof.
  rewrite !Forall_lookup. intros H i x. rewrite list_lookup_imap.
  destruct (ps !! i) as [[p|]|] eqn:Hi; simpl; intros ?; simplify_eq; simpl.
  - apply (H _ _ Hi).
  - apply (H _ _ Hi).
Qed.

Lemma sameCore_dealCards draws r : sameCore r (dealCardsForTrumpSelection draws r).
Proof.
  unfold dealCardsForTrumpSelection. destruct (seat r (currentPlayerIndex r)); [|by repeat split].
  repeat split; simpl.
  - by rewrite length_imap.
  - intros H.
    pose proof (isConnected_imap_hand
      (λ index _, if Z.of_nat index =? currentPlayerIndex r
                  then Some <$> take 4 (shuffleDeck draws createDeck) else []) _ H) as H'.
    eapply Forall_impl; [|intros ? Hx; exact Hx].
    erewrite imap_ext; [exact H'|]. intros i [q|] _; simpl; [|done]. by case_match.
Qed.

Lemma dealLoop_shape cur index ps deck :
  length (dealLoop cur index ps deck).1 = length ps
  ∧ (Forall (λ s, isConnected s = true) ps →
     Forall (λ s, isConnected s = true) (dealLoop cur index ps deck).1).
Proof.
  revert index deck. induction ps as [|[p|] ps IH]; intros index deck; simpl.
  - done.
  - destruct (index =? cur).
    + destruct (dealLoop cur (index + 1) ps (drop 4 deck)) as [ps' d'] eqn:E.
      specialize (IH (index + 1) (drop 4 deck)). rewrite E in IH. simpl in *.
      destruct IH as [-> IH]. split; [done|].
      intros H. apply Forall_cons in H as [? ?]. constructor; auto.
    + destruct (dealLoop cur (index + 1) ps (drop 8 deck)) as [ps' d'] eqn:E.
      specialize (IH (index + 1) (drop 8 deck)). rewrite E in IH. simpl in *.
      destruct IH as [-> IH]. split; [done|].
      intros H. apply Forall_cons in H as [? ?]. constructor; auto.
  - destruct (dealLoop cur (index + 1) ps deck) as [ps' d'] eqn:E.
    specialize (IH (index + 1) deck). rewrite E in IH. simpl in *.
    destruct IH as [-> IH]. split; [done|].
    intros H. apply Forall_cons in H as [? ?]. done.
Qed.

Lemma sameCore_dealRemaining r : sameCore r (dealRemainingCards r).
Proof.
  unfold dealRemainingCards.
  pose proof (dealLoop_shape (currentPlayerIndex r) 0 (players r) (deck r)) as [Hl Hc].
  destruct (dealLoop _ _ _ _) as [ps' d']. simpl in *. by repeat split.
Qed.

Lemma sameCore_updSeat i f r :
  (∀ p, connected p = true → connected (f p) = true) →
  sameCore r (updSeat i f r).
Proof.
  intros Hf. unfold updSeat. destruct (i <? 0); [apply sameCore_refl|].
  repeat split; simpl.
  - by rewrite length_alter.
  - rewrite !Forall_lookup. intros H k x Hk.
    destruct (decide (k = Z.to_nat i)) as [->|].
    + rewrite list_lookup_alter_eq in Hk.
      destruct (players r !! Z.to_nat i) as [[p|]|] eqn:E; simplify_eq/=.
      * apply Hf. apply (H _ _ E).
      * apply (H _ _ E).
    + rewrite list_lookup_alter_ne in Hk by done. eauto.
Qed.

Lemma sameCore_setSeat i p r :
  connected p = true → sameCore r (setSeat i (Some p) r).
Proof.
  intros Hp. unfold setSeat. destruct (i <? 0); [apply sameCore_refl|].
  repeat split; simpl.
  - by rewrite length_insert.
  - intros H. apply Forall_insert; done.
Qed.

Lemma RoomInv_initializeRoom rid now : RoomInv strict (initializeRoom rid now).
Proof.
  unfold RoomInv, targetScore. simpl. split_and!; try done.
  - intros [?|?]; done.
  - intros [?|?]; done.
  - intros _. lia.
Qed.

(** All seats are connected when four of the four are. *)
Lemma connectedCount_all r :
  length (players r) = 4%nat → (4 ≤ connectedCount r)%nat →
  Forall (λ s, isConnected s = true) (players r).
Proof.
  unfold connectedCount. intros Hl Hc.
  destruct (players r) as [|a [|b [|c [|d [|]]]]]; try done.
  revert Hc. rewrite !filter_cons.
  destruct (decide (isConnected a = true)), (decide (isConnected b = true)),
    (decide (isConnected c = true)), (decide (isConnected d = true));
    simpl; intros; try lia.
  repeat constructor; done.
Qed.

Lemma okTrans_checkRoundComplete r :
  gameState r = Playing → okTrans strict r (checkRoundComplete r).1.
Proof.
  intros Hg Hinv. pose proof Hinv as (I1 & I2 & I3 & I4 & I5).
  assert (Hs : (teamA (scores r) < 10 ∧ teamB (scores r) < 10)%nat).
  { apply I5. congruence. }
  assert (Htr : strict = true → trump r ≠ VNull) by auto.
  assert (Hall : Forall (λ s, isConnected s = true) (players r)) by auto.
  unfold checkRoundComplete.
  destruct (tricksExpected <=? _)%nat; [|simpl; split; [done | auto]].
  cbv zeta.
  destruct (_ <? _)%nat; [|destruct (_ <? _)%nat].
  all: match goal with
       | |- context [(if ?c then 2%nat else 1%nat)] => destruct c
       | _ => idtac
       end.
  all: match goal with
       | |- context [(targetScore <=? ?a)%nat || (targetScore <=? ?b)%nat] =>
           destruct (Nat.leb_spec targetScore a); destruct (Nat.leb_spec targetScore b)
       end; simpl in *.
  all: unfold RoomInv, targetScore in *; simpl.
  all: split; [split_and!; try done; try (intros [?|?]; done); try (intros _; lia)
              | intros ?; done].
  all: intros _; exact Htr.
Qed.


(** After a seat of a fully connected room is marked disconnected, at
    least one seat is still connected. *)
Lemma connectedCount_after_disconnect r i now :
  length (players r) = 4%nat →
  Forall (λ s, isConnected s = true) (players r) →
  (1 ≤ connectedCount
         (setLastActivity now
            (updSeat i (λ p, setLastSeen now (setConnected false p)) r)))%nat.
Proof.
  intros Hl Hall. unfold connectedCount, updSeat.
  destruct (i <? 0); simpl.
  - destruct (players r) as [|a l]; [done|].
    apply Forall_cons in Hall as [Ha _]. rewrite filter_cons_True by done. simpl. lia.
  - destruct (players r) as [|[a|] [|[b|] [|[c|] [|[d|] [|]]]]]; try done.
    all: try (exfalso; repeat (apply Forall_cons in Hall as [? Hall]); done).
    repeat (apply Forall_cons in Hall as [? Hall]). simpl in *.
    destruct (Z.to_nat i) as [|[|[|[|n]]]]; simpl.
    all: rewrite !filter_cons; simpl.
    all: repeat (destruct (decide _) as [?|?]; simpl); try congruence; try lia.
Qed.

Lemma roomTrans_same σ rid r : rooms σ !! rid = Some r → roomTrans strict σ rid r.
Proof. intros H. exists r. split; [by left | apply okTrans_refl]. Qed.

Lemma roomTrans_store σ roomId r0 r' rid r'' :
  rooms σ !! roomId = Some r0 → okTrans strict r0 r' →
  rooms (storeRoom roomId r' σ) !! rid = Some r'' → roomTrans strict σ rid r''.
Proof.
  intros H0 Ht. simpl. rewrite lookup_insert. case_decide as Hd.
  - subst. intros [= <-]. exists r0. split; [by left | done].
  - apply roomTrans_same.
Qed.

Lemma cleanupRoom_rooms σ roomId rid r' :
  rooms (cleanupRoom σ roomId).1 !! rid = Some r' → roomTrans strict σ rid r'.
Proof.
  unfold cleanupRoom. destruct (rooms σ !! roomId) eqn:E; simpl.
  - rewrite lookup_delete. case_decide; [done|]. apply roomTrans_same.
  - apply roomTrans_same.
Qed.

Lemma dealTimer_rooms σ roomId draws rid r' :
  rooms (step σ (DealTimer roomId draws)) !! rid = Some r' → roomTrans strict σ rid r'.
Proof.
  unfold step. simpl. destruct (rooms σ !! roomId) as [room|] eqn:E; simpl.
  - apply (roomTrans_store _ _ _ _ _ _ E). apply sameCore_okTrans, sameCore_dealCards.
  - apply roomTrans_same.
Qed.

Lemma onSelectTrump_rooms σ sid roomId choice now rid r' :
  (strict = true → choice ≠ VNull) →
  rooms (onSelectTrump σ sid roomId choice now).1 !! rid = Some r' →
  roomTrans strict σ rid r'.
Proof.
  intros Hchoice. unfold onSelectTrump. destruct (rooms σ !! roomId) as [room|] eqn:E;
    [|apply roomTrans_same].
  case_bool_decide as Hg; simpl; [|apply roomTrans_same].
  destruct (_ =? _); simpl; [|apply roomTrans_same].
  apply (roomTrans_store _ _ _ _ _ _ E).
  eapply okTrans_before; [|apply sameCore_dealRemaining].
  intros (I1 & I2 & I3 & I4 & I5). unfold RoomInv. simpl. split; [|done].
  split_and!; try done.
  - intros _. apply I2. auto.
  - intros [?|?]; done.
  - intros _. apply I5. congruence.
Qed.

Lemma timedOut_connected now s : isConnected s = true → timedOut now s = false.
Proof. destruct s as [p|]; simpl; [|done]. by intros ->. Qed.

Lemma checkRoomHealth_rooms σ roomId now rid r' :
  rooms (checkRoomHealth σ roomId now).1.1 !! rid = Some r' → roomTrans strict σ rid r'.
Proof.
  unfold checkRoomHealth. destruct (rooms σ !! roomId) as [room|] eqn:E;
    [|apply roomTrans_same].
  destruct (_ && _); [apply cleanupRoom_rooms|].
  destruct (existsb _ _); [|apply roomTrans_same].
  cbn [fst]. apply (roomTrans_store _ _ _ _ _ _ E).
  apply sameCore_okTrans. repeat split; simpl.
  - by rewrite length_fmap.
  - intros H. rewrite Forall_fmap. eapply Forall_impl; [exact H|].
    intros s Hs. simpl. by rewrite (timedOut_connected _ _ Hs).
Qed.

Lemma onDisconnect_rooms σ sid now rid r' :
  rooms (onDisconnect σ sid now).1 !! rid = Some r' → roomTrans strict σ rid r'.
Proof.
  unfold onDisconnect. destruct (playerSockets σ !! sid) as [roomId|];
    [|apply roomTrans_same].
  destruct (truthy roomId); [|apply roomTrans_same]. cbn [negb].
  destruct (rooms σ !! roomId) as [room|] eqn:E; [|apply roomTrans_same].
  destruct (negb _); [|apply roomTrans_same].
  set (room1 := setLastActivity now (updSeat _ _ room)).
  assert (Hlen : length (players room1) = length (players room)).
  { unfold room1, updSeat. destruct (_ <? 0); simpl; [done|]. by rewrite length_alter. }
  assert (Hsame : gameState room1 = gameState room ∧ trump room1 = trump room
                  ∧ scores room1 = scores room).
  { unfold room1, updSeat. destruct (_ <? 0); simpl; done. }
  destruct Hsame as (Hg & Ht & Hs).
  assert (Hcnt : length (players room) = 4%nat →
                 Forall (λ s, isConnected s = true) (players room) →
                 (1 ≤ connectedCount room1)%nat)
    by apply connectedCount_after_disconnect.
  clearbody room1.
  destruct (_ && _) eqn:Hc; cbn [fst].
  - apply (roomTrans_store _ _ _ _ _ _ E).
    intros (I1 & I2 & I3 & I4 & I5). unfold RoomInv. simpl. rewrite Hlen, Ht, Hs.
    apply andb_true_iff in Hc as [Hc _]. apply orb_true_iff in Hc.
    rewrite !bool_decide_eq_true, Hg in Hc.
    split; [|intros _; split; [done|tauto]].
    split_and!; try done; try (intros [?|?]; done).
    intros _. apply I5. destruct Hc; congruence.
  - apply (roomTrans_store _ _ _ _ _ _ E).
    intros (I1 & I2 & I3 & I4 & I5).
    assert (Hna : ¬ (gameState room = TrumpSelection ∨ gameState room = Playing)).
    { intros Ha. specialize (Hcnt I1 (I2 Ha)).
      apply andb_false_iff in Hc as [Hc|Hc].
      - apply orb_false_iff in Hc as [H1 H2].
        rewrite bool_decide_eq_false, Hg in H1, H2. tauto.
      - apply Nat.leb_gt in Hc. lia. }
    unfold RoomInv. rewrite Hlen, Hg, Ht, Hs. split; [split_and!; try done|].
    intros Hp. split; [done|]. by left.
Qed.


Lemma addPlayerToRoom_shape σ roomId sid pname preferred isReconnect now :
  let res := addPlayerToRoom σ roomId sid pname preferred isReconnect now in
  (res.1 = σ ∧ ∃ m, res.2 = JoinFail m)
  ∨ ∃ r0 room',
      originOf σ roomId now r0 ∧ sameCore r0 room'
      ∧ rooms res.1 = <[roomId := room']> (rooms σ)
      ∧ ∀ room'' pos b, res.2 = JoinOk room'' pos b → room'' = room'.
Proof.
  intros res. subst res. unfold addPlayerToRoom.
  destruct (_ && _) eqn:Hfull; [left; simpl; eauto|]. right.
  set (r0 := default (initializeRoom roomId now) (rooms σ !! roomId)).
  assert (Horigin : originOf σ roomId now r0).
  { unfold originOf, r0. destruct (rooms σ !! roomId); simpl; auto. }
  clearbody r0.
  pose proof (sameCore_setLastActivity now r0) as Hla.
  set (room := setLastActivity now r0) in *. clearbody room.
  exists r0.
  destruct (findPositionForTeam room preferred) as [position|].
  all: repeat match goal with
         | |- context [if ?c then _ else _] => destruct c
         end; simpl.
  all: eexists; split_and!; [exact Horigin | | reflexivity | intros ? ? ? [=]; try done].
  all: try exact Hla.
  all: eapply sameCore_trans; [exact Hla|].
  all: first [ apply sameCore_updSeat; intros; reflexivity
             | apply sameCore_setSeat; reflexivity ].
Qed.

Lemma roomTrans_store_origin σ roomId now r0 room r2 rid r' :
  originOf σ roomId now r0 → sameCore r0 room → okTrans strict room r2 →
  <[roomId := r2]> (<[roomId := room]> (rooms σ)) !! rid = Some r' →
  roomTrans strict σ rid r'.
Proof.
  intros Ho Hs Ht. rewrite insert_insert_eq, lookup_insert. case_decide.
  - subst. intros [= <-]. exists r0. split.
    + destruct Ho as [?|[? ?]]; eauto.
    + by eapply okTrans_after.
  - apply roomTrans_same.
Qed.

Lemma roomTrans_origin σ roomId now r0 room rid r' :
  originOf σ roomId now r0 → sameCore r0 room →
  <[roomId := room]> (rooms σ) !! rid = Some r' →
  roomTrans strict σ rid r'.
Proof.
  intros Ho Hs. rewrite lookup_insert. case_decide.
  - subst. intros [= <-]. exists r0. split.
    + destruct Ho as [?|[? ?]]; eauto.
    + by apply sameCore_okTrans.
  - apply roomTrans_same.
Qed.

Lemma okTrans_startGame room now draws :
  gameState room = Waiting → (4 ≤ connectedCount room)%nat →
  okTrans strict room
    (dealCardsForTrumpSelection draws
       (setLastActivity now
          (setTricksWon [0; 0; 0; 0]%nat
             (setScores (mkScores 0 0)
                (setTrumpSelector 0
                   (setCurrentPlayerIndex 0
                      (setCurrentRoundIndex 0
                         (setGameState TrumpSelection room)))))))).
Proof.
  intros Hg Hc. eapply okTrans_before; [|apply sameCore_dealCards].
  intros (I1 & I2 & I3 & I4 & I5). unfold RoomInv, targetScore. simpl.
  split; [|done]. split_and!; try done.
  - intros _. by apply connectedCount_all.
  - intros _. apply I3. auto.
  - intros [?|?]; done.
  - intros _. lia.
Qed.

Lemma okTrans_resumeTrump room draws :
  gameState room = Paused → (4 ≤ connectedCount room)%nat → trump room = VNull →
  okTrans strict room
    (match seat (setGameState TrumpSelection room)
             (currentPlayerIndex (setGameState TrumpSelection room)) with
     | Some trumpSelector =>
         if connected trumpSelector && (length (hand trumpSelector) =? 0)%nat
         then dealCardsForTrumpSelection draws (setGameState TrumpSelection room)
         else setGameState TrumpSelection room
     | None => setGameState TrumpSelection room
     end).
Proof.
  intros Hg Hc Ht.
  assert (H1 : okTrans strict room (setGameState TrumpSelection room)).
  { intros (I1 & I2 & I3 & I4 & I5). unfold RoomInv. simpl.
    split; [|done]. split_and!; try done.
    - intros _. by apply connectedCount_all.
    - intros [?|?]; done.
    - intros _. apply I5. congruence. }
  destruct (seat _ _); [|done]. destruct (_ && _); [|done].
  eapply okTrans_before; [exact H1 | apply sameCore_dealCards].
Qed.

Lemma okTrans_resumePlaying room :
  gameState room = Paused → (4 ≤ connectedCount room)%nat → trump room ≠ VNull →
  okTrans strict room (setGameState Playing room).
Proof.
  intros Hg Hc Ht (I1 & I2 & I3 & I4 & I5). unfold RoomInv. simpl.
  split; [|done]. split_and!; try done.
  - intros _. by apply connectedCount_all.
  - intros [?|?]; done.
  - intros _. apply I5. congruence.
Qed.

Lemma onJoinRoom_rooms σ sid roomId pname preferred isReconnect now draws rid r' :
  rooms (onJoinRoom σ sid roomId pname preferred isReconnect now draws).1 !! rid = Some r' →
  roomTrans strict σ rid r'.
Proof.
  unfold onJoinRoom.
  pose proof (addPlayerToRoom_shape σ roomId sid pname preferred isReconnect now) as Hshape.
  destruct (addPlayerToRoom σ roomId sid pname preferred isReconnect now) as [σ1 res].
  simpl in Hshape.
  destruct Hshape as [[-> [m ->]] | (r0 & room' & Ho & Hs & Hrooms & Hres)].
  { apply roomTrans_same. }
  destruct res as [m | room pos isReconnection |]; cbn [fst].
  { rewrite Hrooms. by eapply roomTrans_origin. }
  2:{ rewrite Hrooms. by eapply roomTrans_origin. }
  rewrite (Hres _ _ _ eq_refl) in *. clear Hres room.
  destruct isReconnection.
  - destruct (bool_decide (gameState room' = Paused) && (4 <=? connectedCount room')%nat) eqn:Hc;
      [|cbn [fst]; rewrite Hrooms; by eapply roomTrans_origin].
    apply andb_true_iff in Hc as [Hp Hc]. apply bool_decide_eq_true in Hp.
    apply Nat.leb_le in Hc.
    case_bool_decide as Ht; cbn [fst]; simpl; rewrite Hrooms.
    + eapply roomTrans_store_origin; [exact Ho | exact Hs |].
      by apply okTrans_resumeTrump.
    + eapply roomTrans_store_origin; [exact Ho | exact Hs |].
      by apply okTrans_resumePlaying.
  - destruct ((connectedCount room' =? 4)%nat && bool_decide (gameState room' = Waiting)) eqn:Hc;
      [|cbn [fst]; rewrite Hrooms; by eapply roomTrans_origin].
    apply andb_true_iff in Hc as [Hc Hw]. apply bool_decide_eq_true in Hw.
    apply Nat.eqb_eq in Hc.
    unfold startGame. rewrite Hrooms, lookup_insert_eq.
    destruct (negb _).
    + cbn [fst]. rewrite Hrooms. by eapply roomTrans_origin.
    + cbn [fst]. simpl. rewrite Hrooms, lookup_insert_eq. cbn [fst]. simpl.
      rewrite Hrooms.
      eapply roomTrans_store_origin; [exact Ho | exact Hs |].
      apply okTrans_startGame; [done | lia].
Qed.


Lemma sameCore_incrTricks i r : sameCore r (incrTricks i r).
Proof. unfold incrTricks. destruct (i <? 0); by repeat split. Qed.

Lemma onPlayCard_rooms σ sid roomId cardIndex now rid r' :
  rooms (onPlayCard σ sid roomId cardIndex now).1 !! rid = Some r' →
  roomTrans strict σ rid r'.
Proof.
  unfold onPlayCard. destruct (rooms σ !! roomId) as [room|] eqn:E;
    [|apply roomTrans_same].
  case_bool_decide as Hg; simpl; [|apply roomTrans_same].
  destruct (_ =? -1); [apply roomTrans_same|].
  destruct (negb _); [apply roomTrans_same|].
  destruct (seat room _) as [player|]; [|apply roomTrans_same].
  destruct (mjoin _) as [theCard|]; [|apply roomTrans_same].
  destruct (negb _); [apply roomTrans_same|].
  set (room1 := updSeat _ _ _).
  assert (Hs1 : sameCore room room1).
  { unfold room1. eapply sameCore_trans; [|apply sameCore_updSeat; by intros].
    by repeat split. }
  clearbody room1.
  destruct (_ =? 4)%nat.
  - destruct (getTrickWinner _ _) as [winner|].
    2:{ cbn [fst]. apply (roomTrans_store _ _ _ _ _ _ E). by apply sameCore_okTrans. }
    set (room2 := setLastTrickWinner _ _).
    assert (Hs2 : sameCore room room2).
    { eapply sameCore_trans; [exact Hs1|]. unfold room2.
      eapply sameCore_trans; [apply sameCore_incrTricks|]. by repeat split. }
    clearbody room2.
    assert (Hg2 : gameState room2 = Playing) by (destruct Hs2 as [-> _]; done).
    pose proof (okTrans_checkRoundComplete room2 Hg2) as Hcheck.
    destruct (checkRoundComplete room2) as [room3 st]. simpl in Hcheck.
    assert (okTrans strict room room3) by (by eapply okTrans_after).
    destruct (gameComplete st); [|destruct (roundComplete st)]; cbn [fst].
    all: by apply (roomTrans_store _ _ _ _ _ _ E).
  - cbn [fst]. apply (roomTrans_store _ _ _ _ _ _ E).
    apply sameCore_okTrans. eapply sameCore_trans; [exact Hs1|]. by repeat split.
Qed.

Lemma step_rooms σ e rid r' :
  (strict = true → nonNullChoice e) →
  rooms (step σ e) !! rid = Some r' → roomTrans strict σ rid r'.
Proof.
  intros Hchoice. destruct e.
  - apply onJoinRoom_rooms.
  - by apply onSelectTrump_rooms.
  - apply onPlayCard_rooms.
  - apply onDisconnect_rooms.
  - apply dealTimer_rooms.
  - apply checkRoomHealth_rooms.
  - apply cleanupRoom_rooms.
Qed.

Lemma roomTrans_inv σ rid r' : ServerInv strict σ → roomTrans strict σ rid r' → RoomInv strict r'.
Proof.
  intros Hinv (r0 & [H0 | [_ [now ->]]] & Ht).
  - apply Ht. by eapply Hinv.
  - apply Ht. apply RoomInv_initializeRoom.
Qed.

Lemma ServerInv_step σ e :
  (strict = true → nonNullChoice e) →
  ServerInv strict σ → ServerInv strict (step σ e).
Proof.
  intros Hchoice Hinv rid r' Hr'. eapply roomTrans_inv; [done|]. by eapply step_rooms.
Qed.

Lemma ServerInv_initial : ServerInv strict initialServer.
Proof. intros rid r. simpl. by rewrite lookup_empty. Qed.

Lemma run_snoc evs e : run (evs ++ [e]) = step (run evs) e.
Proof. unfold run. by rewrite foldl_app. Qed.

Lemma run_reachable evs : reachable (run evs).
Proof.
  induction evs as [|e evs IH] using rev_ind; [constructor|].
  rewrite run_snoc. by constructor.
Qed.

Lemma reachable_run σ : reachable σ → ∃ evs, σ = run evs.
Proof.
  induction 1 as [|σ e _ [evs ->]]; [by exists []|].
  exists (evs ++ [e])%list. by rewrite run_snoc.
Qed.

End RoomSteps.

Lemma reachable_inv σ : reachable σ → ServerInv false σ.
Proof. induction 1; [apply ServerInv_initial | by apply ServerInv_step]. Qed.

(** The rooms of a run; for [strict], of a run in which no [selectTrump]
    carried [null]. *)
Lemma run_inv strict evs :
  (strict = true → Forall nonNullChoice evs) → ServerInv strict (run evs).
Proof.
  induction evs as [|e evs IH] using rev_ind; [intros _; apply ServerInv_initial|].
  intros H. rewrite run_snoc. apply ServerInv_step.
  - intros Hs. specialize (H Hs). rewrite Forall_app, Forall_singleton in H. tauto.
  - apply IH. intros Hs. specialize (H Hs). rewrite Forall_app in H. tauto.
Qed.

(** ** The trump suit and the phase *)

Section Noting.

Lemma runNoting_snoc evs e :
  runNoting (evs ++ [e]) = stepNoting (runNoting evs) e.
Proof. unfold runNoting. by rewrite foldl_app. Qed.

Lemma runNoting_run evs : (runNoting evs).1 = run evs.
Proof.
  induction evs as [|e evs IH] using rev_ind; [done|].
  rewrite runNoting_snoc, run_snoc. simpl. by rewrite IH.
Qed.

Lemma interruptedPhase_snoc evs e rid :
  interruptedPhase (evs ++ [e]) rid
  = notePhase (run (evs ++ [e])) (interruptedPhase evs) rid.
Proof.
  unfold interruptedPhase. rewrite runNoting_snoc, run_snoc. simpl.
  by rewrite runNoting_run.
Qed.

(** What the noted phase is: the phase itself while the room is not
    paused, and for a paused room a phase of play; a room paused from trump
    selection has no trump, and in a run in which no [selectTrump] carried
    [null] ([strict]) a room paused from the playing phase has one. *)
Lemma interruptedPhase_inv strict evs rid r :
  (strict = true → Forall nonNullChoice evs) →
  rooms (run evs) !! rid = Some r →
  (gameState r ≠ Paused → interruptedPhase evs rid = gameState r)
  ∧ (gameState r = Paused →
       (interruptedPhase evs rid = Playing ∧ (strict = true → trump r ≠ VNull))
       ∨ (interruptedPhase evs rid = TrumpSelection ∧ trump r = VNull)).
Proof.
  revert rid r. induction evs as [|e evs IH] using rev_ind; intros rid r Hevs Hr.
  { unfold run in Hr. simpl in Hr. by rewrite lookup_empty in Hr. }
  assert (Hevs' : strict = true → Forall nonNullChoice evs).
  { intros Hs. specialize (Hevs Hs). rewrite Forall_app in Hevs. tauto. }
  assert (He : strict = true → nonNullChoice e).
  { intros Hs. specialize (Hevs Hs). rewrite Forall_app, Forall_singleton in Hevs. tauto. }
  rewrite interruptedPhase_snoc. unfold notePhase. rewrite Hr.
  case_bool_decide as Hp; [|by split].
  split; [done|]. intros _.
  rewrite run_snoc in Hr. apply (step_rooms strict) in Hr as (r0 & Horigin & Ht); [|done].
  pose proof (run_inv strict evs Hevs') as Hinv.
  destruct Horigin as [H0 | [_ [now ->]]].
  - destruct (Ht (Hinv _ _ H0)) as [_ Hpaused].
    destruct (Hpaused Hp) as [Htr Hph]. rewrite Htr.
    destruct (IH _ _ Hevs' H0) as [Hnp Hpp].
    destruct (Hinv _ _ H0) as (_ & _ & I3 & I4 & _).
    destruct Hph as [Hph | [Hph | Hph]].
    + by apply Hpp.
    + right. split; [|by auto]. rewrite Hnp; congruence.
    + left. split; [|by auto]. rewrite Hnp; congruence.
  - destruct (Ht (RoomInv_initializeRoom _ _ _)) as [_ Hpaused].
    destruct (Hpaused Hp) as [_ [?|[?|?]]]; done.
Qed.

End Noting.



(** A [selectTrump] whose payload has [null] as its trump, or no trump, is
    accepted like any other; a room that plays with the trump [null] and is
    paused goes to trump selection when the seat comes back. *)
Example null_trump_while_playing :
  let evs := (tableJoins ++ [SelectTrump "s0" "omi" VNull 1])%list in
  let evs' := (evs ++ [Disconnect "s2" 3; JoinRoom "s9" "omi" "c" "A" true 4 []])%list in
  ((λ r, (gameState r, trump r)) <$> rooms (run evs) !! VStr "omi")
  = Some (Playing, VNull)
  ∧ ((λ r, (gameState r, trump r))
       <$> rooms (run (tableJoins ++ [SelectTrump "s0" "omi" VUndefined 1])) !! VStr "omi")
    = Some (Playing, VUndefined)
  ∧ interruptedPhase (evs ++ [Disconnect "s2" 3]) "omi" = Playing
  ∧ (gameState <$> rooms (run evs') !! VStr "omi") = Some TrumpSelection.
Proof. repeat split; vm_compute; reflexivity. Qed.


(** ** Disconnection *)

(** C8, as amended.  In a room of a reachable server state that is in trump
    selection or playing, the disconnect of a seated connection which the
    table [playerSockets] maps to that room, under a room id that is truthy
    (not [undefined], [null], [false], [0] or the empty string), pauses the
    room: also the first disconnection out of four. *)
Theorem tracked_disconnect_pauses (σ : Server) (rid : JsVal) (sid : string) (now : Z)
    (r : Room) :
  reachable σ →
  rooms σ !! rid = Some r →
  gameState r = TrumpSelection ∨ gameState r = Playing →
  seatedWith sid r →
  playerSockets σ !! sid = Some rid →
  truthy rid = true →
  ∃ r', rooms (step σ (Disconnect sid now)) !! rid = Some r'
        ∧ gameState r' = Paused
        ∧ (connectedCount r' < 4)%nat
        ∧ trump r' = trump r.
Proof.
  intros Hreach Hr Hphase (i & p & Hi & Hid) Htracked Hne.
  destruct (reachable_inv _ Hreach _ _ Hr) as (I1 & I2 & _).
  specialize (I2 Hphase).
  assert (Hfound : findIndex (hasId sid) (players r) ≠ -1).
  { eapply findIndex_exists; [exact Hi|]. simpl. by apply bool_decide_eq_true. }
  unfold step. simpl. unfold onDisconnect. rewrite Htracked.
  rewrite Hne. cbn [negb]. rewrite Hr.
  destruct (Z.eqb_spec (findIndex (hasId sid) (players r)) (-1)); [done|].
  cbn [negb].
  pose proof (connectedCount_after_disconnect r (findIndex (hasId sid) (players r)) now I1 I2)
    as Hcnt.
  destruct (findIndex_found _ _ Hfound) as (k & slot & Hk & Hslot & Hhas & _).
  set (room1 := setLastActivity now (updSeat _ _ r)) in *.
  assert (Hg : gameState room1 = gameState r ∧ trump room1 = trump r).
  { unfold room1, updSeat. destruct (_ <? 0); done. }
  assert (Hlt : (connectedCount room1 < 4)%nat).
  { unfold room1. rewrite Hk. unfold connectedCount. simpl. rewrite players_updSeat.
    destruct slot as [q|]; [|done].
    assert (Hlk : alter (fmap (λ p0 : Player, setLastSeen now (setConnected false p0))) k (players r) !! k
                  = Some (Some (setLastSeen now (setConnected false q)))).
    { by rewrite list_lookup_alter_eq, Hslot. }
    assert (Hlen : length (alter (fmap (λ p0 : Player, setLastSeen now (setConnected false p0))) k (players r)) = 4%nat)
      by (by rewrite length_alter).
    revert Hlk Hlen. generalize (alter (fmap (λ p0 : Player, setLastSeen now (setConnected false p0))) k (players r)).
    intros l Hlk Hlen.
    destruct (decide (length (filter (λ s, isConnected s = true) l) < 4)%nat); [done|].
    exfalso.
    assert (Hall : Forall (λ s, isConnected s = true) l).
    { pose proof (length_filter (λ s, isConnected s = true) l) as Hle.
      assert (Heq : length (filter (λ s, isConnected s = true) l) = length l) by lia.
      clear -Heq. induction l as [|a l IH]; [constructor|].
      rewrite filter_cons in Heq. destruct (decide (isConnected a = true)).
      - simpl in Heq. constructor; [done|]. apply IH. lia.
      - pose proof (length_filter (λ s, isConnected s = true) l). simpl in Heq. lia. }
    rewrite Forall_lookup in Hall. specialize (Hall _ _ Hlk). done. }
  clearbody room1. destruct Hg as [Hg Ht].
  assert (Hact : (bool_decide (gameState room1 = Playing)
                  || bool_decide (gameState room1 = TrumpSelection)) = true).
  { rewrite Hg. destruct Hphase as [-> | ->]; done. }
  rewrite Hact. destruct (Nat.leb_spec 1 (connectedCount room1)); [|lia].
  simpl. rewrite lookup_insert_eq. eexists. split; [reflexivity|].
  simpl. done.
Qed.

Lemma tracked_disconnect_pauses_witness :
  ∃ r', rooms (step (run tableJoins) (Disconnect "s2" 3)) !! VStr "omi" = Some r'
        ∧ gameState r' = Paused.
Proof.
  assert (Hr : ∃ r, rooms (run tableJoins) !! VStr "omi" = Some r
                    ∧ gameState r = TrumpSelection ∧ seatedWith "s2" r).
  { eexists. split; [vm_compute; reflexivity|]. split; [reflexivity|].
    exists 2%nat. eexists. split; reflexivity. }
  destruct Hr as (r & Hr & Hg & Hs).
  assert (Ht : playerSockets (run tableJoins) !! "s2" = Some (VStr "omi"))
    by (vm_compute; reflexivity).
  assert (Hne : truthy "omi" = true) by reflexivity.
  destruct (tracked_disconnect_pauses (run tableJoins) "omi" "s2" 3 r
              (run_reachable _) Hr (or_introl Hg) Hs Ht Hne) as (r' & Hr' & Hp & _).
  exists r'. split; [exact Hr' | exact Hp].
Defined.

(** C8, as stated, fails: the connection "s0" sits in room "omi" and then
    joins room "side", which the table [playerSockets] now names for it; its
    disconnect is handled in "side", and "omi" stays in trump selection, with
    that seat still marked connected.  Likewise in a room whose id is the
    empty string, [0], [null], [false] or absent: [if (roomId)] takes every
    falsy id for no room. *)
Lemma untracked_disconnect_does_not_pause :
  (∃ r r', rooms (run twoRooms) !! VStr "omi" = Some r
           ∧ gameState r = TrumpSelection
           ∧ seatedWith "s0" r
           ∧ rooms (step (run twoRooms) (Disconnect "s0" 5)) !! VStr "omi" = Some r'
           ∧ gameState r' = TrumpSelection
           ∧ connectedCount r' = 4%nat)
  ∧ (∃ r r', rooms (run namelessRoom) !! VStr "" = Some r
             ∧ gameState r = TrumpSelection
             ∧ seatedWith "s0" r
             ∧ playerSockets (run namelessRoom) !! "s0" = Some (VStr "")
             ∧ rooms (step (run namelessRoom) (Disconnect "s0" 5)) !! VStr "" = Some r'
             ∧ gameState r' = TrumpSelection)
  ∧ Forall (λ v,
              let σ := run (joinsOf v) in
              (gameState <$> rooms σ !! v) = Some TrumpSelection
              ∧ playerSockets σ !! "s0" = Some v
              ∧ (gameState <$> rooms (step σ (Disconnect "s0" 5)) !! v)
                = Some TrumpSelection)
      [VNum 0; VNull; VBool false; VUndefined]
  ∧ ¬ disconnectAlwaysPauses.
Proof.
  assert (H : ∃ r r', rooms (run twoRooms) !! VStr "omi" = Some r
           ∧ gameState r = TrumpSelection
           ∧ seatedWith "s0" r
           ∧ rooms (step (run twoRooms) (Disconnect "s0" 5)) !! VStr "omi" = Some r'
           ∧ gameState r' = TrumpSelection
           ∧ connectedCount r' = 4%nat).
  { eexists. eexists. split; [vm_compute; reflexivity|]. split; [reflexivity|].
    split; [exists 0%nat; eexists; split; reflexivity|].
    split; [vm_compute; reflexivity|]. split; reflexivity. }
  split; [exact H|]. split.
  { eexists. eexists. split; [vm_compute; reflexivity|]. split; [reflexivity|].
    split; [exists 0%nat; eexists; split; reflexivity|].
    split; [vm_compute; reflexivity|].
    split; [vm_compute; reflexivity | reflexivity]. }
  split; [repeat constructor; vm_compute; reflexivity|].
  intros Hclaim.
  destruct H as (r & r' & Hr & Hg & Hseat & Hr' & Hg' & _).
  destruct (Hclaim _ _ _ "s0" 5 (run_reachable twoRooms) Hr (or_introl Hg) Hseat)
    as (r'' & Hr'' & Hp).
  rewrite Hr' in Hr''. injection Hr'' as <-. congruence.
Qed.

(** ** The end of a match *)

Section MatchEnd.

(** When the scoring of a deal takes a score to the target: the deal was
    complete, one team won it and got its points, the other score did not
    move, and the room is completed. *)
Lemma checkRoundComplete_target r :
  (teamA (scores r) < targetScore ∧ teamB (scores r) < targetScore)%nat →
  let r' := (checkRoundComplete r).1 in
  let st := (checkRoundComplete r).2 in
  (targetScore ≤ teamA (scores r') ∨ targetScore ≤ teamB (scores r'))%nat →
  gameComplete st = true ∧ gameState r' = Completed
  ∧ (tricksExpected ≤ foldl Nat.add O (tricksWon r))%nat
  ∧ ∃ t res,
      roundResult st = Some res ∧ winningTeam res = Some t
      ∧ (0 < pointsAwarded res)%nat
      ∧ scoreOf t (scores r') = (scoreOf t (scores r) + pointsAwarded res)%nat
      ∧ scoreOf (otherTeamOf t) (scores r') = scoreOf (otherTeamOf t) (scores r).
Proof.
  intros [HA HB] r' st. subst r' st. unfold checkRoundComplete.
  destruct (Nat.leb_spec tricksExpected (foldl Nat.add O (tricksWon r)));
    [|simpl; lia].
  cbv zeta.
  destruct (_ <? _)%nat; [|destruct (_ <? _)%nat].
  all: match goal with
       | |- context [(if ?c then 2%nat else 1%nat)] => destruct c
       | _ => idtac
       end.
  all: match goal with
       | |- context [(targetScore <=? ?a)%nat || (targetScore <=? ?b)%nat] =>
           destruct (Nat.leb_spec targetScore a); destruct (Nat.leb_spec targetScore b)
       end; simpl in *.
  all: unfold targetScore in *; intros Hreach; try lia.
  all: split_and!; try done.
  all: first [ exists TeamA; eexists; split_and!; [reflexivity | reflexivity | simpl; lia | reflexivity | reflexivity]
             | exists TeamB; eexists; split_and!; [reflexivity | reflexivity | simpl; lia | reflexivity | reflexivity] ].
Qed.

Lemma sameCore_scores r r' : sameCore r r' → scores r' = scores r.
Proof. by intros (_ & _ & ? & _). Qed.

End MatchEnd.

(** C5.  In a reachable state, when a play takes a team's score of a room
    whose match is not completed to the target of 10: the play ended a deal,
    the room is completed, the two scores differ, and the [gameOver]
    notification names as winner the team that was awarded the points of
    that deal, which is the team with the higher score; never a tie. *)
Theorem match_won_by_awarded_team (σ : Server) (sid : string) (rid : JsVal) (cardIndex : nat)
    (now : Z) (r r' : Room) :
  reachable σ →
  rooms σ !! rid = Some r →
  gameState r ≠ Completed →
  rooms (step σ (PlayCard sid rid cardIndex now)) !! rid = Some r' →
  (targetScore ≤ teamA (scores r') ∨ targetScore ≤ teamB (scores r'))%nat →
  gameState r' = Completed
  ∧ teamA (scores r') ≠ teamB (scores r')
  ∧ ∃ t res,
      (ToRoom rid, MGameOver (winnerOf t) (scores r') (Some res))
        ∈ (handle σ (PlayCard sid rid cardIndex now)).2
      ∧ (∀ w fs rr, (ToRoom rid, MGameOver w fs rr)
                      ∈ (handle σ (PlayCard sid rid cardIndex now)).2 →
           w = winnerOf t ∧ w ≠ Tie)
      ∧ winningTeam res = Some t
      ∧ (0 < pointsAwarded res)%nat
      ∧ scoreOf t (scores r') = (scoreOf t (scores r) + pointsAwarded res)%nat
      ∧ scoreOf (otherTeamOf t) (scores r') = scoreOf (otherTeamOf t) (scores r)
      ∧ (scoreOf (otherTeamOf t) (scores r') < targetScore ≤ scoreOf t (scores r'))%nat.
Proof.
  intros Hreach Hr Hnc Hr' Htarget.
  destruct (reachable_inv _ Hreach _ _ Hr) as (_ & _ & _ & _ & I5).
  specialize (I5 Hnc).
  assert (Hsame : scores r' = scores r → False) by (intros Hs; rewrite Hs in Htarget; lia).
  revert Hr'. unfold step, handle, onPlayCard. rewrite Hr.
  case_bool_decide as Hg; simpl;
    [|rejected_play Hr Hsame].
  destruct (_ =? -1); [rejected_play Hr Hsame|].
  destruct (negb _); [rejected_play Hr Hsame|].
  destruct (seat r _) as [player|]; [|rejected_play Hr Hsame].
  destruct (mjoin _) as [theCard|]; [|rejected_play Hr Hsame].
  destruct (negb _); [rejected_play Hr Hsame|].
  set (room1 := updSeat _ _ _).
  assert (Hs1 : sameCore r room1).
  { unfold room1. eapply sameCore_trans; [|apply sameCore_updSeat; by intros].
    by repeat split. }
  clearbody room1.
  destruct (_ =? 4)%nat.
  2:{ cbn [fst]. simpl. rewrite lookup_insert_eq. intros [= <-]. simpl in Hsame.
      destruct Hsame. by apply sameCore_scores. }
  destruct (getTrickWinner _ _) as [winner|].
  2:{ cbn [fst]. simpl. rewrite lookup_insert_eq. intros [= <-].
      destruct Hsame. by apply sameCore_scores. }
  set (room2 := setLastTrickWinner _ _).
  assert (Hs2 : sameCore r room2).
  { eapply sameCore_trans; [exact Hs1|]. unfold room2.
    eapply sameCore_trans; [apply sameCore_incrTricks|]. by repeat split. }
  clearbody room2.
  pose proof (checkRoundComplete_target room2) as Hcheck.
  rewrite (sameCore_scores _ _ Hs2) in Hcheck. specialize (Hcheck I5).
  destruct (checkRoundComplete room2) as [room3 st]. simpl in Hcheck.
  assert (Hr3 : r' = room3 → gameComplete st = true ∧ gameState r' = Completed
                ∧ ∃ t res, roundResult st = Some res ∧ winningTeam res = Some t
                  ∧ (0 < pointsAwarded res)%nat
                  ∧ scoreOf t (scores r') = (scoreOf t (scores r) + pointsAwarded res)%nat
                  ∧ scoreOf (otherTeamOf t) (scores r') = scoreOf (otherTeamOf t) (scores r)).
  { intros ->. destruct (Hcheck Htarget) as (? & ? & _ & t & res & ?). eauto 10. }
  destruct (gameComplete st) eqn:Hgc.
  2:{ destruct (roundComplete st); cbn [fst]; simpl; rewrite lookup_insert_eq;
        intros [= <-]; destruct (Hr3 eq_refl) as [? _]; done. }
  cbn [fst snd]. simpl. rewrite lookup_insert_eq. intros [= <-].
  destruct (Hr3 eq_refl) as (_ & Hcomp & t & res & Hres & Hwin & Hpts & Hst & Hso).
  split; [done|].
  assert (Hbounds : (scoreOf (otherTeamOf t) (scores room3) < targetScore
                     ≤ scoreOf t (scores room3))%nat).
  { unfold targetScore in *. destruct t; simpl in *; lia. }
  assert (Hfinal : (if (teamB (scores room3) <? teamA (scores room3))%nat
                    then WinnerTeamA
                    else if (teamA (scores room3) <? teamB (scores room3))%nat
                         then WinnerTeamB else Tie) = winnerOf t).
  { unfold targetScore in *. destruct t; simpl in *.
    - destruct (Nat.ltb_spec (teamB (scores room3)) (teamA (scores room3))); [done|lia].
    - destruct (Nat.ltb_spec (teamB (scores room3)) (teamA (scores room3))); [lia|].
      destruct (Nat.ltb_spec (teamA (scores room3)) (teamB (scores room3))); [done|lia]. }
  rewrite Hfinal, Hres.
  split; [unfold targetScore in *; destruct t; simpl in *; lia|].
  exists t, res. split_and!; try done; try lia.
  - rewrite !elem_of_cons. auto.
  - intros w fs rr Hin. rewrite !elem_of_cons, elem_of_nil in Hin.
    assert (w = winnerOf t) as -> by (destruct Hin as [Hin | [Hin | [Hin | []]]]; congruence).
    split; [done | by destruct t].
Qed.

Lemma match_won_by_awarded_team_witness :
  ∃ r', rooms (step (run matchUntilLastPlay) lastPlayOfMatch) !! VStr "omi" = Some r'
        ∧ gameState r' = Completed ∧ teamA (scores r') ≠ teamB (scores r').
Proof.
  assert (Hr : ∃ r, rooms (run matchUntilLastPlay) !! VStr "omi" = Some r
                    ∧ gameState r ≠ Completed).
  { eexists. split; [vm_compute; reflexivity | discriminate]. }
  destruct Hr as (r & Hr & Hg).
  assert (Hr' : ∃ r', rooms (step (run matchUntilLastPlay) (PlayCard "s1" "omi" 7 2)) !! VStr "omi"
                      = Some r'
                      ∧ (targetScore ≤ teamA (scores r'))%nat).
  { eexists. split; [vm_compute; reflexivity | vm_compute; lia]. }
  destruct Hr' as (r' & Hr' & Ht).
  destruct (match_won_by_awarded_team (run matchUntilLastPlay) "s1" "omi" 7 2 r r'
              (run_reachable _) Hr Hg Hr' (or_introl Ht)) as (Hc & Hne & _).
  exists r'. split; [exact Hr'|]. split; [exact Hc | exact Hne].
Defined.

(** ** The selector of the next deal *)

Section NextDeal.

(** What [checkRoundComplete] does with the seats when a new deal starts:
    the successor of [currentPlayerIndex] selects trump and acts first. *)
Lemma checkRoundComplete_next r :
  gameState r = Playing →
  gameState (checkRoundComplete r).1 = TrumpSelection →
  trumpSelector (checkRoundComplete r).1 = Z.rem (currentPlayerIndex r + 1) 4
  ∧ currentPlayerIndex (checkRoundComplete r).1 = Z.rem (currentPlayerIndex r + 1) 4
  ∧ lastTrickWinner (checkRoundComplete r).1 = lastTrickWinner r.
Proof.
  intros Hg. unfold checkRoundComplete.
  destruct (_ <=? _)%nat; [|simpl; congruence].
  cbv zeta.
  destruct (_ <? _)%nat; [|destruct (_ <? _)%nat].
  all: match goal with
       | |- context [(if ?c then 2%nat else 1%nat)] => destruct c
       | _ => idtac
       end.
  all: match goal with
       | |- context [(targetScore <=? ?a)%nat || (targetScore <=? ?b)%nat] =>
           destruct ((targetScore <=? a)%nat || (targetScore <=? b)%nat)
       end; simpl; try done.
Qed.

(** In the server: after the play that ends a deal, the trump selector of
    the new deal is the seat after the winner of the last trick. *)
Lemma next_selector_is_winner_successor σ sid rid cardIndex now r r' :
  rooms σ !! rid = Some r →
  rooms (step σ (PlayCard sid rid cardIndex now)) !! rid = Some r' →
  gameState r = Playing → gameState r' = TrumpSelection →
  trumpSelector r' = Z.rem (lastTrickWinner r' + 1) 4
  ∧ currentPlayerIndex r' = trumpSelector r'.
Proof.
  intros Hr Hr' Hg Hg'. revert Hr'.
  assert (Hsame : r' = r → False) by (intros ->; congruence).
  unfold step, handle, onPlayCard. rewrite Hr.
  rewrite bool_decide_eq_true_2 by done. cbn [negb].
  destruct (_ =? -1); [rejected_play Hr Hsame|].
  destruct (negb _); [rejected_play Hr Hsame|].
  destruct (seat r _) as [player|]; [|rejected_play Hr Hsame].
  destruct (mjoin _) as [theCard|]; [|rejected_play Hr Hsame].
  destruct (negb _); [rejected_play Hr Hsame|].
  set (room1 := updSeat _ _ _).
  assert (Hs1 : sameCore r room1).
  { unfold room1. eapply sameCore_trans; [|apply sameCore_updSeat; by intros].
    by repeat split. }
  clearbody room1.
  destruct (_ =? 4)%nat.
  2:{ cbn [fst]. simpl. rewrite lookup_insert_eq. intros [= <-]. simpl in Hg'.
      destruct Hs1 as [Hg1 _]. congruence. }
  destruct (getTrickWinner _ _) as [winner|].
  2:{ cbn [fst]. simpl. rewrite lookup_insert_eq. intros [= <-].
      destruct Hs1 as [Hg1 _]. congruence. }
  set (room2 := setLastTrickWinner _ _).
  assert (Hs2 : gameState room2 = Playing
                ∧ currentPlayerIndex room2 = playerIndex winner
                ∧ lastTrickWinner room2 = playerIndex winner).
  { unfold room2, incrTricks. destruct Hs1 as [Hg1 _].
    destruct (_ <? 0); simpl; split_and!; congruence. }
  clearbody room2. destruct Hs2 as (Hg2 & Hc2 & Hw2).
  pose proof (checkRoundComplete_next room2 Hg2) as Hnext.
  destruct (checkRoundComplete room2) as [room3 st]. simpl in Hnext.
  assert (Hr3 : r' = room3 → trumpSelector r' = Z.rem (lastTrickWinner r' + 1) 4
                             ∧ currentPlayerIndex r' = trumpSelector r').
  { intros ->. destruct (Hnext Hg') as (-> & -> & ->). by rewrite Hc2, Hw2. }
  destruct (gameComplete st); [|destruct (roundComplete st)]; cbn [fst]; simpl;
    rewrite lookup_insert_eq; intros [= <-]; by apply Hr3.
Qed.

End NextDeal.

(** C4 fails on the code.  The first deal of the sample table: seat 0
    selected trump, seat 3 wins the last trick, and the play that ends the
    deal makes seat 0 = (3 + 1) mod 4 the selector of the next deal and the
    first to act, not seat 1 = (0 + 1) mod 4. *)
Theorem next_selector_not_rotated :
  ∃ r r',
    rooms (run (tableJoins ++ firstDeal)) !! VStr "omi" = Some r
    ∧ rooms (step (run (tableJoins ++ firstDeal)) lastPlayOfFirstDeal) !! VStr "omi" = Some r'
    ∧ gameState r = Playing ∧ trumpSelector r = 0
    ∧ foldl Nat.add O (tricksWon r) = 7%nat
    ∧ teamA (scores r') = 1%nat ∧ teamB (scores r') = O
    ∧ gameState r' = TrumpSelection ∧ lastTrickWinner r' = 3
    ∧ trumpSelector r' = 0 ∧ currentPlayerIndex r' = 0
    ∧ (trumpSelector r + 1) `mod` 4 = 1
    ∧ ¬ selectorRotates (run (tableJoins ++ firstDeal)) "omi" lastPlayOfFirstDeal.
Proof.
  eexists. eexists.
  split; [vm_compute; reflexivity|]. split; [vm_compute; reflexivity|].
  split_and!; try reflexivity.
  intros Hclaim.
  destruct (Hclaim _ _ ltac:(vm_compute; reflexivity) ltac:(vm_compute; reflexivity)
              eq_refl eq_refl) as [Hsel _].
  vm_compute in Hsel. discriminate Hsel.
Qed.

(** * Further properties of the code *)

(** ** Legal plays and the trick winner *)

Section LegalPlays.

Lemma filter_hasSuit_nonempty s (hand : Hand) :
  (0 <? length (filter (λ x, hasSuit s x = true) hand))%nat = true
  ↔ ∃ i, suitAt s hand i.
Proof.
  rewrite Nat.ltb_lt. split.
  - intros Hlen. destruct (filter _ hand) as [|x l] eqn:E; [simpl in Hlen; lia|].
    assert (Hx : x ∈ filter (λ x, hasSuit s x = true) hand) by (rewrite E; left).
    apply list_elem_of_filter in Hx as [Hs Hin].
    apply list_elem_of_lookup in Hin as [i Hi]. exists i.
    destruct x as [c|]; [|done]. exists c. split; [done|].
    by apply bool_decide_eq_true in Hs.
  - intros (i & c & Hi & Hs).
    assert (Hx : Some c ∈ filter (λ x, hasSuit s x = true) hand).
    { apply list_elem_of_filter. split; [by apply bool_decide_eq_true|].
      apply list_elem_of_lookup. eauto. }
    destruct (filter _ hand); [by apply not_elem_of_nil in Hx | simpl; lia].
Qed.

Lemma pushIndices_hasSuit_nonempty s (hand : Hand) :
  (0 <? length (pushIndices (hasSuit s) 0 hand))%nat = true
  ↔ ∃ i, suitAt s hand i.
Proof.
  rewrite Nat.ltb_lt. split.
  - intros Hlen. destruct (pushIndices _ _ hand) as [|i l] eqn:E; [simpl in Hlen; lia|].
    exists i. apply pushIndices_hasSuit. rewrite E. left.
  - intros [i Hi]. apply pushIndices_hasSuit in Hi.
    destruct (pushIndices _ _ hand); [by apply not_elem_of_nil in Hi | simpl; lia].
Qed.

End LegalPlays.

(** X1.  The validation of a play agrees with the list of playable cards:
    the card in slot [i] of a hand passes [isValidPlay] exactly when [i] is
    one of the indices that [getPlayableCards] returns. *)
Theorem isValidPlay_iff_playable (hand : Hand) (trick : list TrickEntry)
    (trump : JsVal) (i : nat) (c : Card) :
  hand !! i = Some (Some c) →
  (isValidPlay c hand trick trump = true ↔ i ∈ getPlayableCards hand trick trump).
Proof.
  intros Hi. unfold isValidPlay, getPlayableCards.
  destruct trick as [|e rest].
  - split; [|done]. intros _. apply pushIndices_nonNull. by exists c.
  - cbv zeta.
    destruct (0 <? length (filter _ hand))%nat eqn:Hf.
    + apply filter_hasSuit_nonempty in Hf.
      rewrite (proj2 (pushIndices_hasSuit_nonempty _ _) Hf).
      rewrite bool_decide_eq_true, pushIndices_hasSuit. split.
      * intros Hs. by exists c.
      * intros (c' & Hc' & Hs). congruence.
    + assert (Hnone : ¬ ∃ j, suitAt (suit (card e)) hand j).
      { intros H. apply filter_hasSuit_nonempty in H. congruence. }
      destruct (0 <? length (pushIndices _ _ hand))%nat eqn:Hp.
      { apply pushIndices_hasSuit_nonempty in Hp. done. }
      split; [|done]. intros _. apply pushIndices_nonNull. by exists c.
Qed.

Lemma isValidPlay_iff_playable_witness :
  isValidPlay (mkCard Spades RA)
    [Some (mkCard Hearts R7); None; Some (mkCard Spades RA)]
    [mkEntry 1 "b" (mkCard Hearts R9)] "Spades" = true
  ↔ 2%nat ∈ getPlayableCards
       [Some (mkCard Hearts R7); None; Some (mkCard Spades RA)]
       [mkEntry 1 "b" (mkCard Hearts R9)] "Spades".
Proof.
  exact (isValidPlay_iff_playable
           [Some (mkCard Hearts R7); None; Some (mkCard Spades RA)]
           [mkEntry 1 "b" (mkCard Hearts R9)] "Spades" 2%nat (mkCard Spades RA)
           eq_refl).
Defined.

(** X2.  [getPlayableCards] never offers an empty slot or an index outside
    the hand, and it offers at least one card whenever the hand holds one:
    follow-suit can never leave a player without a legal play. *)
Theorem getPlayableCards_sound_nonempty (hand : Hand) (trick : list TrickEntry)
    (trump : JsVal) :
  (∀ i, i ∈ getPlayableCards hand trick trump → cardAt hand i)
  ∧ ((∃ i, cardAt hand i) → getPlayableCards hand trick trump ≠ []).
Proof.
  assert (Hsuit : ∀ s i, suitAt s hand i → cardAt hand i).
  { intros s i (c & Hc & _). by exists c. }
  unfold getPlayableCards. destruct trick as [|e rest]; cbv zeta.
  - split.
    + intros i. by rewrite pushIndices_nonNull.
    + intros [i Hi] Hnil. apply pushIndices_nonNull in Hi. rewrite Hnil in Hi.
      by apply not_elem_of_nil in Hi.
  - destruct (0 <? length (pushIndices _ _ hand))%nat eqn:Hp.
    + split.
      * intros i Hin. apply pushIndices_hasSuit in Hin. eauto.
      * intros _ Hnil. rewrite Hnil in Hp. done.
    + split.
      * intros i. by rewrite pushIndices_nonNull.
      * intros [i Hi] Hnil. apply pushIndices_nonNull in Hi. rewrite Hnil in Hi.
        by apply not_elem_of_nil in Hi.
Qed.

Lemma getPlayableCards_sound_nonempty_witness :
  getPlayableCards [None; Some (mkCard Clubs RJ)]
    [mkEntry 0 "a" (mkCard Hearts R9)] "Spades" ≠ [].
Proof.
  refine (proj2 (getPlayableCards_sound_nonempty _ _ _) _).
  exists 1%nat. by exists (mkCard Clubs RJ).
Defined.

(** X3.  [shuffleDeck] only moves cards: for every deck and all random
    draws the result is a permutation of the deck, so it has the same length
    and, like the deck, no card twice. *)
Theorem shuffleDeck_permutes (draws : list nat) (deck : list Card) :
  shuffleDeck draws deck ≡ₚ deck
  ∧ length (shuffleDeck draws deck) = length deck
  ∧ (NoDup deck → NoDup (shuffleDeck draws deck))
  ∧ (∀ c, c ∈ shuffleDeck draws deck ↔ c ∈ deck).
Proof.
  pose proof (shuffleDeck_perm draws deck) as Hp. split_and!.
  - done.
  - by rewrite Hp.
  - by rewrite Hp.
  - intros c. by rewrite Hp.
Qed.

Lemma shuffleDeck_permutes_witness :
  NoDup (shuffleDeck [3; 1; 4; 1; 5]%nat createDeck).
Proof.
  exact (proj1 (proj2 (proj2 (shuffleDeck_permutes _ _))) createDeck_NoDup).
Defined.

Section Discards.

Lemma filter_none {A} (P : A → Prop) `{!∀ x, Decision (P x)} (l : list A) :
  (∀ x, x ∈ l → ¬ P x) → filter P l = [].
Proof.
  induction l as [|a l IH]; intros Hno; [done|].
  rewrite filter_cons_False by (apply Hno; left). apply IH.
  intros x Hx. apply Hno. by right.
Qed.

Lemma getTrickWinner_in trick trump w :
  getTrickWinner trick trump = Some w → w ∈ trick.
Proof.
  unfold getTrickWinner. destruct trick as [|e0 rest]; [done|]. cbv zeta.
  destruct (0 <? _)%nat.
  - intros Hw. destruct (filter _ (e0 :: rest)) as [|t l] eqn:E; [done|].
    destruct (reduce1_higher_max trump (t :: l)) as (w' & Hw' & Hin & _); [done|].
    rewrite Hw in Hw'. injection Hw' as <-. rewrite <- E in Hin.
    by apply list_elem_of_filter in Hin as [_ ?].
  - intros Hw. destruct (filter _ (e0 :: rest)) as [|t l] eqn:E; [done|].
    destruct (reduce1_higher_max trump (t :: l)) as (w' & Hw' & Hin & _); [done|].
    rewrite Hw in Hw'. injection Hw' as <-. rewrite <- E in Hin.
    by apply list_elem_of_filter in Hin as [_ ?].
Qed.

End Discards.

(** X4.  A discard never wins a trick: for every non-empty trick the winner
    holds a trump card or a card of the lead suit; and when no later entry is
    trump or follows the lead suit, the entry that led the trick wins. *)
Theorem discard_never_wins (e0 : TrickEntry) (rest : list TrickEntry)
    (trump : JsVal) :
  ∃ w, getTrickWinner (e0 :: rest) trump = Some w
       ∧ w ∈ e0 :: rest
       ∧ (isSuit (card w) trump = true ∨ suit (card w) = suit (card e0))
       ∧ ((∀ e, e ∈ rest → isSuit (card e) trump = false
                            ∧ suit (card e) ≠ suit (card e0)) → w = e0).
Proof.
  unfold getTrickWinner. cbv zeta.
  set (tc := filter (λ t, isSuit (card t) trump = true) (e0 :: rest)).
  set (lc := filter (λ t, suit (card t) = suit (card e0)) (e0 :: rest)).
  assert (Hrest : (∀ e, e ∈ rest → isSuit (card e) trump = false
                                   ∧ suit (card e) ≠ suit (card e0)) →
                  filter (λ t, isSuit (card t) trump = true) rest = []
                  ∧ filter (λ t, suit (card t) = suit (card e0)) rest = []).
  { intros H. split.
    - apply filter_none. intros e He. destruct (H e He). congruence.
    - apply filter_none. intros e He. by destruct (H e He). }
  destruct tc as [|t l] eqn:Htc; simpl.
  - destruct (reduce1_higher_max trump lc) as (w & Hw & Hin & _).
    { unfold lc. by rewrite filter_cons_True. }
    exists w. split; [done|].
    apply list_elem_of_filter in Hin as [Hs Hin]. split_and!; [done | by right |].
    intros H. destruct (Hrest H) as [_ Hl].
    unfold lc in Hw. rewrite filter_cons_True, Hl in Hw by done. simpl in Hw. congruence.
  - destruct (reduce1_higher_max trump (t :: l)) as (w & Hw & Hin & _); [done|].
    exists w. split; [done|]. rewrite <- Htc in Hin.
    apply list_elem_of_filter in Hin as [Hs Hin]. split_and!; [done | by left |].
    intros H. destruct (Hrest H) as [Ht _].
    unfold tc in Htc. rewrite filter_cons, Ht in Htc.
    destruct (decide _); simplify_eq/=. congruence.
Qed.

Lemma discard_never_wins_witness :
  ∃ w, getTrickWinner
         [mkEntry 2 "c" (mkCard Hearts R7); mkEntry 3 "d" (mkCard Clubs RA);
          mkEntry 0 "a" (mkCard Diamonds RA); mkEntry 1 "b" (mkCard Clubs RK)]
         "Spades" = Some w
       ∧ w = mkEntry 2 "c" (mkCard Hearts R7).
Proof.
  destruct (discard_never_wins (mkEntry 2 "c" (mkCard Hearts R7))
              [mkEntry 3 "d" (mkCard Clubs RA); mkEntry 0 "a" (mkCard Diamonds RA);
               mkEntry 1 "b" (mkCard Clubs RK)] "Spades")
    as (w & Hw & _ & _ & Hlead).
  exists w. split; [exact Hw|]. apply Hlead.
  intros e He. rewrite !elem_of_cons, elem_of_nil in He.
  destruct He as [-> | [-> | [-> | []]]]; split; done.
Defined.

(** ** Eviction and reconnection *)

Section Eviction.

Lemma timedOut_spec now (p : Player) :
  timedOut now (Some p) = true ↔ connected p = false ∧ PLAYER_TIMEOUT < now - lastSeen p.
Proof.
  simpl. rewrite andb_true_iff, negb_true_iff, Z.ltb_lt. done.
Qed.

Lemma connected_after_eviction now (ps : list (option Player)) :
  filter (λ s, isConnected s = true)
    ((λ slot, if timedOut now slot then None else slot) <$> ps)
  = filter (λ s, isConnected s = true) ps.
Proof.
  induction ps as [|s ps IH]; [done|]. rewrite fmap_cons, !filter_cons, IH.
  destruct s as [p|]; [|done]. simpl.
  destruct (connected p) eqn:Hc; simpl; [by rewrite Hc|].
  destruct (_ <? _); simpl; by rewrite ?Hc.
Qed.

End Eviction.

(** X5.  [checkRoomHealth] on a room of the registry.  A room without a
    connected seat that has been idle for more than two minutes is removed.
    Otherwise the room stays and the result is [true]: exactly the seats that
    are disconnected and were last seen more than [PLAYER_TIMEOUT] ago become
    empty; a connected seat, or one seen more recently, is never touched; the
    number of connected seats, the phase, the trump, the scores and the trick
    are as before; and when no seat is stale nothing changes at all.  Other
    rooms are never touched. *)
Theorem checkRoomHealth_evicts_only_stale (σ : Server) (roomId : JsVal) (now : Z)
    (room : Room) :
  rooms σ !! roomId = Some room →
  let res := checkRoomHealth σ roomId now in
  let idle := connectedCount room = 0%nat ∧ 2 * 60 * 1000 < now - lastActivity room in
  let stale := λ p : Player, connected p = false ∧ PLAYER_TIMEOUT < now - lastSeen p in
  (idle → rooms res.1.1 !! roomId = None ∧ res.2 = false)
  ∧ (¬ idle →
       res.2 = true
       ∧ ∃ room',
           rooms res.1.1 !! roomId = Some room'
           ∧ length (players room') = length (players room)
           ∧ (∀ i p, players room !! i = Some (Some p) →
                (stale p → players room' !! i = Some None)
                ∧ (¬ stale p → players room' !! i = Some (Some p)))
           ∧ (∀ i, players room !! i = Some None → players room' !! i = Some None)
           ∧ connectedCount room' = connectedCount room
           ∧ gameState room' = gameState room ∧ trump room' = trump room
           ∧ scores room' = scores room ∧ currentTrick room' = currentTrick room
           ∧ tricksWon room' = tricksWon room
           ∧ ((∀ i p, players room !! i = Some (Some p) → ¬ stale p) → res.1.1 = σ))
  ∧ (∀ other, other ≠ roomId → rooms res.1.1 !! other = rooms σ !! other).
Proof.
  intros Hroom res idle stale. subst res idle stale. unfold checkRoomHealth.
  rewrite Hroom.
  destruct ((connectedCount room =? 0)%nat && (2 * 60 * 1000 <? now - lastActivity room))
    eqn:Hidle.
  - apply andb_true_iff in Hidle as [H0 Hla].
    apply Nat.eqb_eq in H0. apply Z.ltb_lt in Hla.
    unfold cleanupRoom. rewrite Hroom. simpl. split_and!.
    + intros _. split; [apply lookup_delete_eq | done].
    + intros Hn. destruct Hn. done.
    + intros other Hne. by apply lookup_delete_ne.
  - assert (Hnidle : ¬ (connectedCount room = 0%nat ∧ 2 * 60 * 1000 < now - lastActivity room)).
    { intros [H0 Hla]. apply andb_false_iff in Hidle as [Hi|Hi].
      - apply Nat.eqb_neq in Hi. done.
      - apply Z.ltb_ge in Hi. lia. }
    destruct (existsb (timedOut now) (players room)) eqn:Hex; cbn [fst snd].
    + split_and!; [done | | intros other Hne; by apply lookup_insert_ne].
      intros _. split; [done|]. eexists. split; [apply lookup_insert_eq|]. simpl.
      split_and!; try done.
      * by rewrite length_fmap.
      * intros i p Hi. rewrite list_lookup_fmap, Hi. simpl. split.
        -- intros Hs. apply timedOut_spec in Hs. simpl in Hs. by rewrite Hs.
        -- intros Hs. destruct (negb (connected p) && (PLAYER_TIMEOUT <? now - lastSeen p)) eqn:E;
             [|done]. destruct Hs. by apply (timedOut_spec now p).
      * intros i Hi. by rewrite list_lookup_fmap, Hi.
      * unfold connectedCount. simpl. by rewrite connected_after_eviction.
      * intros Hnone. exfalso. apply existsb_exists in Hex as ([p|] & Hin & Ht); [|done].
        apply list_elem_of_In, list_elem_of_lookup in Hin as [i Hi].
        apply (Hnone i p Hi). by apply timedOut_spec.
    + split_and!; [done | | done].
      intros _. split; [done|]. exists room. split_and!; try done.
      intros i p Hi. split; [|done]. intros Hs. exfalso.
      assert (existsb (timedOut now) (players room) = true); [|congruence].
      apply existsb_exists. exists (Some p). split.
      * apply list_elem_of_In, list_elem_of_lookup. eauto.
      * by apply timedOut_spec.
Qed.

Lemma checkRoomHealth_evicts_only_stale_witness :
  ∃ room',
    rooms (checkRoomHealth (run (tableJoins ++ [Disconnect "s2" 3])) "omi" 400000).1.1 !! VStr "omi"
    = Some room'
    ∧ players room' !! 2%nat = Some None.
Proof.
  assert (Hr : ∃ r p, rooms (run (tableJoins ++ [Disconnect "s2" 3])) !! VStr "omi" = Some r
                      ∧ (connectedCount r = 3%nat)
                      ∧ players r !! 2%nat = Some (Some p)
                      ∧ connected p = false ∧ lastSeen p = 3).
  { eexists. eexists. split; [vm_compute; reflexivity|]. split_and!; reflexivity. }
  destruct Hr as (r & p & Hr & Hc & Hp & Hpc & Hps).
  destruct (checkRoomHealth_evicts_only_stale _ "omi" 400000 r Hr) as (_ & Hkeep & _).
  destruct Hkeep as (_ & room' & Hroom' & _ & Hseats & _).
  - intros [H0 _]. rewrite Hc in H0. discriminate H0.
  - exists room'. split; [exact Hroom'|].
    apply (proj1 (Hseats 2%nat p Hp)). split; [exact Hpc|].
    rewrite Hps. unfold PLAYER_TIMEOUT. lia.
Defined.

(** X6.  A join with the reconnection flag under a name that no seat of the
    room holds is an ordinary join: [addPlayerToRoom] returns the same server
    and result as without the flag (also for a room that does not exist yet).
    Under a name that only connected seats hold it is rejected with
    ['Player with this name is already connected'] and no seat changes. *)
Theorem reconnect_unknown_name_is_join (σ : Server) (roomId : JsVal) (sid pname : string)
    (preferred : JsVal) (now : Z) :
  let r0 := default (initializeRoom roomId now) (rooms σ !! roomId) in
  ((∀ i p, players r0 !! i = Some (Some p) → name p ≠ pname) →
     addPlayerToRoom σ roomId sid pname preferred true now
     = addPlayerToRoom σ roomId sid pname preferred false now)
  ∧ (is_Some (rooms σ !! roomId) →
     (∀ i p, players r0 !! i = Some (Some p) → name p = pname → connected p = true) →
     nameConnected pname r0 →
     addPlayerToRoom σ roomId sid pname preferred true now
     = (storeRoom roomId (setLastActivity now r0) σ,
        JoinFail "Player with this name is already connected")).
Proof.
  intros r0. subst r0. split.
  - intros Hnone. unfold addPlayerToRoom.
    destruct (_ && _); [done|]. simpl.
    set (r0 := default (initializeRoom roomId now) (rooms σ !! roomId)) in *.
    assert (H1 : findIndex (namedDisconnected pname) (players r0) = -1).
    { destruct (decide (findIndex (namedDisconnected pname) (players r0) = -1)) as [|Hne]; [done|].
      apply findIndex_found in Hne as (n & [p|] & _ & Hn & HP & _); [|done].
      simpl in HP. apply andb_true_iff in HP as [HP _]. apply bool_decide_eq_true in HP.
      by destruct (Hnone _ _ Hn). }
    assert (H2 : findIndex (namedConnected pname) (players r0) = -1).
    { destruct (decide (findIndex (namedConnected pname) (players r0) = -1)) as [|Hne]; [done|].
      apply findIndex_found in Hne as (n & [p|] & _ & Hn & HP & _); [|done].
      simpl in HP. apply andb_true_iff in HP as [HP _]. apply bool_decide_eq_true in HP.
      by destruct (Hnone _ _ Hn). }
    rewrite H1, H2. done.
  - intros [room Hroom] Hconn (i & p & Hi & Hc & Hn). unfold addPlayerToRoom.
    rewrite Hroom in *. simpl in *.
    assert (H1 : findIndex (namedDisconnected pname) (players room) = -1).
    { destruct (decide (findIndex (namedDisconnected pname) (players room) = -1)) as [|Hne]; [done|].
      apply findIndex_found in Hne as (n & [q|] & _ & Hq & HP & _); [|done].
      simpl in HP. apply andb_true_iff in HP as [HP1 HP2]. apply bool_decide_eq_true in HP1.
      rewrite (Hconn _ _ Hq HP1) in HP2. done. }
    assert (H2 : findIndex (namedConnected pname) (players room) ≠ -1).
    { eapply findIndex_exists; [exact Hi|]. simpl. rewrite Hc, bool_decide_eq_true_2; done. }
    rewrite H1. simpl.
    destruct (Z.eqb_spec (findIndex (namedConnected pname) (players room)) (-1)); done.
Qed.

Lemma reconnect_unknown_name_is_join_witness :
  addPlayerToRoom (run tableJoins) "fresh" "s7" "z" "B" true 9
  = addPlayerToRoom (run tableJoins) "fresh" "s7" "z" "B" false 9.
Proof.
  refine (proj1 (reconnect_unknown_name_is_join (run tableJoins) "fresh" "s7" "z" "B" 9) _).
  intros i p Hi. vm_compute in Hi. destruct i as [|[|[|[|i]]]]; discriminate Hi.
Defined.

(** ** More invariants of the rooms of a run *)

Section RoomSteps2.

Local Opaque shuffleDeck createDeck.

Lemma frame2_refl r : frame2 r r.
Proof. split; [apply sameCore_refl | done]. Qed.

Lemma frame2_trans r1 r2 r3 : frame2 r1 r2 → frame2 r2 r3 → frame2 r1 r3.
Proof. intros [? ?] [? ?]. split; [by eapply sameCore_trans | auto]. Qed.

Lemma phaseStep_refl r : phaseStep r r.
Proof. by left. Qed.

Lemma frame2_okTrans2 r r' : frame2 r r' → okTrans2 r r'.
Proof.
  intros [Hs Hi] _ Hinv. split; [auto|]. destruct Hs as (Hg & _ & Hsc & _).
  split; [by left|]. unfold scoresLe. rewrite Hsc. lia.
Qed.

Lemma okTrans2_after r r1 r' : frame2 r r1 → okTrans2 r1 r' → okTrans2 r r'.
Proof.
  intros [Hs Hi] Ht Hinv Hinv2.
  destruct (Ht (sameCore_inv _ _ _ Hs Hinv) (Hi Hinv2)) as (? & Hp & Hsc).
  destruct Hs as (Hg & Htr & Hs & _). split; [done|].
  unfold phaseStep, scoresLe in *. rewrite <- Hg, <- Htr, <- Hs. done.
Qed.

Lemma okTrans2_before r r1 r' : okTrans2 r r1 → frame2 r1 r' → okTrans2 r r'.
Proof.
  intros Ht [Hs Hi] Hinv Hinv2. destruct (Ht Hinv Hinv2) as (? & Hp & Hsc).
  destruct Hs as (Hg & Htr & Hs & _). split; [auto|].
  unfold phaseStep, scoresLe in *. rewrite Hg, Hs. done.
Qed.

Lemma seatsFrame_inv2 r r' : seatsFrame r r' → RoomInv2 r → RoomInv2 r'.
Proof.
  intros (Hg & Htr & Hsc & Htw & Hct & Hcur & Hseats).
  intros (J1 & J2 & J3 & J4 & J5 & J6 & J7 & J8 & J9 & J10 & J11 & J12 & J13).
  unfold RoomInv2, trickSum, trickSeat in *. rewrite Htw, Hct, Hcur, Hg, Hsc.
  split_and!; try done; try lia.
  intros i p' Hp'. destruct (Hseats i p' Hp') as [(p & Hp & -> & ->) | ?]; eauto.
Qed.

Lemma seatsFrame_frame2 r r' : sameCore r r' → seatsFrame r r' → frame2 r r'.
Proof. intros Hs Hf. split; [done | by apply seatsFrame_inv2]. Qed.

Lemma seatsFrame_okTrans2 r r' : seatsFrame r r' → okTrans2 r r'.
Proof.
  intros Hf _ Hinv2. split; [by eapply seatsFrame_inv2|].
  destruct Hf as (Hg & _ & Hsc & _). split; [by left|].
  unfold scoresLe. rewrite Hsc. lia.
Qed.

Lemma seatsFrame_refl r : seatsFrame r r.
Proof. unfold seatsFrame. split_and!; try done. intros i p' ?. left. eauto. Qed.

Lemma seatsFrame_setLastActivity now r : seatsFrame r (setLastActivity now r).
Proof.
  unfold seatsFrame. split_and!; try done.
  intros i p' ?. left. eauto.
Qed.

Lemma seatsFrame_updSeat i f r :
  (∀ p, team (f p) = team p ∧ position (f p) = position p) →
  seatsFrame r (updSeat i f r).
Proof.
  intros Hf. unfold seatsFrame, updSeat. destruct (i <? 0); simpl; [split_and!; try done; intros k p' ?; left; eauto|].
  split_and!; try done. intros k p' Hk. left.
  destruct (decide (k = Z.to_nat i)) as [->|].
  - rewrite list_lookup_alter_eq in Hk.
    destruct (players r !! Z.to_nat i) as [[p|]|]; simplify_eq/=.
    exists p. destruct (Hf p). done.
  - rewrite list_lookup_alter_ne in Hk by done. eauto.
Qed.

Lemma seatsFrame_setSeat pos p r :
  team p = getTeamForPosition pos → position p = pos →
  seatsFrame r (setSeat pos (Some p) r).
Proof.
  intros Ht Hp. unfold seatsFrame, setSeat. destruct (Z.ltb_spec pos 0); [split_and!; try done; intros k p' ?; left; eauto|].
  simpl. split_and!; try done. intros k p' Hk.
  destruct (decide (k = Z.to_nat pos)) as [->|].
  - apply list_lookup_insert_Some in Hk as [(_ & ? & _) | [? _]]; [|done].
    simplify_eq. right. by rewrite Z2Nat.id.
  - rewrite list_lookup_insert_ne in Hk by done. left. eauto.
Qed.

Lemma seatsFrame_dealCards draws r : seatsFrame r (dealCardsForTrumpSelection draws r).
Proof.
  unfold seatsFrame, dealCardsForTrumpSelection.
  destruct (seat r (currentPlayerIndex r)); simpl;
    [|split_and!; try done; intros k p' ?; left; eauto].
  split_and!; try done. intros k p'. rewrite list_lookup_imap.
  destruct (players r !! k) as [[q|]|]; simpl; intros Hk; [|done..].
  left. exists q. split; [done|].
  destruct (Z.of_nat k =? currentPlayerIndex r); by simplify_eq/=.
Qed.

Lemma dealLoop_seats cur index ps deck :
  ∀ i p', (dealLoop cur index ps deck).1 !! i = Some (Some p') →
    ∃ p, ps !! i = Some (Some p) ∧ team p' = team p ∧ position p' = position p.
Proof.
  revert index deck. induction ps as [|[p|] ps IH]; intros index deck i p'; simpl.
  - done.
  - destruct (index =? cur).
    + destruct (dealLoop cur (index + 1) ps (drop 4 deck)) as [ps' d'] eqn:E.
      specialize (IH (index + 1) (drop 4 deck)). rewrite E in IH. simpl in *.
      destruct i as [|i]; simpl; [intros [= <-]; eauto | apply IH].
    + destruct (dealLoop cur (index + 1) ps (drop 8 deck)) as [ps' d'] eqn:E.
      specialize (IH (index + 1) (drop 8 deck)). rewrite E in IH. simpl in *.
      destruct i as [|i]; simpl; [intros [= <-]; eauto | apply IH].
  - destruct (dealLoop cur (index + 1) ps deck) as [ps' d'] eqn:E.
    specialize (IH (index + 1) deck). rewrite E in IH. simpl in *.
    destruct i as [|i]; simpl; [done | apply IH].
Qed.

Lemma seatsFrame_dealRemaining r : seatsFrame r (dealRemainingCards r).
Proof.
  unfold seatsFrame, dealRemainingCards.
  pose proof (dealLoop_seats (currentPlayerIndex r) 0 (players r) (deck r)) as Hs.
  destruct (dealLoop _ _ _ _) as [ps' d']. simpl in *.
  split_and!; try done. intros i p' Hi. left. eauto.
Qed.

Lemma seatsFrame_evict now r :
  seatsFrame r
    (setLastActivity now
       (setPlayers ((λ slot, if timedOut now slot then None else slot) <$> players r) r)).
Proof.
  unfold seatsFrame. simpl. split_and!; try done. intros i p'. rewrite list_lookup_fmap.
  destruct (players r !! i) as [s|]; simpl; [|done].
  destruct (timedOut now s); intros ?; simplify_eq. left. eauto.
Qed.

Lemma RoomInv2_initializeRoom rid now : RoomInv2 (initializeRoom rid now).
Proof.
  unfold RoomInv2, trickSum, targetScore. simpl. split_and!; try done; try lia.
  intros [|[|[|[|i]]]] p ?; simplify_eq/=.
Qed.

Lemma seatsFrame_trans r1 r2 r3 : seatsFrame r1 r2 → seatsFrame r2 r3 → seatsFrame r1 r3.
Proof.
  intros (? & ? & ? & Htw & Hct & Hcur & Hseats) (? & ? & ? & Htw' & Hct' & Hcur' & Hseats').
  unfold seatsFrame. split_and!; try congruence.
  intros i p'' Hi. destruct (Hseats' i p'' Hi) as [(p' & Hp' & -> & ->) | ?]; [|by right].
  destruct (Hseats i p' Hp') as [(p & Hp & -> & ->) | ?]; [left; eauto | by right].
Qed.

Lemma addPlayerToRoom_seats σ roomId sid pname preferred isReconnect now :
  let res := addPlayerToRoom σ roomId sid pname preferred isReconnect now in
  (res.1 = σ ∧ ∃ m, res.2 = JoinFail m)
  ∨ ∃ r0 room',
      originOf σ roomId now r0 ∧ frame2 r0 room'
      ∧ rooms res.1 = <[roomId := room']> (rooms σ)
      ∧ ∀ room'' pos b, res.2 = JoinOk room'' pos b → room'' = room'.
Proof.
  intros res. subst res. unfold addPlayerToRoom.
  destruct (_ && _) eqn:Hfull; [left; simpl; eauto|]. right.
  set (r0 := default (initializeRoom roomId now) (rooms σ !! roomId)).
  assert (Horigin : originOf σ roomId now r0).
  { unfold originOf, r0. destruct (rooms σ !! roomId); simpl; auto. }
  clearbody r0.
  assert (Hla : frame2 r0 (setLastActivity now r0)).
  { apply seatsFrame_frame2;
      [apply sameCore_setLastActivity | apply seatsFrame_setLastActivity]. }
  set (room := setLastActivity now r0) in *. clearbody room.
  exists r0.
  destruct (findPositionForTeam room preferred) as [position|].
  all: repeat match goal with
         | |- context [if ?c then _ else _] => destruct c
         end; simpl.
  all: eexists; split_and!; [exact Horigin | | reflexivity | intros ? ? ? [=]; try done].
  all: try exact Hla.
  all: eapply frame2_trans; [exact Hla|].
  all: apply seatsFrame_frame2.
  all: first [ apply sameCore_updSeat; intros; reflexivity
             | apply sameCore_setSeat; reflexivity
             | apply seatsFrame_updSeat; intros; done
             | apply seatsFrame_setSeat; reflexivity ].
Qed.

Lemma roomTrans2_same σ rid r : rooms σ !! rid = Some r → roomTrans2 σ rid r.
Proof.
  intros H. exists r. split; [by left | apply frame2_okTrans2, frame2_refl].
Qed.

Lemma roomTrans2_store σ roomId r0 r' rid r'' :
  rooms σ !! roomId = Some r0 → okTrans2 r0 r' →
  rooms (storeRoom roomId r' σ) !! rid = Some r'' → roomTrans2 σ rid r''.
Proof.
  intros H0 Ht. simpl. rewrite lookup_insert. case_decide as Hd.
  - subst. intros [= <-]. exists r0. split; [by left | done].
  - apply roomTrans2_same.
Qed.

Lemma roomTrans2_store_origin σ roomId now r0 room r2 rid r' :
  originOf σ roomId now r0 → frame2 r0 room → okTrans2 room r2 →
  <[roomId := r2]> (<[roomId := room]> (rooms σ)) !! rid = Some r' →
  roomTrans2 σ rid r'.
Proof.
  intros Ho Hs Ht. rewrite insert_insert_eq, lookup_insert. case_decide.
  - subst. intros [= <-]. exists r0. split.
    + destruct Ho as [?|[? ?]]; eauto.
    + by eapply okTrans2_after.
  - apply roomTrans2_same.
Qed.

Lemma roomTrans2_origin σ roomId now r0 room rid r' :
  originOf σ roomId now r0 → frame2 r0 room →
  <[roomId := room]> (rooms σ) !! rid = Some r' →
  roomTrans2 σ rid r'.
Proof.
  intros Ho Hs. rewrite lookup_insert. case_decide.
  - subst. intros [= <-]. exists r0. split.
    + destruct Ho as [?|[? ?]]; eauto.
    + by apply frame2_okTrans2.
  - apply roomTrans2_same.
Qed.

Lemma cleanupRoom_rooms2 σ roomId rid r' :
  rooms (cleanupRoom σ roomId).1 !! rid = Some r' → roomTrans2 σ rid r'.
Proof.
  unfold cleanupRoom. destruct (rooms σ !! roomId) eqn:E; simpl.
  - rewrite lookup_delete. case_decide; [done|]. apply roomTrans2_same.
  - apply roomTrans2_same.
Qed.

Lemma dealTimer_rooms2 σ roomId draws rid r' :
  rooms (step σ (DealTimer roomId draws)) !! rid = Some r' → roomTrans2 σ rid r'.
Proof.
  unfold step. simpl. destruct (rooms σ !! roomId) as [room|] eqn:E; simpl.
  - apply (roomTrans2_store _ _ _ _ _ _ E).
    apply seatsFrame_okTrans2, seatsFrame_dealCards.
  - apply roomTrans2_same.
Qed.

Lemma checkRoomHealth_rooms2 σ roomId now rid r' :
  rooms (checkRoomHealth σ roomId now).1.1 !! rid = Some r' → roomTrans2 σ rid r'.
Proof.
  unfold checkRoomHealth. destruct (rooms σ !! roomId) as [room|] eqn:E;
    [|apply roomTrans2_same].
  destruct (_ && _); [apply cleanupRoom_rooms2|].
  destruct (existsb _ _); [|apply roomTrans2_same].
  cbn [fst]. apply (roomTrans2_store _ _ _ _ _ _ E).
  apply seatsFrame_okTrans2, seatsFrame_evict.
Qed.

(** A change of the phase and of fields that the second invariant reads
    only through the phase. *)
Lemma RoomInv2_phase r r' :
  tricksWon r' = tricksWon r → currentTrick r' = currentTrick r →
  currentPlayerIndex r' = currentPlayerIndex r → players r' = players r →
  scores r' = scores r →
  gameState r ≠ Completed → gameState r' ≠ Completed → gameState r' ≠ Waiting →
  RoomInv2 r → RoomInv2 r'.
Proof.
  intros Htw Hct Hcur Hpl Hsc Hg Hg' Hw (J1 & J2 & J3 & J4 & J5 & J6 & J7 & J8 & J9 & J10 & J11 & J12 & J13).
  unfold RoomInv2, trickSum, trickSeat in *. rewrite Htw, Hct, Hcur, Hpl, Hsc.
  split_and!; try done; try lia; auto.
Qed.

Lemma onSelectTrump_rooms2 σ sid roomId choice now rid r' :
  rooms (onSelectTrump σ sid roomId choice now).1 !! rid = Some r' →
  roomTrans2 σ rid r'.
Proof.
  unfold onSelectTrump. destruct (rooms σ !! roomId) as [room|] eqn:E;
    [|apply roomTrans2_same].
  case_bool_decide as Hg; simpl; [|apply roomTrans2_same].
  destruct (_ =? _); simpl; [|apply roomTrans2_same].
  apply (roomTrans2_store _ _ _ _ _ _ E).
  eapply okTrans2_before; [|apply seatsFrame_frame2; [apply sameCore_dealRemaining | apply seatsFrame_dealRemaining]].
  intros _ Hinv2. split_and!.
  - revert Hinv2. apply RoomInv2_phase; simpl; try done; congruence.
  - right. right. left. done.
  - unfold scoresLe. simpl. lia.
Qed.

Lemma onDisconnect_rooms2 σ sid now rid r' :
  rooms (onDisconnect σ sid now).1 !! rid = Some r' → roomTrans2 σ rid r'.
Proof.
  unfold onDisconnect. destruct (playerSockets σ !! sid) as [roomId|];
    [|apply roomTrans2_same].
  destruct (truthy roomId); [|apply roomTrans2_same]. cbn [negb].
  destruct (rooms σ !! roomId) as [room|] eqn:E; [|apply roomTrans2_same].
  destruct (negb _); [|apply roomTrans2_same].
  set (room1 := setLastActivity now (updSeat _ _ room)).
  assert (Hf : seatsFrame room room1).
  { unfold room1. eapply seatsFrame_trans; [|apply seatsFrame_setLastActivity].
    apply seatsFrame_updSeat. by intros. }
  clearbody room1.
  destruct (_ && _) eqn:Hc; cbn [fst].
  - apply (roomTrans2_store _ _ _ _ _ _ E).
    apply andb_true_iff in Hc as [Hc _]. apply orb_true_iff in Hc.
    rewrite !bool_decide_eq_true in Hc.
    intros _ Hinv2. apply (seatsFrame_inv2 _ _ Hf) in Hinv2.
    destruct Hf as (Hg & Htr & Hsc & _). split_and!.
    + revert Hinv2. apply RoomInv2_phase; simpl; try done. destruct Hc; congruence.
    + right. right. right. left. simpl. rewrite <- Hg. tauto.
    + unfold scoresLe. simpl. rewrite Hsc. lia.
  - apply (roomTrans2_store _ _ _ _ _ _ E).
    by apply seatsFrame_okTrans2.
Qed.

Lemma okTrans2_startGame room now draws :
  gameState room = Waiting →
  okTrans2 room
    (dealCardsForTrumpSelection draws
       (setLastActivity now
          (setTricksWon [0; 0; 0; 0]%nat
             (setScores (mkScores 0 0)
                (setTrumpSelector 0
                   (setCurrentPlayerIndex 0
                      (setCurrentRoundIndex 0
                         (setGameState TrumpSelection room)))))))).
Proof.
  intros Hg. eapply okTrans2_before; [|apply seatsFrame_frame2; [apply sameCore_dealCards | apply seatsFrame_dealCards]].
  intros (I1 & I2 & I3 & I4 & I5) (J1 & J2 & J3 & J4 & J5 & J6 & J7 & J8 & J9 & J10 & J11 & J12 & J13).
  assert (Ht : currentTrick room = []) by auto.
  split_and!.
  - unfold RoomInv2, trickSum, trickSeat. simpl. rewrite Ht.
    split_and!; try done; simpl; try lia.
  - right. left. done.
  - unfold scoresLe. rewrite (J10 Hg). simpl. lia.
Qed.

Lemma okTrans2_resumeTrump room draws :
  gameState room = Paused → trump room = VNull →
  okTrans2 room
    (match seat (setGameState TrumpSelection room)
             (currentPlayerIndex (setGameState TrumpSelection room)) with
     | Some trumpSelector =>
         if connected trumpSelector && (length (hand trumpSelector) =? 0)%nat
         then dealCardsForTrumpSelection draws (setGameState TrumpSelection room)
         else setGameState TrumpSelection room
     | None => setGameState TrumpSelection room
     end).
Proof.
  intros Hg Ht.
  assert (H1 : okTrans2 room (setGameState TrumpSelection room)).
  { intros _ Hinv2. split_and!.
    - revert Hinv2. apply RoomInv2_phase; simpl; try done; congruence.
    - do 5 right. left. done.
    - unfold scoresLe. simpl. lia. }
  destruct (seat _ _); [|done]. destruct (_ && _); [|done].
  eapply okTrans2_before; [exact H1 | apply seatsFrame_frame2; [apply sameCore_dealCards | apply seatsFrame_dealCards]].
Qed.

Lemma okTrans2_resumePlaying room :
  gameState room = Paused → trump room ≠ VNull →
  okTrans2 room (setGameState Playing room).
Proof.
  intros Hg Ht _ Hinv2. split_and!.
  - revert Hinv2. apply RoomInv2_phase; simpl; try done; congruence.
  - do 6 right. done.
  - unfold scoresLe. simpl. lia.
Qed.

Lemma onJoinRoom_rooms2 σ sid roomId pname preferred isReconnect now draws rid r' :
  rooms (onJoinRoom σ sid roomId pname preferred isReconnect now draws).1 !! rid = Some r' →
  roomTrans2 σ rid r'.
Proof.
  unfold onJoinRoom.
  pose proof (addPlayerToRoom_seats σ roomId sid pname preferred isReconnect now) as Hshape.
  destruct (addPlayerToRoom σ roomId sid pname preferred isReconnect now) as [σ1 res].
  simpl in Hshape.
  destruct Hshape as [[-> [m ->]] | (r0 & room' & Ho & Hs & Hrooms & Hres)].
  { apply roomTrans2_same. }
  destruct res as [m | room pos isReconnection |]; cbn [fst].
  { rewrite Hrooms. by eapply roomTrans2_origin. }
  2:{ rewrite Hrooms. by eapply roomTrans2_origin. }
  rewrite (Hres _ _ _ eq_refl) in *. clear Hres room.
  destruct isReconnection.
  - destruct (bool_decide (gameState room' = Paused) && (4 <=? connectedCount room')%nat) eqn:Hc;
      [|cbn [fst]; rewrite Hrooms; by eapply roomTrans2_origin].
    apply andb_true_iff in Hc as [Hp Hc]. apply bool_decide_eq_true in Hp.
    case_bool_decide as Ht; cbn [fst]; simpl; rewrite Hrooms.
    + eapply roomTrans2_store_origin; [exact Ho | exact Hs |].
      by apply okTrans2_resumeTrump.
    + eapply roomTrans2_store_origin; [exact Ho | exact Hs |].
      by apply okTrans2_resumePlaying.
  - destruct ((connectedCount room' =? 4)%nat && bool_decide (gameState room' = Waiting)) eqn:Hc;
      [|cbn [fst]; rewrite Hrooms; by eapply roomTrans2_origin].
    apply andb_true_iff in Hc as [Hc Hw]. apply bool_decide_eq_true in Hw.
    unfold startGame. rewrite Hrooms, lookup_insert_eq.
    destruct (negb _).
    + cbn [fst]. rewrite Hrooms. by eapply roomTrans2_origin.
    + cbn [fst]. simpl. rewrite Hrooms, lookup_insert_eq. cbn [fst]. simpl.
      rewrite Hrooms.
      eapply roomTrans2_store_origin; [exact Ho | exact Hs |].
      by apply okTrans2_startGame.
Qed.

Lemma getTrickWinner_is_Some trick trump :
  trick ≠ [] → is_Some (getTrickWinner trick trump).
Proof.
  destruct trick as [|e0 rest]; [done|]. intros _.
  unfold getTrickWinner. cbv zeta.
  destruct (filter (λ t, isSuit (card t) trump = true) (e0 :: rest)) as [|t l] eqn:E;
    simpl; [|eauto].
  rewrite filter_cons_True by done. simpl. eauto.
Qed.

Lemma trickSum_incrTricks i r :
  0 ≤ i < 4 → length (tricksWon r) = 4%nat →
  length (tricksWon (incrTricks i r)) = 4%nat
  ∧ trickSum (incrTricks i r) = S (trickSum r).
Proof.
  intros Hi Hl. unfold incrTricks, trickSum.
  destruct (Z.ltb_spec i 0); [lia|]. simpl.
  destruct (tricksWon r) as [|a [|b [|c [|d [|]]]]]; try done.
  assert (Z.to_nat i = 0 ∨ Z.to_nat i = 1 ∨ Z.to_nat i = 2 ∨ Z.to_nat i = 3)%nat
    as [->|[->|[->| ->]]] by lia; simpl; split; lia.
Qed.

(** The end of a trick: [checkRoundComplete] on a room whose trick was just
    cleared. *)
Lemma checkRoundComplete_inv2 r :
  gameState r = Playing → currentTrick r = [] →
  length (tricksWon r) = 4%nat → 0 ≤ currentPlayerIndex r < 4 →
  (trickSum r ≤ 8)%nat →
  (∀ i p, players r !! i = Some (Some p) →
     team p = getTeamForPosition (Z.of_nat i) ∧ position p = Z.of_nat i) →
  (teamA (scores r) < targetScore ∧ teamB (scores r) < targetScore)%nat →
  let r' := (checkRoundComplete r).1 in
  RoomInv2 r' ∧ phaseStep r r' ∧ scoresLe r r'.
Proof.
  intros Hg Ht Hl Hcur Hsum Hseats Hsc. unfold trickSum in Hsum.
  unfold targetScore in Hsc.
  unfold checkRoundComplete.
  destruct (Nat.leb_spec tricksExpected (foldl Nat.add 0%nat (tricksWon r))) as [Hge|Hlt];
    unfold tricksExpected in *.
  2:{ simpl. split_and!; [|by left|unfold scoresLe; lia].
      unfold RoomInv2, trickSum, trickSeat, targetScore. rewrite Ht, Hg. simpl.
      split_and!; try done; try lia. }
  cbv zeta.
  pose proof (Z.rem_bound_pos (currentPlayerIndex r + 1) 4 ltac:(lia) ltac:(lia)) as Hrem.
  destruct (_ <? _)%nat; [|destruct (_ <? _)%nat].
  all: match goal with
       | |- context [(if ?c then 2%nat else 1%nat)] => destruct c
       | _ => idtac
       end.
  all: match goal with
       | |- context [(targetScore <=? ?a)%nat || (targetScore <=? ?b)%nat] =>
           destruct (Nat.leb_spec targetScore a); destruct (Nat.leb_spec targetScore b)
       end; unfold targetScore in *; simpl in *.
  all: split_and!;
       [ unfold RoomInv2, trickSum, trickSeat, targetScore; simpl; rewrite ?Ht;
         split_and!; try done; simpl; try lia
       | do 4 right; left; simpl; auto
       | unfold scoresLe; simpl; lia ].
Qed.

(** A card that does not complete the trick. *)
Lemma RoomInv2_play r r' e :
  RoomInv2 r → gameState r = Playing →
  gameState r' = gameState r → scores r' = scores r →
  tricksWon r' = tricksWon r →
  currentTrick r' = (currentTrick r ++ [e])%list →
  playerIndex e = currentPlayerIndex r →
  currentPlayerIndex r' = Z.rem (currentPlayerIndex r + 1) 4 →
  length (currentTrick r') ≠ 4%nat →
  (∀ i p', players r' !! i = Some (Some p') →
     ∃ p, players r !! i = Some (Some p)
          ∧ team p' = team p ∧ position p' = position p) →
  RoomInv2 r'.
Proof.
  intros (J1 & J2 & J3 & J4 & J5 & J6 & J7 & J8 & J9 & J10 & J11 & J12 & J13).
  intros Hg Hg' Hsc Htw Hct He Hcur Hlen Hseats.
  pose proof (Z.rem_bound_pos (currentPlayerIndex r + 1) 4 ltac:(lia) ltac:(lia)) as Hrem.
  assert (Hrem' : Z.rem (currentPlayerIndex r + 1) 4 = (currentPlayerIndex r + 1) `mod` 4).
  { apply Z.rem_mod_nonneg; lia. }
  unfold RoomInv2, trickSum, trickSeat in *.
  rewrite Hg', Hsc, Htw, Hcur, Hg. rewrite Hct in *. rewrite length_app in *.
  simpl in *. split_and!; try done; try lia;
    try (intros _; apply J7; congruence).
  - intros k e' Hk. rewrite Hrem'.
    destruct (decide (k < length (currentTrick r))%nat) as [Hlt|Hge].
    + rewrite lookup_app_l in Hk by done. rewrite (J4 _ _ Hk).
      Z.to_euclidean_division_equations. lia.
    + apply lookup_lt_Some in Hk as Hk'. rewrite length_app in Hk'. simpl in Hk'.
      assert (k = length (currentTrick r)) as -> by lia.
      rewrite list_lookup_middle in Hk by done. injection Hk as <-. rewrite He.
      Z.to_euclidean_division_equations. lia.
  - intros i p' Hi. destruct (Hseats i p' Hi) as (p & Hp & -> & ->). eauto.
Qed.

Lemma onPlayCard_rooms2 σ sid roomId cardIndex now rid r' :
  rooms (onPlayCard σ sid roomId cardIndex now).1 !! rid = Some r' →
  roomTrans2 σ rid r'.
Proof.
  unfold onPlayCard. destruct (rooms σ !! roomId) as [room|] eqn:E;
    [|apply roomTrans2_same].
  case_bool_decide as Hg; simpl; [|apply roomTrans2_same].
  destruct (_ =? -1); [apply roomTrans2_same|].
  destruct (Z.eqb_spec (findIndex (hasId sid) (players room)) (currentPlayerIndex room))
    as [Hidx|]; simpl; [|apply roomTrans2_same].
  rewrite Hidx.
  destruct (seat room _) as [player|]; [|apply roomTrans2_same].
  destruct (mjoin _) as [theCard|]; [|apply roomTrans2_same].
  destruct (negb _); [apply roomTrans2_same|].
  set (e := mkEntry _ _ _).
  set (room0 := setCurrentTrick _ _).
  set (room1 := updSeat _ _ room0).
  assert (Hf : seatsFrame room0 room1) by (apply seatsFrame_updSeat; by intros).
  destruct Hf as (Hg1 & Htr1 & Hsc1 & Htw1 & Hct1 & Hcur1 & Hseats1).
  assert (Hseats : ∀ i p', players room1 !! i = Some (Some p') →
            ∃ p, players room !! i = Some (Some p)
                 ∧ team p' = team p ∧ position p' = position p).
  { intros i p' Hi. unfold room1, updSeat in Hi.
    destruct (_ <? 0); simpl in Hi; [eauto|].
    destruct (decide (i = Z.to_nat (currentPlayerIndex room))) as [->|].
    - rewrite list_lookup_alter_eq in Hi.
      destruct (players room !! _) as [[p|]|]; simplify_eq/=. eauto.
    - rewrite list_lookup_alter_ne in Hi by done. eauto. }
  simpl in Hg1, Htr1, Hsc1, Htw1, Hct1, Hcur1. clear Hseats1.
  clearbody room1. clear room0.
  destruct (Nat.eqb_spec (length (currentTrick room1)) 4) as [Hlen|Hlen].
  - destruct (getTrickWinner_is_Some (currentTrick room1) (trump room1)) as [winner Hw].
    { rewrite Hct1. by destruct (currentTrick room). }
    rewrite Hw.
    set (room2 := setLastTrickWinner _ _).
    assert (Hcheck : okTrans2 room (checkRoundComplete room2).1).
    { intros Hinv Hinv2.
      pose proof Hinv2 as (J1 & J2 & J3 & J4 & J5 & J6 & J7 & J8 & J9 & J10 & J11 & J12 & J13).
      assert (Hwi : 0 ≤ playerIndex winner < 4).
      { apply getTrickWinner_in in Hw. rewrite Hct1 in Hw.
        apply elem_of_app in Hw as [Hw|Hw].
        - apply list_elem_of_lookup in Hw as [k Hk]. rewrite (J4 _ _ Hk).
          unfold trickSeat. apply Z.mod_pos_bound. lia.
        - apply list_elem_of_singleton in Hw. subst winner. simpl. lia. }
      destruct (trickSum_incrTricks (playerIndex winner) room1 Hwi) as [Hl2 Hs2];
        [congruence|].
      assert (Hsum2 : trickSum room2 = S (trickSum room)).
      { unfold room2, trickSum in *. simpl. rewrite Hs2. by rewrite Htw1. }
      assert (Hfields : gameState room2 = Playing ∧ currentTrick room2 = []
                ∧ length (tricksWon room2) = 4%nat
                ∧ currentPlayerIndex room2 = playerIndex winner
                ∧ players room2 = players room1 ∧ scores room2 = scores room).
      { unfold room2, incrTricks in *.
        destruct (_ <? 0); simpl in *; split_and!; congruence. }
      destruct Hfields as (Hg2 & Hct2 & Htw2 & Hcur2 & Hpl2 & Hsc2).
      clearbody room2.
      destruct (checkRoundComplete_inv2 room2) as (Hi3 & Hp3 & Hs3); try done.
      { lia. }
      { assert (trickSum room < 8)%nat by (apply J7; congruence). lia. }
      { rewrite Hpl2. intros i p' Hi.
        destruct (Hseats i p' Hi) as (p & Hp & -> & ->). eauto. }
      { rewrite Hsc2. destruct Hinv as (_ & _ & _ & _ & I5). apply I5. congruence. }
      split; [done|]. unfold phaseStep, scoresLe in *. rewrite Hg2, Hsc2 in *.
      rewrite Hg. split; [|done].
      destruct Hp3 as [?|[[? _]|[[? _]|[[_ ?]|[[_ ?]|[[? _]|[? _]]]]]]]; try done; auto.
      - do 3 right. left. auto.
      - do 4 right. left. auto. }
    clearbody room2.
    destruct (checkRoundComplete room2) as [room3 st]. simpl in Hcheck.
    destruct (gameComplete st); [|destruct (roundComplete st)]; cbn [fst].
    all: by apply (roomTrans2_store _ _ _ _ _ _ E).
  - cbn [fst]. apply (roomTrans2_store _ _ _ _ _ _ E).
    intros (I1 & I2 & I3 & I4 & I5) Hinv2. split_and!.
    + eapply (RoomInv2_play room _ e); simpl; try done; auto.
      rewrite Hcur1. done.
    + left. simpl. congruence.
    + unfold scoresLe. simpl. rewrite Hsc1. lia.
Qed.

Lemma step_rooms2 σ e rid r' :
  rooms (step σ e) !! rid = Some r' → roomTrans2 σ rid r'.
Proof.
  destruct e.
  - apply onJoinRoom_rooms2.
  - apply onSelectTrump_rooms2.
  - apply onPlayCard_rooms2.
  - apply onDisconnect_rooms2.
  - apply dealTimer_rooms2.
  - apply checkRoomHealth_rooms2.
  - apply cleanupRoom_rooms2.
Qed.

Lemma ServerInv2_step σ e : ServerInv false σ → ServerInv2 σ → ServerInv2 (step σ e).
Proof.
  intros Hinv Hinv2 rid r' Hr'.
  apply step_rooms2 in Hr' as (r0 & [H0 | [_ [now ->]]] & Ht).
  - apply Ht; eauto.
  - apply Ht; [apply RoomInv_initializeRoom | apply RoomInv2_initializeRoom].
Qed.

Lemma reachable_inv2 σ : reachable σ → ServerInv2 σ.
Proof.
  induction 1 as [|σ e Hr IH].
  - intros rid r. simpl. by rewrite lookup_empty.
  - apply ServerInv2_step; [by apply reachable_inv | done].
Qed.

(** One step of a room that the server had before the step. *)
Lemma step_room σ e rid r r' :
  reachable σ → rooms σ !! rid = Some r → rooms (step σ e) !! rid = Some r' →
  phaseStep r r' ∧ scoresLe r r'.
Proof.
  intros Hreach Hr Hr'.
  apply step_rooms2 in Hr' as (r0 & [H0 | [H0 _]] & Ht); [|congruence].
  assert (r0 = r) as -> by congruence.
  apply Ht; [by eapply reachable_inv | by eapply reachable_inv2].
Qed.

(** The seats of a trick are pairwise distinct, and none is the seat to
    act. *)
Lemma trickSeat_distinct r k1 k2 :
  (k1 < length (currentTrick r) < 4)%nat → (k2 < length (currentTrick r))%nat →
  0 ≤ currentPlayerIndex r < 4 →
  (trickSeat r k1 = trickSeat r k2 → k1 = k2)
  ∧ trickSeat r k1 ≠ currentPlayerIndex r.
Proof.
  unfold trickSeat. intros H1 H2 Hcur.
  split; [intros Heq|]; Z.to_euclidean_division_equations; lia.
Qed.

End RoomSteps2.

(** X7.  In every room of every reachable state, a player's team and
    position are those of the seat held: the players of seats 0 and 2 are
    Team A, those of seats 1 and 3 Team B, whatever team was asked for at
    the join; and only the four seats 0..3 are ever held. *)
Theorem seat_fixes_team (σ : Server) (rid : JsVal) (r : Room) (i : nat) (p : Player) :
  reachable σ → rooms σ !! rid = Some r → players r !! i = Some (Some p) →
  (i < 4)%nat ∧ position p = Z.of_nat i
  ∧ team p = (if Nat.even i then TeamA else TeamB).
Proof.
  intros Hreach Hr Hp.
  destruct (reachable_inv _ Hreach _ _ Hr) as (Hlen & _).
  destruct (reachable_inv2 _ Hreach _ _ Hr) as (_ & _ & _ & _ & _ & _ & _ & _ & J9 & _).
  destruct (J9 _ _ Hp) as [Ht Hpos].
  apply lookup_lt_Some in Hp as Hi. rewrite Hlen in Hi.
  split_and!; [done | done |]. rewrite Ht.
  destruct i as [|[|[|[|i]]]]; try done. lia.
Qed.

Lemma seat_fixes_team_witness :
  ∃ p, players seatedRoom !! 3%nat = Some (Some p)
       ∧ (3 < 4)%nat ∧ position p = 3 ∧ team p = TeamB.
Proof.
  eexists. split; [reflexivity|].
  apply (seat_fixes_team (run tableJoins) "omi" seatedRoom 3);
    [apply run_reachable | by vm_compute | reflexivity].
Defined.

(** X8.  In every room of every reachable state there are four trick
    counters; they sum to at most eight, to fewer than eight while the match
    is not completed, and to exactly eight once it is; and before the game
    starts the score is 0-0. *)
Theorem trick_counters_bounded (σ : Server) (rid : JsVal) (r : Room) :
  reachable σ → rooms σ !! rid = Some r →
  length (tricksWon r) = 4%nat
  ∧ (teamTricks TeamA r + teamTricks TeamB r ≤ 8)%nat
  ∧ (gameState r ≠ Completed → (teamTricks TeamA r + teamTricks TeamB r < 8)%nat)
  ∧ (gameState r = Completed → (teamTricks TeamA r + teamTricks TeamB r = 8)%nat)
  ∧ (gameState r = Waiting → scores r = mkScores 0 0).
Proof.
  intros Hreach Hr.
  destruct (reachable_inv2 _ Hreach _ _ Hr)
    as (J1 & _ & _ & _ & _ & J6 & J7 & J8 & _ & J10 & _).
  unfold trickSum in *. rewrite (tricksWon_sum4 r J1) in *. done.
Qed.

Lemma trick_counters_bounded_witness :
  let r := default seatedRoom (rooms (run scriptedMatch) !! VStr "omi") in
  length (tricksWon r) = 4%nat
  ∧ (teamTricks TeamA r + teamTricks TeamB r ≤ 8)%nat
  ∧ (gameState r ≠ Completed → (teamTricks TeamA r + teamTricks TeamB r < 8)%nat)
  ∧ (gameState r = Completed → (teamTricks TeamA r + teamTricks TeamB r = 8)%nat)
  ∧ (gameState r = Waiting → scores r = mkScores 0 0).
Proof.
  apply (trick_counters_bounded (run scriptedMatch) "omi");
    [apply run_reachable | by vm_compute].
Defined.

(** X9.  In every room of every reachable state the seat to act is one of
    0..3 and the current trick holds fewer than four cards; its entries were
    played by consecutive seats, the last one by the seat before the seat to
    act, so no seat has two cards in the trick and the seat to act has none;
    and the trick is empty while the room waits for its players. *)
Theorem trick_seats_in_turn_order (σ : Server) (rid : JsVal) (r : Room) :
  reachable σ → rooms σ !! rid = Some r →
  0 ≤ currentPlayerIndex r < 4
  ∧ (length (currentTrick r) < 4)%nat
  ∧ (∀ k e, currentTrick r !! k = Some e → playerIndex e = trickSeat r k)
  ∧ NoDup (playerIndex <$> currentTrick r)
  ∧ (currentPlayerIndex r ∉ playerIndex <$> currentTrick r)
  ∧ (gameState r = Waiting → currentTrick r = []).
Proof.
  intros Hreach Hr.
  destruct (reachable_inv2 _ Hreach _ _ Hr)
    as (_ & J2 & J3 & J4 & J5 & _).
  split_and!; try done; try lia.
  - apply NoDup_alt. intros k1 k2 x. rewrite !list_lookup_fmap.
    destruct (currentTrick r !! k1) as [e1|] eqn:E1; [|done].
    destruct (currentTrick r !! k2) as [e2|] eqn:E2; [|done].
    simpl. intros [= <-] [= Heq].
    rewrite (J4 _ _ E1), (J4 _ _ E2) in Heq.
    apply lookup_lt_Some in E1, E2.
    symmetry in Heq. by apply (trickSeat_distinct r k1 k2).
  - intros Hin. apply list_elem_of_fmap in Hin as (e & He & Hin).
    apply list_elem_of_lookup in Hin as [k Hk].
    rewrite (J4 _ _ Hk) in He. apply lookup_lt_Some in Hk.
    symmetry in He. by apply (trickSeat_distinct r k k) in He.
Qed.

Lemma trick_seats_in_turn_order_witness :
  let r := default seatedRoom
             (rooms (run (tableJoins ++ take 4 firstDeal)) !! VStr "omi") in
  0 ≤ currentPlayerIndex r < 4
  ∧ (length (currentTrick r) < 4)%nat
  ∧ (∀ k e, currentTrick r !! k = Some e → playerIndex e = trickSeat r k)
  ∧ NoDup (playerIndex <$> currentTrick r)
  ∧ (currentPlayerIndex r ∉ playerIndex <$> currentTrick r)
  ∧ (gameState r = Waiting → currentTrick r = []).
Proof.
  apply (trick_seats_in_turn_order (run (tableJoins ++ take 4 firstDeal)) "omi");
    [apply run_reachable | by vm_compute].
Defined.

(** X10.  One event moves a room only along the arrows of the phase
    machine: waiting to trump selection, trump selection to playing, either
    of the two to paused, playing to trump selection (next deal) or to
    completed, and paused back to trump selection when no trump is set and
    to playing when one is.  So no room returns to waiting, and a completed
    room stays completed until it is removed. *)
Theorem phase_follows_machine (σ : Server) (e : Event) (rid : JsVal) (r r' : Room) :
  reachable σ → rooms σ !! rid = Some r → rooms (step σ e) !! rid = Some r' →
  phaseStep r r'
  ∧ (gameState r' = Waiting → gameState r = Waiting)
  ∧ (gameState r = Completed → gameState r' = Completed).
Proof.
  intros Hreach Hr Hr'. destruct (step_room _ _ _ _ _ Hreach Hr Hr') as [Hp _].
  split; [done|]. unfold phaseStep in Hp.
  split; intros Hg; rewrite Hg in Hp;
    destruct Hp as [?|[[? ?]|[[? ?]|[[[?|?] ?]|[[? [?|?]]|[(? & ? & ?)|(? & ? & ?)]]]]]];
    congruence.
Qed.

Lemma phase_follows_machine_witness :
  let σ := run (tableJoins ++ firstDeal) in
  let r := default seatedRoom (rooms σ !! VStr "omi") in
  let r' := default seatedRoom (rooms (step σ lastPlayOfFirstDeal) !! VStr "omi") in
  phaseStep r r'
  ∧ (gameState r' = Waiting → gameState r = Waiting)
  ∧ (gameState r = Completed → gameState r' = Completed).
Proof.
  apply (phase_follows_machine (run (tableJoins ++ firstDeal)) lastPlayOfFirstDeal "omi");
    [apply run_reachable | by vm_compute | by vm_compute].
Defined.

(** X11.  No event lowers a score of a room: after every step of a
    reachable state both team scores of a room are at least what they
    were. *)
Theorem scores_never_decrease (σ : Server) (e : Event) (rid : JsVal) (r r' : Room) :
  reachable σ → rooms σ !! rid = Some r → rooms (step σ e) !! rid = Some r' →
  (teamA (scores r) ≤ teamA (scores r'))%nat
  ∧ (teamB (scores r) ≤ teamB (scores r'))%nat.
Proof.
  intros Hreach Hr Hr'. by destruct (step_room _ _ _ _ _ Hreach Hr Hr') as [_ Hs].
Qed.

Lemma scores_never_decrease_witness :
  let σ := run (tableJoins ++ firstDeal) in
  let r := default seatedRoom (rooms σ !! VStr "omi") in
  let r' := default seatedRoom (rooms (step σ lastPlayOfFirstDeal) !! VStr "omi") in
  (teamA (scores r) ≤ teamA (scores r'))%nat
  ∧ (teamB (scores r) ≤ teamB (scores r'))%nat.
Proof.
  apply (scores_never_decrease (run (tableJoins ++ firstDeal)) lastPlayOfFirstDeal "omi");
    [apply run_reachable | by vm_compute | by vm_compute].
Defined.

(** X12.  A paused room resumes by the trump it holds: after an event a
    room that was paused is still paused, or it is in trump selection and its
    trump was [null], or it is playing and its trump was not [null].  The
    phase that the pause interrupted is trump selection or playing, and the
    room resumes in that phase when that phase is trump selection or the
    trump is not [null]; so it does in every run in which no [selectTrump]
    carried [null].  (A room that was paused while playing with the trump
    [null] resumes in trump selection.) *)
Theorem resume_restores_phase (evs : list Event) (e : Event) (rid : JsVal)
    (r r' : Room) :
  rooms (run evs) !! rid = Some r → gameState r = Paused →
  rooms (run (evs ++ [e])) !! rid = Some r' →
  (interruptedPhase evs rid = TrumpSelection ∨ interruptedPhase evs rid = Playing)
  ∧ (gameState r' = Paused
     ∨ (gameState r' = TrumpSelection ∧ trump r = VNull)
     ∨ (gameState r' = Playing ∧ trump r ≠ VNull))
  ∧ (interruptedPhase evs rid = TrumpSelection ∨ trump r ≠ VNull →
       gameState r' = Paused ∨ gameState r' = interruptedPhase evs rid)
  ∧ (Forall nonNullChoice evs →
       gameState r' = Paused ∨ gameState r' = interruptedPhase evs rid).
Proof.
  intros Hr Hg Hr'. rewrite run_snoc in Hr'.
  destruct (step_room _ _ _ _ _ (run_reachable evs) Hr Hr') as [Hp _].
  destruct (interruptedPhase_inv false evs rid r ltac:(done) Hr) as [_ Hi].
  specialize (Hi Hg).
  assert (Hres : gameState r' = Paused
                 ∨ (gameState r' = TrumpSelection ∧ trump r = VNull)
                 ∨ (gameState r' = Playing ∧ trump r ≠ VNull)).
  { unfold phaseStep in Hp. rewrite Hg in Hp.
    destruct Hp as [?|[[? ?]|[[? ?]|[[[?|?] ?]|[[? ?]|[(_ & ? & ?)|(_ & ? & ?)]]]]]];
      try done; auto. }
  split; [destruct Hi as [[? _]|[? _]]; auto|]. split; [exact Hres|]. split.
  - intros Hcase. destruct Hres as [?|[[Hg' Ht]|[Hg' Ht]]]; [by left|right..].
    + destruct Hcase as [->|?]; [done|]. by destruct Hi as [[_ _]|[-> _]].
    + destruct Hi as [[-> _]|[_ ?]]; done.
  - intros Hevs.
    destruct (interruptedPhase_inv true evs rid r (λ _, Hevs) Hr) as [_ Hi'].
    destruct Hres as [?|[[Hg' Ht]|[Hg' Ht]]]; [by left|right..].
    + destruct (Hi' Hg) as [[_ Hn]|[-> _]]; [|done]. by destruct (Hn eq_refl).
    + destruct (Hi' Hg) as [[-> _]|[_ ?]]; done.
Qed.

Lemma resume_restores_phase_witness :
  let evs := (tableJoins ++ [Disconnect "s2" 3])%list in
  let back := JoinRoom "s9" "omi" "c" "A" true 4 [] in
  let r := default seatedRoom (rooms (run evs) !! VStr "omi") in
  let r' := default seatedRoom (rooms (run (evs ++ [back])) !! VStr "omi") in
  gameState r = Paused ∧ gameState r' = TrumpSelection
  ∧ (interruptedPhase evs "omi" = TrumpSelection ∨ interruptedPhase evs "omi" = Playing)
  ∧ (gameState r' = Paused
     ∨ (gameState r' = TrumpSelection ∧ trump r = VNull)
     ∨ (gameState r' = Playing ∧ trump r ≠ VNull))
  ∧ (interruptedPhase evs "omi" = TrumpSelection ∨ trump r ≠ VNull →
       gameState r' = Paused ∨ gameState r' = interruptedPhase evs "omi")
  ∧ (Forall nonNullChoice evs →
       gameState r' = Paused ∨ gameState r' = interruptedPhase evs "omi").
Proof.
  split; [by vm_compute|]. split; [by vm_compute|].
  apply (resume_restores_phase (tableJoins ++ [Disconnect "s2" 3])
           (JoinRoom "s9" "omi" "c" "A" true 4 []) "omi"
           (default seatedRoom (rooms (run (tableJoins ++ [Disconnect "s2" 3])) !! VStr "omi")));
    by vm_compute.
Defined.

(** ** The statistics and the size of the table *)

Section Stats.

Lemma connected_le_seated (ps : list (option Player)) :
  (length (filter (λ s, isConnected s = true) ps)
   ≤ length (filter (λ s, nonNullPlayer s = true) ps))%nat.
Proof.
  induction ps as [|s ps IH]; [done|].
  rewrite !filter_cons.
  destruct (decide (isConnected s = true)) as [Hc|]; destruct (decide _) as [|Hn];
    simpl; try lia.
  destruct s; [by destruct Hn | done].
Qed.

Lemma connectedCount_Forall r :
  Forall (λ s, isConnected s = true) (players r) →
  connectedCount r = length (players r).
Proof.
  unfold connectedCount. induction 1 as [|s ps Hs _ IH]; [done|].
  rewrite filter_cons_True by done. simpl. by rewrite IH.
Qed.

(** The counters after the rooms of [m], for a table of [n] rooms. *)
Lemma getRoomStats_fold (n : nat) (m : gmap JsVal Room) :
  let stats := map_fold (λ _ room stats, countRoom room stats)
                 (mkRoomStats n 0 0 0 0 0 0) m in
  totalRooms stats = n
  ∧ (activeRooms stats ≤ size m)%nat
  ∧ (waitingRooms stats + playingRooms stats + pausedRooms stats ≤ size m)%nat
  ∧ (connectedPlayers stats ≤ totalPlayers stats)%nat
  ∧ ((∀ k r, m !! k = Some r → gameState r ≠ Completed) →
     (waitingRooms stats + playingRooms stats + pausedRooms stats = size m)%nat)
  ∧ ((∀ k r, m !! k = Some r → RoomInv false r) →
     (totalPlayers stats ≤ 4 * size m)%nat
     ∧ (4 * playingRooms stats ≤ connectedPlayers stats)%nat
     ∧ (playingRooms stats ≤ activeRooms stats)%nat).
Proof.
  cbv zeta.
  apply (map_fold_weak_ind (λ stats m,
    totalRooms stats = n
    ∧ (activeRooms stats ≤ size m)%nat
    ∧ (waitingRooms stats + playingRooms stats + pausedRooms stats ≤ size m)%nat
    ∧ (connectedPlayers stats ≤ totalPlayers stats)%nat
    ∧ ((∀ k r, m !! k = Some r → gameState r ≠ Completed) →
       (waitingRooms stats + playingRooms stats + pausedRooms stats = size m)%nat)
    ∧ ((∀ k r, m !! k = Some r → RoomInv false r) →
       (totalPlayers stats ≤ 4 * size m)%nat
       ∧ (4 * playingRooms stats ≤ connectedPlayers stats)%nat
       ∧ (playingRooms stats ≤ activeRooms stats)%nat))); clear m.
  { rewrite map_size_empty. simpl. split_and!; try done; intros; lia. }
  intros i x m stats Hi (H1 & H2 & H3 & H4 & H5 & H6).
  rewrite (map_size_insert_None _ _ _ Hi).
  pose proof (connected_le_seated (players x)) as Hcs.
  pose proof (length_filter (λ s, nonNullPlayer s = true) (players x)) as Hlen.
  assert (Hsub5 : (∀ k r, <[i:=x]> m !! k = Some r → gameState r ≠ Completed) →
                  gameState x ≠ Completed
                  ∧ ∀ k r, m !! k = Some r → gameState r ≠ Completed).
  { intros H. split; [apply (H i); by rewrite lookup_insert_eq|].
    intros k r Hk. apply (H k). rewrite lookup_insert_ne; [done|]. congruence. }
  assert (Hsub6 : (∀ k r, <[i:=x]> m !! k = Some r → RoomInv false r) →
                  RoomInv false x ∧ ∀ k r, m !! k = Some r → RoomInv false r).
  { intros H. split; [apply (H i); by rewrite lookup_insert_eq|].
    intros k r Hk. apply (H k). rewrite lookup_insert_ne; [done|]. congruence. }
  unfold countRoom. fold (connectedCount x) in Hcs.
  destruct (Nat.ltb_spec 0 (connectedCount x)) as [Hpos|Hzero];
    destruct (gameState x) eqn:Hg; simpl.
  all: split_and!; try done; try lia.
  all: try (intros H; apply Hsub5 in H as [Hx H]; specialize (H5 H);
            first [done | lia]).
  all: intros H; apply Hsub6 in H as [(I1 & I2 & _) H]; specialize (H6 H);
       rewrite I1 in Hlen;
       try (assert (connectedCount x = 4%nat)
              by (rewrite connectedCount_Forall, I1; auto));
       lia.
Qed.

End Stats.

(** X13.  The counters of [getRoomStats] are consistent: the rooms with a
    connected player and the rooms of the three phase counters are at most
    the rooms of the table, and the connected players at most the seated
    ones.  Completed rooms are in no phase counter; with none of them the
    three counters add up to the number of rooms.  In a reachable state there
    are at most four players per room, and every room counted as playing
    (in trump selection or playing) has its four players connected. *)
Theorem getRoomStats_consistent (σ : Server) :
  let stats := getRoomStats σ in
  totalRooms stats = size (rooms σ)
  ∧ (activeRooms stats ≤ totalRooms stats)%nat
  ∧ (waitingRooms stats + playingRooms stats + pausedRooms stats
     ≤ totalRooms stats)%nat
  ∧ (connectedPlayers stats ≤ totalPlayers stats)%nat
  ∧ ((∀ k r, rooms σ !! k = Some r → gameState r ≠ Completed) →
     (waitingRooms stats + playingRooms stats + pausedRooms stats
      = totalRooms stats)%nat)
  ∧ (reachable σ →
     (totalPlayers stats ≤ 4 * totalRooms stats)%nat
     ∧ (4 * playingRooms stats ≤ connectedPlayers stats)%nat
     ∧ (playingRooms stats ≤ activeRooms stats)%nat).
Proof.
  cbv zeta. unfold getRoomStats.
  destruct (getRoomStats_fold (size (rooms σ)) (rooms σ))
    as (H1 & H2 & H3 & H4 & H5 & H6).
  rewrite H1. split_and!; try done.
  intros Hreach. apply H6. intros k r Hk. by eapply reachable_inv.
Qed.

Section Registry.

Local Opaque shuffleDeck createDeck.

Lemma size_storeRoom σ roomId r r' :
  rooms σ !! roomId = Some r →
  size (rooms (storeRoom roomId r' σ)) = size (rooms σ).
Proof. intros E. simpl. apply map_size_insert_Some. eauto. Qed.

Lemma size_cleanupRoom σ roomId :
  (size (rooms (cleanupRoom σ roomId).1) ≤ size (rooms σ))%nat.
Proof.
  unfold cleanupRoom. destruct (rooms σ !! roomId) eqn:E; simpl; [|done].
  rewrite map_size_delete, E. simpl. lia.
Qed.

Lemma size_checkRoomHealth σ roomId now :
  (size (rooms (checkRoomHealth σ roomId now).1.1) ≤ size (rooms σ))%nat.
Proof.
  unfold checkRoomHealth. destruct (rooms σ !! roomId) eqn:E; [|done].
  destruct (_ && _); [apply size_cleanupRoom|].
  destruct (existsb _ _); [|done].
  cbn [fst]. by erewrite size_storeRoom.
Qed.

Lemma size_onSelectTrump σ sid roomId choice now :
  size (rooms (onSelectTrump σ sid roomId choice now).1) = size (rooms σ).
Proof.
  unfold onSelectTrump. destruct (rooms σ !! roomId) eqn:E; [|done].
  destruct (negb _); [done|]. destruct (negb _); [done|].
  cbn [fst]. by erewrite size_storeRoom.
Qed.

Lemma size_onPlayCard σ sid roomId cardIndex now :
  size (rooms (onPlayCard σ sid roomId cardIndex now).1) = size (rooms σ).
Proof.
  unfold onPlayCard. destruct (rooms σ !! roomId) eqn:E; [|done].
  destruct (negb _); [done|]. destruct (_ =? -1); [done|].
  destruct (negb _); [done|]. destruct (seat _ _); [|done].
  destruct (mjoin _); [|done]. destruct (negb _); [done|].
  destruct (_ =? 4)%nat; [|cbn [fst]; by erewrite size_storeRoom].
  destruct (getTrickWinner _ _); [|cbn [fst]; by erewrite size_storeRoom].
  destruct (checkRoundComplete _) as [room3 st].
  destruct (gameComplete st); [|destruct (roundComplete st)];
    cbn [fst]; by erewrite size_storeRoom.
Qed.

Lemma size_onDisconnect σ sid now :
  size (rooms (onDisconnect σ sid now).1) = size (rooms σ).
Proof.
  unfold onDisconnect. destruct (playerSockets σ !! sid) as [roomId|]; [|done].
  destruct (truthy roomId); [|done]. cbn [negb].
  destruct (rooms σ !! _) eqn:E; [|done].
  destruct (negb _); [|done].
  destruct (_ && _); cbn [fst]; simpl; apply map_size_insert_Some; eauto.
Qed.

Lemma size_dealTimer σ roomId draws :
  size (rooms (step σ (DealTimer roomId draws))) = size (rooms σ).
Proof.
  unfold step. simpl. destruct (rooms σ !! roomId) eqn:E; [|done].
  cbn [fst]. by erewrite size_storeRoom.
Qed.

(** A join adds at most one room, and none to a full table. *)
Lemma size_addPlayerToRoom σ roomId sid pname preferred isReconnect now :
  let res := addPlayerToRoom σ roomId sid pname preferred isReconnect now in
  (res.1 = σ ∧ ∃ m, res.2 = JoinFail m)
  ∨ (is_Some (rooms res.1 !! roomId)
     ∧ (size (rooms res.1) = size (rooms σ)
        ∨ ((size (rooms σ) < MAX_ROOMS)%nat
           ∧ size (rooms res.1) = S (size (rooms σ))))).
Proof.
  cbv zeta. unfold addPlayerToRoom.
  destruct (bool_decide _ && _) eqn:Hfull; [left; simpl; eauto|]. right.
  assert (Hsize : ∀ r, size (<[roomId := r]> (rooms σ)) = size (rooms σ)
                       ∨ ((size (rooms σ) < MAX_ROOMS)%nat
                          ∧ size (<[roomId := r]> (rooms σ)) = S (size (rooms σ)))).
  { intros r. rewrite map_size_insert.
    apply andb_false_iff in Hfull as [Hf|Hf].
    - apply bool_decide_eq_false in Hf. destruct (rooms σ !! roomId); [by left | done].
    - apply Nat.leb_gt in Hf. destruct (rooms σ !! roomId); [by left | right; done]. }
  destruct (findPositionForTeam _ preferred) as [position|].
  all: repeat match goal with
         | |- context [if ?c then _ else _] => destruct c
         end; simpl.
  all: split; [rewrite lookup_insert_eq; eauto | apply Hsize].
Qed.

Lemma size_startGame σ roomId now draws :
  size (rooms (startGame σ roomId now draws).1) = size (rooms σ).
Proof.
  unfold startGame. destruct (rooms σ !! roomId) eqn:E; [|done].
  destruct (negb _); [done|]. cbn [fst]. by erewrite size_storeRoom.
Qed.

Lemma size_onJoinRoom σ sid roomId pname preferred isReconnect now draws :
  (size (rooms σ) ≤ MAX_ROOMS)%nat →
  (size (rooms (onJoinRoom σ sid roomId pname preferred isReconnect now draws).1)
   ≤ MAX_ROOMS)%nat.
Proof.
  intros Hcap. unfold onJoinRoom.
  pose proof (size_addPlayerToRoom σ roomId sid pname preferred isReconnect now) as Hadd.
  destruct (addPlayerToRoom σ roomId sid pname preferred isReconnect now) as [σ1 res].
  simpl in Hadd.
  assert (Hcap1 : (size (rooms σ1) ≤ MAX_ROOMS)%nat).
  { destruct Hadd as [[-> _] | [_ [-> | [? ->]]]]; lia. }
  destruct res as [m | room pos isReconnection |]; [done| |done].
  destruct Hadd as [[_ [m ?]] | [Hin _]]; [done|].
  assert (Hstore : ∀ r, size (rooms (storeRoom roomId r σ1)) = size (rooms σ1)).
  { intros r. simpl. by rewrite map_size_insert_Some. }
  destruct isReconnection.
  - destruct (_ && _); [|done].
    case_bool_decide; cbn [fst]; by rewrite Hstore.
  - destruct (_ && _); [|done].
    pose proof (size_startGame σ1 roomId now draws) as Hstart.
    destruct (startGame σ1 roomId now draws) as [σ2 started]. simpl in Hstart.
    destruct started; [destruct (rooms σ2 !! roomId)|]; cbn [fst]; lia.
Qed.

Lemma size_step σ e :
  (size (rooms σ) ≤ MAX_ROOMS)%nat → (size (rooms (step σ e)) ≤ MAX_ROOMS)%nat.
Proof.
  intros Hcap. destruct e; unfold step; simpl.
  - by apply size_onJoinRoom.
  - by rewrite size_onSelectTrump.
  - by rewrite size_onPlayCard.
  - by rewrite size_onDisconnect.
  - pose proof (size_dealTimer σ roomId draws) as H. unfold step in H. simpl in H.
    by rewrite H.
  - etrans; [apply size_checkRoomHealth | done].
  - etrans; [apply size_cleanupRoom | done].
Qed.

End Registry.

(** X14.  The server never holds more than [MAX_ROOMS] rooms: in every
    reachable state the table has at most 100 rooms, and a join that names a
    new room while 100 exist is turned away with the state unchanged. *)
Theorem rooms_never_exceed_cap (σ : Server) :
  reachable σ →
  (size (rooms σ) ≤ MAX_ROOMS)%nat
  ∧ ∀ sid roomId pname preferred isReconnect now draws,
      rooms σ !! roomId = None → size (rooms σ) = MAX_ROOMS →
      handle σ (JoinRoom sid roomId pname preferred isReconnect now draws)
      = (σ, [(ToSocket sid, MError "Server is full. Please try again later.")]).
Proof.
  intros Hreach. split.
  - induction Hreach as [|σ e _ IH]; [simpl; rewrite map_size_empty; unfold MAX_ROOMS; lia|].
    by apply size_step.
  - intros sid roomId pname preferred isReconnect now draws Hnone Hsize.
    simpl. unfold onJoinRoom, addPlayerToRoom.
    rewrite Hnone, Hsize, bool_decide_eq_true_2 by done.
    by rewrite Nat.leb_refl.
Qed.

Lemma rooms_never_exceed_cap_witness :
  (size (rooms (run (twoRooms))) ≤ MAX_ROOMS)%nat.
Proof.
  apply (rooms_never_exceed_cap (run twoRooms)). apply run_reachable.
Defined.

(** ** What the handlers accept *)

Section Acceptance.

Lemma findIndex_hasId_seat sid (room : Room) :
  findIndex (hasId sid) (players room) ≠ -1 →
  ∃ p, seat room (findIndex (hasId sid) (players room)) = Some p ∧ id p = sid.
Proof.
  intros Hne. destruct (findIndex_found _ _ Hne) as (n & x & -> & Hx & Hid & _).
  rewrite seat_lookup, Hx. destruct x as [p|]; [|done].
  exists p. split; [done|]. by apply bool_decide_eq_true in Hid.
Qed.

Lemma checkRoundComplete_keeps r :
  players (checkRoundComplete r).1 = players r
  ∧ lastTrickWinner (checkRoundComplete r).1 = lastTrickWinner r
  ∧ ((trickSum r < 8)%nat → (checkRoundComplete r).1 = r).
Proof.
  unfold checkRoundComplete, trickSum.
  destruct (Nat.leb_spec tricksExpected (foldl Nat.add 0%nat (tricksWon r))) as [Hge|Hlt];
    unfold tricksExpected in *; [|done].
  cbv zeta.
  destruct (_ <? _)%nat; [|destruct (_ <? _)%nat].
  all: match goal with
       | |- context [(if ?c then 2%nat else 1%nat)] => destruct c
       | _ => idtac
       end.
  all: match goal with
       | |- context [(targetScore <=? ?a)%nat || (targetScore <=? ?b)%nat] =>
           destruct ((targetScore <=? a)%nat || (targetScore <=? b)%nat)
       end; simpl.
  all: split_and!; try done; intros; lia.
Qed.

Lemma onPlayCard_rejected σ sid roomId cardIndex now :
  (¬ ∃ room p c, legalPlay σ sid roomId cardIndex room p c) →
  ∃ m, onPlayCard σ sid roomId cardIndex now = (σ, [(ToSocket sid, MError m)]).
Proof.
  intros Hno. unfold onPlayCard.
  destruct (rooms σ !! roomId) as [room|] eqn:E; [|eauto].
  case_bool_decide as Hg; simpl; [|eauto].
  destruct (Z.eqb_spec (findIndex (hasId sid) (players room)) (-1)) as [|Hne]; [eauto|].
  destruct (Z.eqb_spec (findIndex (hasId sid) (players room)) (currentPlayerIndex room))
    as [Hidx|]; simpl; [|eauto].
  destruct (findIndex_hasId_seat sid room Hne) as (p & Hp & Hid). rewrite Hp.
  destruct (mjoin (hand p !! cardIndex)) as [c|] eqn:Hc; [|eauto].
  destruct (isValidPlay c _ _ _) eqn:Hv; simpl; [|eauto].
  exfalso. apply Hno. exists room, p, c. unfold legalPlay.
  rewrite <- Hidx. split_and!; try done.
  destruct (hand p !! cardIndex) as [[?|]|]; simplify_eq/=; done.
Qed.

Lemma onSelectTrump_rejected σ sid roomId choice now :
  (¬ ∃ room, maySelectTrump σ sid roomId room) →
  ∃ m, onSelectTrump σ sid roomId choice now = (σ, [(ToSocket sid, MError m)]).
Proof.
  intros Hno. unfold onSelectTrump.
  destruct (rooms σ !! roomId) as [room|] eqn:E; [|eauto].
  case_bool_decide as Hg; simpl; [|eauto].
  destruct (Z.eqb_spec (findIndex (hasId sid) (players room)) (currentPlayerIndex room))
    as [Hidx|]; simpl; [|eauto].
  exfalso. apply Hno. by exists room.
Qed.

(** A hand that holds a card holds one that [isValidPlay] admits. *)
Lemma hand_has_valid_play (hand : Hand) (trick : list TrickEntry) (trump : JsVal) :
  (∃ k, cardAt hand k) →
  ∃ i c, hand !! i = Some (Some c) ∧ isValidPlay c hand trick trump = true.
Proof.
  intros (k & c & Hk). unfold isValidPlay. destruct trick as [|e rest]; [eauto|].
  cbv zeta. destruct (0 <? length (filter _ hand))%nat eqn:Hf; [|eauto].
  apply filter_hasSuit_nonempty in Hf as (i & c' & Hi & Hs).
  exists i, c'. split; [done|]. by apply bool_decide_eq_true.
Qed.

End Acceptance.

(** X15.  [playCard] for a card index (a [cardIndex] that is a non-negative
    integer), in a state whose hands are arrays of cards and [null]s, either
    rejects or plays.  A play that is not legal
    (no such room, not the playing phase, a connection that is not seated or
    not at turn, an empty or missing slot, a card that [isValidPlay] refuses)
    changes nothing and sends one [error] to the sender only.  A legal play
    is the sender's own, empties that slot of the hand, leaves every other
    seat as it was and announces the card to the room; when it is not the
    fourth card of the trick, the card is appended to the trick and the turn
    passes to the next seat; when it is the fourth, the trick has a winner
    whose seat is recorded and who, while the deal goes on, gets a trick
    counted and leads the next trick. *)
Theorem playCard_rejects_or_plays (σ : Server) (sid : string) (roomId : JsVal)
    (cardIndex : nat) (now : Z) :
  let res := onPlayCard σ sid roomId cardIndex now in
  ((¬ ∃ room p c, legalPlay σ sid roomId cardIndex room p c) →
   ∃ m, res = (σ, [(ToSocket sid, MError m)]))
  ∧ ∀ room p c, legalPlay σ sid roomId cardIndex room p c →
      let e := mkEntry (currentPlayerIndex room) (name p) c in
      let room1 := withCardPlayed cardIndex e now room in
      id p = sid
      ∧ ∃ room' rest,
          res = (storeRoom roomId room' σ,
                 (ToRoom roomId,
                  MCardPlayed (name p) (currentPlayerIndex room) c
                    (S (length (currentTrick room)))) :: rest)
          ∧ players room' = players room1
          ∧ (length (currentTrick room) ≠ 3%nat →
             room' = setCurrentPlayerIndex
                       (Z.rem (currentPlayerIndex room + 1) 4) room1)
          ∧ (length (currentTrick room) = 3%nat →
             ∃ w, getTrickWinner (currentTrick room ++ [e])%list (trump room) = Some w
                  ∧ w ∈ (currentTrick room ++ [e])%list
                  ∧ lastTrickWinner room' = playerIndex w
                  ∧ ((trickSum (incrTricks (playerIndex w) room) < 8)%nat →
                     currentPlayerIndex room' = playerIndex w
                     ∧ currentTrick room' = []
                     ∧ tricksWon room' = tricksWon (incrTricks (playerIndex w) room)
                     ∧ gameState room' = Playing ∧ scores room' = scores room)).
Proof.
  cbv zeta. split; [apply onPlayCard_rejected|].
  - intros room p c (E & Hg & Hidx & Hp & Hc & Hv).
    assert (Hne : findIndex (hasId sid) (players room) ≠ -1).
    { intros Hm. rewrite Hidx in Hm. rewrite Hm in Hp. done. }
    split.
    { destruct (findIndex_hasId_seat sid room Hne) as (p' & Hp' & Hid).
      rewrite Hidx in Hp'. congruence. }
    unfold onPlayCard. rewrite E, bool_decide_eq_true_2 by done. simpl.
    destruct (Z.eqb_spec (findIndex (hasId sid) (players room)) (-1)); [done|].
    rewrite Hidx, Z.eqb_refl. simpl. rewrite Hp, Hc. simpl. rewrite Hv. simpl.
    set (e := mkEntry (currentPlayerIndex room) (name p) c).
    set (room1 := withCardPlayed cardIndex e now room).
    change (updSeat (currentPlayerIndex room)
              (λ p0, setHand (<[cardIndex:=None]> (hand p0)) p0)
              (setCurrentTrick (currentTrick room ++ [e])
                 (setLastActivity now room))) with room1.
    assert (Hfields : currentTrick room1 = (currentTrick room ++ [e])%list
              ∧ trump room1 = trump room ∧ tricksWon room1 = tricksWon room
              ∧ scores room1 = scores room ∧ gameState room1 = gameState room
              ∧ currentPlayerIndex room1 = currentPlayerIndex room).
    { unfold room1, withCardPlayed, updSeat. by destruct (_ <? 0). }
    destruct Hfields as (Hct1 & Htr1 & Htw1 & Hsc1 & Hg1 & Hcur1).
    rewrite Hct1, Htr1, Hcur1, length_app. simpl.
    replace (length (currentTrick room) + 1)%nat with (S (length (currentTrick room))) by lia.
    destruct (Nat.eqb_spec (S (length (currentTrick room))) 4) as [Hlen|Hlen].
    + destruct (getTrickWinner_is_Some (currentTrick room ++ [e])%list (trump room))
        as [w Hw]; [by destruct (currentTrick room)|].
      rewrite Hw.
      set (room2 := setLastTrickWinner _ _).
      pose proof (checkRoundComplete_keeps room2) as (Hpl3 & Hlw3 & Hsame3).
      assert (Htw2 : tricksWon room2 = tricksWon (incrTricks (playerIndex w) room)).
      { unfold room2, incrTricks. destruct (_ <? 0); simpl; by rewrite Htw1. }
      assert (Hpl2 : players room2 = players room1).
      { unfold room2, incrTricks. by destruct (_ <? 0). }
      assert (Hrest : lastTrickWinner room2 = playerIndex w
                ∧ currentPlayerIndex room2 = playerIndex w ∧ currentTrick room2 = []
                ∧ gameState room2 = Playing ∧ scores room2 = scores room).
      { unfold room2, incrTricks. destruct (_ <? 0); simpl; split_and!; congruence. }
      destruct Hrest as (Hlw2 & Hcur2 & Hct2 & Hg2 & Hsc2).
      assert (Hsum2 : trickSum room2 = trickSum (incrTricks (playerIndex w) room)).
      { unfold trickSum. by rewrite Htw2. }
      clearbody room2.
      destruct (checkRoundComplete room2) as [room3 st]. simpl in *.
      assert (Hgoal : players room3 = players room1
                ∧ (length (currentTrick room) ≠ 3%nat →
                   room3 = setCurrentPlayerIndex
                             (Z.rem (currentPlayerIndex room + 1) 4) room1)
                ∧ (length (currentTrick room) = 3%nat →
                   ∃ w0, Some w = Some w0
                     ∧ w0 ∈ (currentTrick room ++ [e])%list
                     ∧ lastTrickWinner room3 = playerIndex w0
                     ∧ ((trickSum (incrTricks (playerIndex w0) room) < 8)%nat →
                        currentPlayerIndex room3 = playerIndex w0
                        ∧ currentTrick room3 = []
                        ∧ tricksWon room3 = tricksWon (incrTricks (playerIndex w0) room)
                        ∧ gameState room3 = Playing ∧ scores room3 = scores room))).
      { split_and!; [congruence | intros; lia |].
        intros _. exists w. split_and!; [done | by eapply getTrickWinner_in | congruence |].
        intros Hlt. rewrite <- Hsum2 in Hlt. rewrite (Hsame3 Hlt). done. }
      destruct (gameComplete st); [|destruct (roundComplete st)];
        eexists _, _; (split; [reflexivity | exact Hgoal]).
    + eexists _, _. split; [reflexivity|]. split_and!; [done | done | intros; lia].
Qed.

Lemma playCard_rejects_or_plays_witness :
  let σ := run (tableJoins ++ [SelectTrump "s0" "omi" "Clubs" 1]) in
  let room := default seatedRoom (rooms σ !! VStr "omi") in
  let p := default (mkPlayer "" "" TeamA [] false 0 0) (seat room 0) in
  let c := default (mkCard Hearts R7) (mjoin (hand p !! 0%nat)) in
  legalPlay σ "s0" "omi" 0 room p c
  ∧ id p = "s0"
  ∧ rooms (onPlayCard σ "s0" "omi" 0 2).1 !! VStr "omi"
    = Some (setCurrentPlayerIndex (Z.rem (currentPlayerIndex room + 1) 4)
              (withCardPlayed 0 (mkEntry (currentPlayerIndex room) (name p) c) 2 room)).
Proof.
  cbv zeta.
  set (σ := run (tableJoins ++ [SelectTrump "s0" "omi" "Clubs" 1])).
  set (room := default seatedRoom (rooms σ !! VStr "omi")).
  set (p := default (mkPlayer "" "" TeamA [] false 0 0) (seat room 0)).
  set (c := default (mkCard Hearts R7) (mjoin (hand p !! 0%nat))).
  assert (Hlegal : legalPlay σ "s0" "omi" 0 room p c).
  { unfold legalPlay. split_and!; by vm_compute. }
  split; [exact Hlegal|].
  destruct (proj2 (playCard_rejects_or_plays σ "s0" "omi" 0 2) room p c Hlegal)
    as (Hid & room' & rest & Hres & _ & Hnext & _).
  split; [exact Hid|].
  rewrite Hres. cbn [fst]. unfold storeRoom. cbn [rooms].
  rewrite lookup_insert_eq. f_equal.
  apply Hnext. by vm_compute.
Defined.

(** X16.  [selectTrump] either rejects or starts the play.  A choice sent
    for a room that does not exist or is not in trump selection, or by a
    connection that does not hold the seat to act, changes nothing and sends
    one [error] to the sender only.  An accepted choice stores the [trump]
    field of the payload as the trump, whatever value it is (also [null], an
    absent field or a string that names no suit), records the sender's seat
    as trump selector, moves the room to the playing phase with the selector
    to lead, deals the remaining cards and announces the trump to the room
    first. *)
Theorem selectTrump_rejects_or_starts (σ : Server) (sid : string)
    (roomId choice : JsVal) (now : Z) :
  let res := onSelectTrump σ sid roomId choice now in
  ((¬ ∃ room, maySelectTrump σ sid roomId room) →
   ∃ m, res = (σ, [(ToSocket sid, MError m)]))
  ∧ ∀ room, maySelectTrump σ sid roomId room →
      ∃ room' rest,
        res = (storeRoom roomId room' σ, (ToRoom roomId, MTrumpSelected choice) :: rest)
        ∧ room' = dealRemainingCards
                    (setLastActivity now
                       (setGameState Playing
                          (setTrumpSelector (currentPlayerIndex room)
                             (setTrump choice room))))
        ∧ trump room' = choice ∧ gameState room' = Playing
        ∧ trumpSelector room' = currentPlayerIndex room
        ∧ currentPlayerIndex room' = currentPlayerIndex room
        ∧ scores room' = scores room ∧ tricksWon room' = tricksWon room
        ∧ currentTrick room' = currentTrick room.
Proof.
  cbv zeta. split; [apply onSelectTrump_rejected|].
  - intros room (E & Hg & Hidx). unfold onSelectTrump.
    rewrite E, bool_decide_eq_true_2 by done. simpl.
    rewrite Hidx, Z.eqb_refl. simpl.
    eexists _, _. split; [reflexivity|]. split; [reflexivity|].
    unfold dealRemainingCards. simpl. by destruct (dealLoop _ _ _ _).
Qed.

Lemma selectTrump_rejects_or_starts_witness :
  let σ := run tableJoins in
  maySelectTrump σ "s0" "omi" seatedRoom
  ∧ ∃ room' rest,
      onSelectTrump σ "s0" "omi" "Clubs" 1
      = (storeRoom "omi" room' σ, (ToRoom "omi", MTrumpSelected "Clubs") :: rest)
      ∧ trump room' = VStr "Clubs" ∧ gameState room' = Playing
      ∧ trumpSelector room' = 0.
Proof.
  cbv zeta.
  assert (Hmay : maySelectTrump (run tableJoins) "s0" "omi" seatedRoom).
  { unfold maySelectTrump. split_and!; by vm_compute. }
  split; [exact Hmay|].
  destruct (proj2 (selectTrump_rejects_or_starts (run tableJoins) "s0" "omi" "Clubs" 1)
              seatedRoom Hmay)
    as (room' & rest & Hres & _ & Htr & Hg & Hsel & _).
  exists room', rest. split_and!; [exact Hres | exact Htr | exact Hg | exact Hsel].
Defined.

(** ** Closing a room, starting a game, ending a deal *)

Section Closing.

Local Opaque shuffleDeck createDeck.

Lemma ranks_lookup i r : ranks !! i = Some r ↔ Z.of_nat i = rankValues r - 1.
Proof.
  unfold ranks.
  do 8 (destruct i as [|i];
        [destruct r; simpl; split; intros; simplify_eq; first [done | lia]|]).
  simpl. pose proof (rankValues_bounds r). split; [done | lia].
Qed.

Lemma foldl_delete_lookup (l : list string) (m : gmap string JsVal) k :
  foldl (λ m sid, delete sid m) m l !! k
  = if decide (k ∈ l) then None else m !! k.
Proof.
  revert m. induction l as [|x l IH]; intros m; simpl; [done|].
  rewrite IH. destruct (decide (k ∈ l)) as [Hin|Hin].
  - rewrite decide_True; [done|]. by right.
  - destruct (decide (x = k)) as [->|Hne].
    + rewrite lookup_delete_eq, decide_True; [done|]. by left.
    + rewrite lookup_delete_ne by done. rewrite decide_False; [done|].
      rewrite elem_of_cons. intros [?|?]; congruence.
Qed.

Lemma connectedIds_elem (r : Room) sid :
  sid ∈ omap (λ slot : option Player,
                match slot with
                | Some p => if connected p then Some (id p) else None
                | None => None
                end) (players r)
  ↔ connectedSeatOf r sid.
Proof.
  rewrite list_elem_of_omap. unfold connectedSeatOf. split.
  - intros ([p|] & Hin & Hf); [|done].
    apply list_elem_of_lookup in Hin as [i Hi]. exists i, p.
    destruct (connected p); [|done]. by injection Hf as <-.
  - intros (i & p & Hi & Hc & <-). exists (Some p). rewrite Hc.
    split; [|done]. by eapply list_elem_of_lookup_2.
Qed.

End Closing.

(** X17.  [cleanupRoom] does nothing for a room that does not exist.
    Otherwise it removes that room and no other, forgets the connections of
    exactly the connected seats of the room, whatever room the table of
    connections gave for them, and sends [roomClosed] to exactly those
    connections. *)
Theorem cleanupRoom_closes (σ : Server) (roomId : JsVal) :
  let res := cleanupRoom σ roomId in
  (rooms σ !! roomId = None → res = (σ, []))
  ∧ ∀ room, rooms σ !! roomId = Some room →
      rooms res.1 !! roomId = None
      ∧ (∀ rid, rid ≠ roomId → rooms res.1 !! rid = rooms σ !! rid)
      ∧ (∀ sid, connectedSeatOf room sid → playerSockets res.1 !! sid = None)
      ∧ (∀ sid, ¬ connectedSeatOf room sid →
           playerSockets res.1 !! sid = playerSockets σ !! sid)
      ∧ (∀ d m, (d, m) ∈ res.2 ↔
           m = MRoomClosed ∧ ∃ sid, d = ToSocket sid ∧ connectedSeatOf room sid).
Proof.
  cbv zeta. unfold cleanupRoom. split; [by intros ->|].
  intros room ->. simpl. split_and!.
  - apply lookup_delete_eq.
  - intros rid Hne. by apply lookup_delete_ne.
  - intros sid Hs. rewrite foldl_delete_lookup, decide_True; [done|].
    by apply connectedIds_elem.
  - intros sid Hs. rewrite foldl_delete_lookup, decide_False; [done|].
    by rewrite connectedIds_elem.
  - intros d m. rewrite list_elem_of_fmap. split.
    + intros (sid & [= -> ->] & Hin). split; [done|]. exists sid.
      split; [done|]. by apply connectedIds_elem.
    + intros (-> & sid & -> & Hs). exists sid. split; [done|].
      by apply connectedIds_elem.
Qed.

Lemma cleanupRoom_closes_witness :
  let σ := run tableJoins in
  let res := cleanupRoom σ "omi" in
  rooms res.1 !! VStr "omi" = None
  ∧ (∀ rid, rid ≠ VStr "omi" → rooms res.1 !! rid = rooms σ !! rid)
  ∧ (∀ sid, connectedSeatOf seatedRoom sid → playerSockets res.1 !! sid = None)
  ∧ (∀ sid, ¬ connectedSeatOf seatedRoom sid →
       playerSockets res.1 !! sid = playerSockets σ !! sid)
  ∧ (∀ d m, (d, m) ∈ res.2 ↔
       m = MRoomClosed ∧ ∃ sid, d = ToSocket sid ∧ connectedSeatOf seatedRoom sid).
Proof.
  apply (proj2 (cleanupRoom_closes (run tableJoins) "omi") seatedRoom).
  by vm_compute.
Defined.

(** X18.  [startGame] refuses (returns [false], nothing changed) when the
    room does not exist or does not have four players.  Otherwise it returns
    [true] and the room is in trump selection with seat 0 as the seat to act
    and as trump selector, the score 0-0 and the trick counters zero; a
    fresh deck was shuffled, the player of seat 0 holds its first four cards,
    every other player an empty hand, and the remaining 28 cards are the
    room's deck; the trump and the trick are not touched. *)
Theorem startGame_opens_trump_selection (σ : Server) (roomId : JsVal) (now : Z)
    (draws : list nat) :
  let res := startGame σ roomId now draws in
  let shuffled := shuffleDeck draws createDeck in
  ((∀ room, rooms σ !! roomId = Some room →
      length (filter (λ s, nonNullPlayer s = true) (players room)) ≠ 4%nat) →
   res = (σ, false))
  ∧ ∀ room, rooms σ !! roomId = Some room →
      length (filter (λ s, nonNullPlayer s = true) (players room)) = 4%nat →
      ∃ room',
        res = (storeRoom roomId room' σ, true)
        ∧ gameState room' = TrumpSelection
        ∧ currentPlayerIndex room' = 0 ∧ trumpSelector room' = 0
        ∧ scores room' = mkScores 0 0 ∧ tricksWon room' = [0; 0; 0; 0]%nat
        ∧ lastActivity room' = now
        ∧ trump room' = trump room ∧ currentTrick room' = currentTrick room
        ∧ length shuffled = 32%nat
        ∧ ∀ p, players room !! 0%nat = Some (Some p) →
            deck room' = drop 4 shuffled ∧ length (deck room') = 28%nat
            ∧ players room' !! 0%nat
              = Some (Some (setHand (Some <$> take 4 shuffled) p))
            ∧ (∀ i q, i ≠ 0%nat → players room !! i = Some (Some q) →
                 players room' !! i = Some (Some (setHand [] q)))
            ∧ (∀ i, players room !! i = Some None →
                 players room' !! i = Some None)
            ∧ length (players room') = length (players room).
Proof.
  cbv zeta.
  assert (Hsh : length (shuffleDeck draws createDeck) = 32%nat).
  { by rewrite shuffleDeck_length. }
  unfold startGame, dealCardsForTrumpSelection.
  set (shuffled := shuffleDeck draws createDeck) in *. clearbody shuffled.
  split.
  - intros Hno. destruct (rooms σ !! roomId) as [room|]; [|done].
    specialize (Hno room eq_refl). by destruct (Nat.eqb_spec (length (filter (λ s, nonNullPlayer s = true) (players room))) 4).
  - intros room -> Hlen. rewrite Hlen. simpl.
    eexists. split; [reflexivity|].
    unfold seat, atZ. simpl. change (Z.to_nat 0) with 0%nat.
    destruct (players room !! 0%nat) as [[p0|]|] eqn:E0; simpl.
    + split_and!; try done. intros p [= <-].
      split_and!; try done.
      * rewrite length_drop, Hsh. done.
      * rewrite list_lookup_imap, E0. done.
      * intros i q Hi Hq. rewrite list_lookup_imap, Hq. simpl.
        destruct (Z.eqb_spec (Z.of_nat i) 0); [lia | done].
      * intros i Hi. by rewrite list_lookup_imap, Hi.
      * by rewrite length_imap.
    + split_and!; try done.
    + split_and!; try done.
Qed.

Lemma startGame_opens_trump_selection_witness :
  ∃ room',
    startGame (run tableJoins) "omi" 7 [] = (storeRoom "omi" room' (run tableJoins), true)
    ∧ gameState room' = TrumpSelection
    ∧ currentPlayerIndex room' = 0 ∧ trumpSelector room' = 0
    ∧ scores room' = mkScores 0 0 ∧ tricksWon room' = [0; 0; 0; 0]%nat
    ∧ lastActivity room' = 7.
Proof.
  pose proof (startGame_opens_trump_selection (run tableJoins) "omi" 7 []) as H.
  cbv zeta in H. destruct H as [_ H]. specialize (H seatedRoom).
  assert (H1 : rooms (run tableJoins) !! VStr "omi" = Some seatedRoom) by (by vm_compute).
  assert (H2 : length (filter (λ s, nonNullPlayer s = true) (players seatedRoom)) = 4%nat)
    by (by vm_compute).
  specialize (H H1 H2).
  destruct H as (room' & Ha & Hb & Hc & Hd & He & Hf & Hg & _).
  exists room'. split_and!; assumption.
Defined.

(** X19.  What [checkRoundComplete] does to the room.  It never touches the
    seats, the hands or the deck.  With fewer than eight tricks counted it
    changes nothing and reports no result.  With eight it reports the deal
    as complete, and the match as complete exactly when a score has reached
    the target: then only the scores and the phase (completed) change.
    Otherwise the room is set up for the next deal: trump selection, no
    trump, an empty trick, the counters at zero, both scores below the
    target, and the seat to act as trump selector. *)
Theorem checkRoundComplete_outcomes (r : Room) :
  let r' := (checkRoundComplete r).1 in
  let st := (checkRoundComplete r).2 in
  players r' = players r ∧ deck r' = deck r
  ∧ ((trickSum r < tricksExpected)%nat →
     r' = r ∧ st = mkRoundStatus false false None)
  ∧ ((tricksExpected ≤ trickSum r)%nat →
     roundComplete st = true ∧ is_Some (roundResult st)
     ∧ (gameComplete st = true ↔
        (targetScore ≤ teamA (scores r') ∨ targetScore ≤ teamB (scores r'))%nat)
     ∧ (gameComplete st = true →
        r' = setGameState Completed (setScores (scores r') r))
     ∧ (gameComplete st = false →
        gameState r' = TrumpSelection ∧ trump r' = VNull ∧ currentTrick r' = []
        ∧ tricksWon r' = [0; 0; 0; 0]%nat
        ∧ currentPlayerIndex r' = Z.rem (currentPlayerIndex r + 1) 4
        ∧ trumpSelector r' = currentPlayerIndex r')).
Proof.
  cbv zeta. unfold checkRoundComplete, trickSum.
  destruct (Nat.leb_spec tricksExpected (foldl Nat.add 0%nat (tricksWon r))) as [Hge|Hlt].
  2:{ simpl. split_and!; try done. intros; lia. }
  cbv zeta.
  destruct (_ <? _)%nat; [|destruct (_ <? _)%nat].
  all: match goal with
       | |- context [(if ?c then 2%nat else 1%nat)] => destruct c
       | _ => idtac
       end.
  all: match goal with
       | |- context [(targetScore <=? ?a)%nat || (targetScore <=? ?b)%nat] =>
           destruct (Nat.leb_spec targetScore a); destruct (Nat.leb_spec targetScore b)
       end; simpl.
  all: split_and!; try done; try (intros; lia).
  all: intros _; split_and!; try done; eauto.
  all: simpl in *.
  all: try (split; [intros _; lia | done]).
  all: try (split; [done | intros [?|?]; lia]).
  all: try (by destruct r).
Qed.

(** X20.  [getCardValue] orders the cards by rank within the trump suit and
    within the others, and puts every trump card above every other card:
    the value is in 1..8 for a card that is not trump and in 11..18 for a
    trump card; among cards that are both trump or both not, the higher
    value is that of the later rank of [ranks]; and two cards have the same
    value only when they have the same rank and are both trump or both
    not. *)
Theorem getCardValue_orders_cards (c1 c2 : Card) (trump : JsVal) :
  (isSuit c1 trump = false → 1 ≤ getCardValue c1 trump ≤ 8)
  ∧ (isSuit c1 trump = true → 11 ≤ getCardValue c1 trump ≤ 18)
  ∧ (isSuit c1 trump = true → isSuit c2 trump = false →
     getCardValue c2 trump < getCardValue c1 trump)
  ∧ (isSuit c1 trump = isSuit c2 trump →
     (getCardValue c1 trump < getCardValue c2 trump
      ↔ rankBefore (rank c1) (rank c2)))
  ∧ (getCardValue c1 trump = getCardValue c2 trump ↔
     rank c1 = rank c2 ∧ isSuit c1 trump = isSuit c2 trump).
Proof.
  unfold getCardValue.
  pose proof (rankValues_bounds (rank c1)) as H1.
  pose proof (rankValues_bounds (rank c2)) as H2.
  assert (Hbefore : rankValues (rank c1) < rankValues (rank c2)
                    ↔ rankBefore (rank c1) (rank c2)).
  { unfold rankBefore. split.
    - intros Hlt.
      exists (Z.to_nat (rankValues (rank c1) - 1)), (Z.to_nat (rankValues (rank c2) - 1)).
      rewrite !ranks_lookup. lia.
    - intros (i & j & Hi & Hj & Hij). apply ranks_lookup in Hi, Hj. lia. }
  split_and!.
  - intros ->. lia.
  - intros ->. lia.
  - intros -> ->. lia.
  - intros Heq. rewrite <- Hbefore, Heq. destruct (isSuit c2 trump); lia.
  - split.
    + destruct (isSuit c1 trump), (isSuit c2 trump); intros Hv;
        try lia; (split; [apply rankValues_inj; lia | done]).
    + intros [-> ->]. done.
Qed.

(** ** Disconnection and reconnection *)

Section RoundTrip.

Local Opaque shuffleDeck createDeck.

Lemma findIndex_unique {A} (P : A → bool) (l : list A) (i : nat) (x : A) :
  l !! i = Some x → P x = true →
  (∀ j y, j ≠ i → l !! j = Some y → P y = false) →
  findIndex P l = Z.of_nat i.
Proof.
  intros Hi Hx Hothers.
  destruct (findIndex_found P l) as (n & y & -> & Hn & Hy & _).
  { by eapply findIndex_exists. }
  destruct (decide (n = i)) as [->|Hne]; [done|].
  rewrite (Hothers _ _ Hne Hn) in Hy. done.
Qed.

(** Marking a connected seat as disconnected and then as connected under a
    new connection changes the connection id and the time last seen only. *)
Lemma alter_disconnect_reconnect (ps : list (option Player)) i t1 t2 sid' :
  Forall (λ s, isConnected s = true) ps →
  alter (fmap (λ q, setLastSeen t2 (setConnected true (setId sid' q)))) i
    (alter (fmap (λ q, setLastSeen t1 (setConnected false q))) i ps)
  = alter (fmap (λ q, setLastSeen t2 (setId sid' q))) i ps.
Proof.
  intros Hall. apply list_eq. intros j.
  destruct (decide (j = i)) as [->|Hne].
  - rewrite !list_lookup_alter_eq.
    destruct (ps !! i) as [[q|]|] eqn:E; simpl; [|done..].
    rewrite Forall_lookup in Hall. specialize (Hall _ _ E). simpl in Hall.
    destruct q. simpl in *. by subst.
  - by rewrite !list_lookup_alter_ne.
Qed.

Lemma onDisconnect_in_play σ sid now roomId room (i : nat) :
  playerSockets σ !! sid = Some roomId → truthy roomId = true →
  rooms σ !! roomId = Some room → RoomInv false room → gameState room = Playing →
  findIndex (hasId sid) (players room) = Z.of_nat i →
  (onDisconnect σ sid now).1
  = untrackSocket sid
      (storeRoom roomId
         (setGameState Paused
            (setLastActivity now
               (updSeat (Z.of_nat i) (λ p, setLastSeen now (setConnected false p)) room)))
         σ).
Proof.
  intros Hs Hne Hr Hinv Hg Hidx. unfold onDisconnect.
  rewrite Hs, Hne. cbn [negb]. rewrite Hr, Hidx.
  destruct (Z.eqb_spec (Z.of_nat i) (-1)); [lia|]. cbn [negb].
  destruct Hinv as (I1 & I2 & _).
  pose proof (connectedCount_after_disconnect room (Z.of_nat i) now I1 (I2 (or_intror Hg)))
    as Hcnt.
  set (room1 := setLastActivity now (updSeat _ _ room)) in *.
  assert (Hg1 : gameState room1 = Playing).
  { unfold room1, updSeat. by destruct (_ <? 0). }
  rewrite Hg1, bool_decide_eq_true_2 by done. cbn [orb andb].
  destruct (Nat.leb_spec 1 (connectedCount room1)); [done | lia].
Qed.

End RoundTrip.

(** X21.  A disconnection during play followed by a reconnection under the
    same name is a round trip, for a seated connection that the table
    [playerSockets] maps to its room under a truthy room id, in a room that
    plays with a trump that is not [null]: the disconnection pauses the
    room, and after the reconnection the room is as it was before the two
    events, playing again, except for the connection id and the time last
    seen of that seat and the room's time of last activity; the table of
    connections holds the new connection in place of the old one, and no
    other room has changed. *)
Theorem disconnect_reconnect_round_trip (σ : Server) (sid sid' : string) (roomId : JsVal)
    (room : Room) (i : nat) (p : Player) (preferred : JsVal) (t1 t2 : Z)
    (draws : list nat) :
  reachable σ →
  rooms σ !! roomId = Some room → gameState room = Playing →
  trump room ≠ VNull →
  playerSockets σ !! sid = Some roomId → truthy roomId = true →
  players room !! i = Some (Some p) →
  findIndex (hasId sid) (players room) = Z.of_nat i →
  let σ1 := step σ (Disconnect sid t1) in
  let σ2 := step σ1 (JoinRoom sid' roomId (name p) preferred true t2 draws) in
  (gameState <$> rooms σ1 !! roomId) = Some Paused
  ∧ rooms σ2 !! roomId
    = Some (setLastActivity t2
              (updSeat (Z.of_nat i) (λ q, setLastSeen t2 (setId sid' q)) room))
  ∧ playerSockets σ2 = <[sid' := roomId]> (delete sid (playerSockets σ))
  ∧ ∀ rid, rid ≠ roomId → rooms σ2 !! rid = rooms σ !! rid.
Proof.
  intros Hreach Hr Hg Htrump Hs Hne Hp Hidx.
  pose proof (reachable_inv _ Hreach _ _ Hr) as Hinv.
  pose proof Hinv as (I1 & I2 & I3 & I4 & I5).
  assert (Hall : Forall (λ s, isConnected s = true) (players room)) by auto.
  cbv zeta. unfold step at 2. unfold step at 2. unfold step. simpl handle.
  rewrite (onDisconnect_in_play σ sid t1 roomId room i) by done.
  set (roomP := setGameState Paused _).
  set (σ1 := untrackSocket sid (storeRoom roomId roomP σ)).
  assert (Hr1 : rooms σ1 !! roomId = Some roomP) by (simpl; apply lookup_insert_eq).
  split; [by rewrite Hr1|].
  (* the seats after the disconnection *)
  assert (Hps : players (setLastActivity t2 roomP)
                = alter (fmap (λ q, setLastSeen t1 (setConnected false q))) i (players room)).
  { unfold roomP. simpl. apply players_updSeat. }
  assert (Hfind : findIndex (namedDisconnected (name p)) (players (setLastActivity t2 roomP))
                  = Z.of_nat i).
  { rewrite Hps.
    apply (findIndex_unique _ _ _ (Some (setLastSeen t1 (setConnected false p)))).
    - by rewrite list_lookup_alter_eq, Hp.
    - simpl. by rewrite bool_decide_eq_true_2.
    - intros j y Hj Hy. rewrite list_lookup_alter_ne in Hy by done.
      rewrite Forall_lookup in Hall. specialize (Hall _ _ Hy).
      destruct y as [q|]; simpl in *; [|done]. rewrite Hall. by rewrite andb_false_r. }
  unfold onJoinRoom, addPlayerToRoom.
  rewrite Hr1. rewrite bool_decide_eq_false_2 by done. cbn [andb].
  change (default (initializeRoom roomId t2) (Some roomP)) with roomP. cbv zeta.
  rewrite Hfind.
  destruct (Z.eqb_spec (Z.of_nat i) (-1)); [lia|]. cbn [negb].
  set (room' := updSeat (Z.of_nat i) _ (setLastActivity t2 roomP)).
  assert (Hps' : players room'
                 = alter (fmap (λ q, setLastSeen t2 (setId sid' q))) i (players room)).
  { unfold room'. rewrite players_updSeat, Hps. by apply alter_disconnect_reconnect. }
  assert (Hfields : gameState room' = Paused ∧ trump room' = trump room).
  { unfold room', roomP, updSeat. by destruct (_ <? 0). }
  destruct Hfields as [Hg' Ht'].
  assert (Hcnt : connectedCount room' = 4%nat).
  { rewrite connectedCount_Forall; [by rewrite Hps', length_alter|].
    rewrite Hps', Forall_lookup. intros j y Hy.
    rewrite Forall_lookup in Hall.
    destruct (decide (j = i)) as [->|Hj].
    - rewrite list_lookup_alter_eq, Hp in Hy. simplify_eq/=.
      apply (Hall _ _ Hp).
    - rewrite list_lookup_alter_ne in Hy by done. eauto. }
  rewrite Hg', Hcnt, bool_decide_eq_true_2 by done. cbn [andb Nat.leb].
  rewrite Ht', bool_decide_eq_false_2 by done.
  cbn [fst]. simpl rooms. simpl playerSockets.
  split_and!.
  - rewrite lookup_insert_eq. f_equal.
    unfold room', roomP, updSeat. destruct (Z.ltb_spec (Z.of_nat i) 0); [lia|].
    rewrite Nat2Z.id. simpl.
    rewrite (alter_disconnect_reconnect _ _ _ _ _ Hall).
    unfold setLastActivity, setPlayers. simpl. by rewrite Hg.
  - done.
  - intros rid Hrid. by rewrite !lookup_insert_ne.
Qed.

Lemma disconnect_reconnect_round_trip_witness :
  let σ := run (tableJoins ++ firstDeal) in
  let room := default seatedRoom (rooms σ !! VStr "omi") in
  let σ1 := step σ (Disconnect "s2" 3) in
  let σ2 := step σ1 (JoinRoom "s9" "omi" "c" "A" true 4 []) in
  (gameState <$> rooms σ1 !! VStr "omi") = Some Paused
  ∧ rooms σ2 !! VStr "omi"
    = Some (setLastActivity 4
              (updSeat 2 (λ q, setLastSeen 4 (setId "s9" q)) room))
  ∧ playerSockets σ2 = <[ "s9" := VStr "omi" ]> (delete "s2" (playerSockets σ))
  ∧ ∀ rid, rid ≠ VStr "omi" → rooms σ2 !! rid = rooms σ !! rid.
Proof.
  cbv zeta.
  set (σ := run (tableJoins ++ firstDeal)).
  set (room := default seatedRoom (rooms σ !! VStr "omi")).
  set (p := default (mkPlayer "" "" TeamA [] false 0 0) (seat room 2)).
  assert (Hname : name p = "c") by (by vm_compute).
  rewrite <- Hname.
  apply (disconnect_reconnect_round_trip σ "s2" "s9" "omi" room 2 p "A" 3 4 []).
  - apply run_reachable.
  - by vm_compute.
  - by vm_compute.
  - by vm_compute.
  - by vm_compute.
  - reflexivity.
  - by vm_compute.
  - by vm_compute.
Defined.

(** ** Players and scores of a game in progress *)

(** X22.  A game in progress has its four players connected: in every room
    of every reachable state that is in trump selection or playing, each of
    the four seats holds a connected player. *)
Theorem game_in_progress_fully_connected (σ : Server) (rid : JsVal) (r : Room) :
  reachable σ → rooms σ !! rid = Some r →
  gameState r = TrumpSelection ∨ gameState r = Playing →
  length (players r) = 4%nat ∧ connectedCount r = 4%nat
  ∧ ∀ i, (i < 4)%nat → ∃ p, players r !! i = Some (Some p) ∧ connected p = true.
Proof.
  intros Hreach Hr Hg.
  destruct (reachable_inv _ Hreach _ _ Hr) as (I1 & I2 & _).
  specialize (I2 Hg). split_and!; [done | by rewrite connectedCount_Forall |].
  intros i Hi. destruct (lookup_lt_is_Some_2 (players r) i) as [s Hs]; [lia|].
  rewrite Forall_lookup in I2. specialize (I2 _ _ Hs).
  destruct s as [p|]; [|done]. by exists p.
Qed.

Lemma game_in_progress_fully_connected_witness :
  length (players seatedRoom) = 4%nat ∧ connectedCount seatedRoom = 4%nat
  ∧ ∀ i, (i < 4)%nat →
      ∃ p, players seatedRoom !! i = Some (Some p) ∧ connected p = true.
Proof.
  apply (game_in_progress_fully_connected (run tableJoins) "omi" seatedRoom);
    [apply run_reachable | by vm_compute | left; by vm_compute].
Defined.

(** X23.  A match is completed exactly when a team has reached the target:
    in every room of every reachable state the phase is completed if and
    only if a score is at least 10; no score is ever above 11, and the two
    scores are never both at least 10. *)
Theorem match_completed_iff_target_reached (σ : Server) (rid : JsVal) (r : Room) :
  reachable σ → rooms σ !! rid = Some r →
  (gameState r = Completed ↔
   (targetScore ≤ teamA (scores r) ∨ targetScore ≤ teamB (scores r))%nat)
  ∧ (teamA (scores r) ≤ 11 ∧ teamB (scores r) ≤ 11)%nat
  ∧ ¬ (targetScore ≤ teamA (scores r) ∧ targetScore ≤ teamB (scores r))%nat.
Proof.
  intros Hreach Hr.
  destruct (reachable_inv _ Hreach _ _ Hr) as (_ & _ & _ & _ & I5).
  destruct (reachable_inv2 _ Hreach _ _ Hr)
    as (_ & _ & _ & _ & _ & _ & _ & _ & _ & _ & J11 & J12 & J13).
  unfold targetScore in *. split_and!; try done; try lia.
  split; [done|]. intros Hs.
  destruct (decide (gameState r = Completed)) as [|Hn]; [done|].
  specialize (I5 Hn). lia.
Qed.

Lemma match_completed_iff_target_reached_witness :
  let r := default seatedRoom (rooms (run scriptedMatch) !! VStr "omi") in
  gameState r = Completed ∧ scores r = mkScores 10 5
  ∧ (gameState r = Completed ↔
     (targetScore ≤ teamA (scores r) ∨ targetScore ≤ teamB (scores r))%nat)
  ∧ (teamA (scores r) ≤ 11 ∧ teamB (scores r) ≤ 11)%nat
  ∧ ¬ (targetScore ≤ teamA (scores r) ∧ targetScore ≤ teamB (scores r))%nat.
Proof.
  split; [by vm_compute|]. split; [by vm_compute|].
  apply (match_completed_iff_target_reached (run scriptedMatch) "omi");
    [apply run_reachable | by vm_compute].
Defined.

(** ** Who can move *)

(** X24.  The game can go on, as long as every [playCard] names its card
    by an index (a non-negative integer): in every playing room of every
    state reached through such events the seat to act holds a connected
    player, and when that player's connection holds no earlier seat of the
    room and the hand holds a card, some slot of the hand is a legal play for
    that connection. *)
Theorem seat_to_act_has_legal_play (σ : Server) (roomId : JsVal) (room : Room) :
  reachable σ → rooms σ !! roomId = Some room → gameState room = Playing →
  ∃ p, seat room (currentPlayerIndex room) = Some p ∧ connected p = true
       ∧ (findIndex (hasId (id p)) (players room) = currentPlayerIndex room →
          (∃ k, cardAt (hand p) k) →
          ∃ cardIndex c, legalPlay σ (id p) roomId cardIndex room p c).
Proof.
  intros Hreach Hr Hg.
  destruct (reachable_inv _ Hreach _ _ Hr) as (I1 & I2 & _).
  destruct (reachable_inv2 _ Hreach _ _ Hr) as (_ & J2 & _).
  specialize (I2 (or_intror Hg)).
  assert (∃ n, currentPlayerIndex room = Z.of_nat n ∧ (n < 4)%nat) as (n & Hn & Hlt).
  { exists (Z.to_nat (currentPlayerIndex room)). lia. }
  destruct (lookup_lt_is_Some_2 (players room) n) as [s Hs]; [lia|].
  rewrite Forall_lookup in I2. pose proof (I2 _ _ Hs) as Hc.
  destruct s as [p|]; [|done]. simpl in Hc.
  exists p. rewrite Hn, seat_lookup, Hs. split_and!; [done | done |].
  intros Hidx Hcard.
  destruct (hand_has_valid_play (hand p) (currentTrick room) (trump room) Hcard)
    as (i & c & Hi & Hv).
  exists i, c. unfold legalPlay. rewrite Hn, seat_lookup, Hs. done.
Qed.

Lemma seat_to_act_has_legal_play_witness :
  let σ := run (tableJoins ++ [SelectTrump "s0" "omi" "Clubs" 1]) in
  let room := default seatedRoom (rooms σ !! VStr "omi") in
  ∃ p, seat room (currentPlayerIndex room) = Some p ∧ connected p = true
       ∧ (findIndex (hasId (id p)) (players room) = currentPlayerIndex room →
          (∃ k, cardAt (hand p) k) →
          ∃ cardIndex c, legalPlay σ (id p) "omi" cardIndex room p c).
Proof.
  apply (seat_to_act_has_legal_play
           (run (tableJoins ++ [SelectTrump "s0" "omi" "Clubs" 1])) "omi");
    [apply run_reachable | by vm_compute | by vm_compute].
Defined.

(** X25.  A connection that holds two seats blocks the later one: when the
    seat to act is held by a player whose connection id is also that of an
    earlier seat, every [playCard] and every [selectTrump] for the room, from
    any connection, is answered with an [error] and changes nothing, since
    the handlers look the sender up with [findIndex], which stops at the
    earlier seat. *)
Theorem doubly_seated_connection_blocks_turn (σ : Server) (roomId : JsVal)
    (room : Room) (p : Player) :
  rooms σ !! roomId = Some room →
  seat room (currentPlayerIndex room) = Some p →
  findIndex (hasId (id p)) (players room) ≠ currentPlayerIndex room →
  (∀ sid cardIndex now,
     ∃ m, onPlayCard σ sid roomId cardIndex now = (σ, [(ToSocket sid, MError m)]))
  ∧ (∀ sid choice now,
       ∃ m, onSelectTrump σ sid roomId choice now = (σ, [(ToSocket sid, MError m)])).
Proof.
  intros Hr Hp Hne.
  assert (Hblocked : ∀ sid,
            findIndex (hasId sid) (players room) = currentPlayerIndex room → False).
  { intros sid Hidx.
    assert (Hfound : findIndex (hasId sid) (players room) ≠ -1).
    { intros Hm. rewrite Hidx in Hm. rewrite Hm in Hp. done. }
    destruct (findIndex_hasId_seat sid room Hfound) as (q & Hq & Hid).
    rewrite Hidx, Hp in Hq. injection Hq as <-. subst sid. done. }
  split.
  - intros sid cardIndex now. apply onPlayCard_rejected.
    intros (room' & q & c & Hr' & _ & Hidx & _).
    assert (room' = room) as -> by congruence. by eapply Hblocked.
  - intros sid choice now. apply onSelectTrump_rejected.
    intros (room' & Hr' & _ & Hidx).
    assert (room' = room) as -> by congruence. by eapply Hblocked.
Qed.

Lemma doubly_seated_connection_blocks_turn_witness :
  let σ := run doubleSeating in
  reachable σ
  ∧ (gameState <$> rooms σ !! VStr "omi") = Some Playing
  ∧ (currentPlayerIndex <$> rooms σ !! VStr "omi") = Some 1
  ∧ (∀ sid cardIndex now,
       ∃ m, onPlayCard σ sid "omi" cardIndex now = (σ, [(ToSocket sid, MError m)]))
  ∧ (∀ sid choice now,
       ∃ m, onSelectTrump σ sid "omi" choice now = (σ, [(ToSocket sid, MError m)])).
Proof.
  cbv zeta. split; [apply run_reachable|].
  split; [by vm_compute|]. split; [by vm_compute|].
  set (room := default seatedRoom (rooms (run doubleSeating) !! VStr "omi")).
  set (p := default (mkPlayer "" "" TeamA [] false 0 0) (seat room 1)).
  apply (doubly_seated_connection_blocks_turn (run doubleSeating) "omi" room p);
    by vm_compute.
Defined.

(** ** Rooms do not interfere *)

Section Isolation.

Local Opaque shuffleDeck createDeck.

Lemma other_storeRoom σ roomId r rid :
  rid ≠ roomId → rooms (storeRoom roomId r σ) !! rid = rooms σ !! rid.
Proof. intros Hne. simpl. by rewrite lookup_insert_ne. Qed.

Lemma other_cleanupRoom σ roomId rid :
  rid ≠ roomId → rooms (cleanupRoom σ roomId).1 !! rid = rooms σ !! rid.
Proof.
  intros Hne. unfold cleanupRoom. destruct (rooms σ !! roomId); simpl; [|done].
  by rewrite lookup_delete_ne.
Qed.

Lemma other_checkRoomHealth σ roomId now rid :
  rid ≠ roomId → rooms (checkRoomHealth σ roomId now).1.1 !! rid = rooms σ !! rid.
Proof.
  intros Hne. unfold checkRoomHealth. destruct (rooms σ !! roomId); [|done].
  destruct (_ && _); [by apply other_cleanupRoom|].
  destruct (existsb _ _); [|done]. cbn [fst]. by apply other_storeRoom.
Qed.

Lemma other_onSelectTrump σ sid roomId choice now rid :
  rid ≠ roomId → rooms (onSelectTrump σ sid roomId choice now).1 !! rid = rooms σ !! rid.
Proof.
  intros Hne. unfold onSelectTrump. destruct (rooms σ !! roomId); [|done].
  destruct (negb _); [done|]. destruct (negb _); [done|].
  cbn [fst]. by apply other_storeRoom.
Qed.

Lemma other_onPlayCard σ sid roomId cardIndex now rid :
  rid ≠ roomId → rooms (onPlayCard σ sid roomId cardIndex now).1 !! rid = rooms σ !! rid.
Proof.
  intros Hne. unfold onPlayCard. destruct (rooms σ !! roomId); [|done].
  destruct (negb _); [done|]. destruct (_ =? -1); [done|].
  destruct (negb _); [done|]. destruct (seat _ _); [|done].
  destruct (mjoin _); [|done]. destruct (negb _); [done|].
  destruct (_ =? 4)%nat; [|cbn [fst]; by apply other_storeRoom].
  destruct (getTrickWinner _ _); [|cbn [fst]; by apply other_storeRoom].
  destruct (checkRoundComplete _) as [room3 st].
  destruct (gameComplete st); [|destruct (roundComplete st)];
    cbn [fst]; by apply other_storeRoom.
Qed.

Lemma other_onDisconnect σ sid now rid :
  playerSockets σ !! sid ≠ Some rid →
  rooms (onDisconnect σ sid now).1 !! rid = rooms σ !! rid.
Proof.
  intros Hne. unfold onDisconnect. destruct (playerSockets σ !! sid) as [roomId|]; [|done].
  destruct (truthy roomId); [|done]. cbn [negb].
  assert (rid ≠ roomId) by congruence.
  destruct (rooms σ !! roomId); [|done].
  destruct (negb _); [|done].
  destruct (_ && _); cbn [fst]; simpl; by rewrite lookup_insert_ne.
Qed.

Lemma other_addPlayerToRoom σ roomId sid pname preferred isReconnect now rid :
  rid ≠ roomId →
  rooms (addPlayerToRoom σ roomId sid pname preferred isReconnect now).1 !! rid
  = rooms σ !! rid.
Proof.
  intros Hne. unfold addPlayerToRoom. destruct (_ && _); [done|].
  destruct (findPositionForTeam _ preferred) as [position|].
  all: repeat match goal with
         | |- context [if ?c then _ else _] => destruct c
         end; simpl; by rewrite lookup_insert_ne.
Qed.

Lemma other_startGame σ roomId now draws rid :
  rid ≠ roomId → rooms (startGame σ roomId now draws).1 !! rid = rooms σ !! rid.
Proof.
  intros Hne. unfold startGame. destruct (rooms σ !! roomId); [|done].
  destruct (negb _); [done|]. cbn [fst]. by apply other_storeRoom.
Qed.

Lemma other_onJoinRoom σ sid roomId pname preferred isReconnect now draws rid :
  rid ≠ roomId →
  rooms (onJoinRoom σ sid roomId pname preferred isReconnect now draws).1 !! rid
  = rooms σ !! rid.
Proof.
  intros Hne. unfold onJoinRoom.
  pose proof (other_addPlayerToRoom σ roomId sid pname preferred isReconnect now rid Hne)
    as Hadd.
  destruct (addPlayerToRoom σ roomId sid pname preferred isReconnect now) as [σ1 res].
  simpl in Hadd. destruct res as [m | room pos isReconnection |]; [done| |done].
  destruct isReconnection.
  - destruct (_ && _); [|done].
    case_bool_decide; cbn [fst]; by rewrite other_storeRoom.
  - destruct (_ && _); [|done].
    pose proof (other_startGame σ1 roomId now draws rid Hne) as Hstart.
    destruct (startGame σ1 roomId now draws) as [σ2 started]. simpl in Hstart.
    destruct started; [destruct (rooms σ2 !! roomId)|]; cbn [fst]; congruence.
Qed.

Lemma step_other_rooms σ e rid :
  targetOf σ e ≠ Some rid → rooms (step σ e) !! rid = rooms σ !! rid.
Proof.
  destruct e; unfold step; simpl; intros Hne.
  - apply other_onJoinRoom. congruence.
  - apply other_onSelectTrump. congruence.
  - apply other_onPlayCard. congruence.
  - by apply other_onDisconnect.
  - destruct (rooms σ !! roomId); [|done]. cbn [fst]. apply other_storeRoom. congruence.
  - apply other_checkRoomHealth. congruence.
  - apply other_cleanupRoom. congruence.
Qed.

Lemma noSeatAvailable_position r preferred :
  noSeatAvailable r →
  findPositionForTeam r preferred = Some (-1) ∨ findPositionForTeam r preferred = None.
Proof.
  intros Hfull.
  assert (Hteam : ∀ t, findPositionForTeam r (teamName t) = Some (-1)).
  { intros t.
    destruct (findPositionForTeam_spec r t)
      as [[Hpos _] | (pos & Hpos & (k & Hk & Hav & _) & Hrange)]; [done|].
    exfalso. assert (Hin : pos ∈ [0; 1; 2; 3]) by (rewrite !elem_of_cons; lia).
    rewrite (Hfull pos Hin) in Hav. done. }
  destruct (decide (preferred = VStr "A")) as [->|HnA]; [left; apply (Hteam TeamA)|].
  destruct (decide (preferred = VStr "B")) as [->|HnB]; [left; apply (Hteam TeamB)|].
  right. by apply findPositionForTeam_other.
Qed.

(** The events other than a join keep a waiting room waiting. *)
Lemma waiting_kept_by_other_events σ e rid r r' :
  rooms σ !! rid = Some r → gameState r = Waiting →
  (∀ sid roomId pname preferred isReconnect now draws,
     e ≠ JoinRoom sid roomId pname preferred isReconnect now draws) →
  rooms (step σ e) !! rid = Some r' → gameState r' = Waiting.
Proof.
  intros Hr Hg Hnj.
  destruct (decide (targetOf σ e = Some rid)) as [Ht|Ht].
  2:{ rewrite (step_other_rooms _ _ _ Ht). congruence. }
  destruct e; simpl in Ht; unfold step; simpl.
  - by destruct (Hnj sid roomId pname preferred isReconnect now draws).
  - injection Ht as ->. unfold onSelectTrump. rewrite Hr, Hg. simpl. congruence.
  - injection Ht as ->. unfold onPlayCard. rewrite Hr, Hg. simpl. congruence.
  - unfold onDisconnect. rewrite Ht.
    destruct (truthy rid); [|simpl; congruence]. cbn [negb].
    rewrite Hr. destruct (negb _); [|simpl; congruence].
    set (room1 := setLastActivity now _).
    assert (Hg1 : gameState room1 = Waiting).
    { unfold room1, updSeat. by destruct (_ <? 0). }
    rewrite Hg1. simpl. rewrite lookup_insert_eq. by intros [= <-].
  - injection Ht as ->. rewrite Hr. simpl. rewrite lookup_insert_eq. intros [= <-].
    destruct (sameCore_dealCards draws r) as [-> _]. done.
  - injection Ht as ->. unfold checkRoomHealth. rewrite Hr.
    destruct (_ && _).
    + unfold cleanupRoom. rewrite Hr. simpl. by rewrite lookup_delete_eq.
    + destruct (existsb _ _); simpl; [|congruence].
      rewrite lookup_insert_eq. by intros [= <-].
  - injection Ht as ->. unfold cleanupRoom. rewrite Hr. simpl.
    by rewrite lookup_delete_eq.
Qed.

(** A join for a waiting room whose seats are all taken leaves it waiting. *)
Lemma full_waiting_room_join σ sid rid pname preferred isReconnect now draws r r' :
  rooms σ !! rid = Some r → gameState r = Waiting → noSeatAvailable r →
  rooms (onJoinRoom σ sid rid pname preferred isReconnect now draws).1 !! rid = Some r' →
  gameState r' = Waiting.
Proof.
  intros Hr Hg Hfull. unfold onJoinRoom, addPlayerToRoom.
  rewrite Hr. rewrite bool_decide_eq_false_2 by done. cbn [andb].
  change (default (initializeRoom rid now) (Some r)) with r. cbv zeta.
  assert (Hstay : ∀ x, gameState x = Waiting →
            rooms (storeRoom rid x σ) !! rid = Some r' → gameState r' = Waiting).
  { intros x Hx. simpl. rewrite lookup_insert_eq. by intros [= <-]. }
  assert (Hpos : findPositionForTeam (setLastActivity now r) preferred = Some (-1)
                 ∨ findPositionForTeam (setLastActivity now r) preferred = None).
  { by apply noSeatAvailable_position. }
  destruct Hpos as [Hpos|Hpos]; rewrite Hpos; [simpl (-1 =? -1)|].
  all: destruct isReconnect; [|by apply Hstay].
  all: destruct (negb _);
    [ set (room' := updSeat _ _ _);
      assert (Hg' : gameState room' = Waiting)
        by (unfold room', updSeat; by destruct (_ <? 0));
      rewrite Hg'; simpl; rewrite lookup_insert_eq; by intros [= <-]
    | destruct (negb _); by apply Hstay ].
Qed.

End Isolation.

(** X26.  An event changes no room but its own: every event but a
    disconnection leaves every room other than the one it names as it was,
    and a disconnection leaves every room other than the one recorded for
    the connection as it was.  And only a [joinRoom] creates a room: after
    any other event, a room name that was free is still free. *)
Theorem events_touch_one_room (σ : Server) (e : Event) :
  (∀ rid, targetOf σ e ≠ Some rid → rooms (step σ e) !! rid = rooms σ !! rid)
  ∧ ((∀ sid roomId pname preferred isReconnect now draws,
        e ≠ JoinRoom sid roomId pname preferred isReconnect now draws) →
     ∀ rid, rooms σ !! rid = None → rooms (step σ e) !! rid = None).
Proof.
  split; [intros rid; apply step_other_rooms|].
  intros Hnj rid Hr.
  destruct (decide (targetOf σ e = Some rid)) as [Ht|Ht].
  2:{ by rewrite (step_other_rooms _ _ _ Ht). }
  destruct e; simpl in Ht; unfold step; simpl.
  - by destruct (Hnj sid roomId pname preferred isReconnect now draws).
  - injection Ht as ->. unfold onSelectTrump. by rewrite Hr.
  - injection Ht as ->. unfold onPlayCard. by rewrite Hr.
  - unfold onDisconnect. rewrite Ht. destruct (truthy rid); [|done]. cbn [negb].
    by rewrite Hr.
  - injection Ht as ->. by rewrite Hr.
  - injection Ht as ->. unfold checkRoomHealth. by rewrite Hr.
  - injection Ht as ->. unfold cleanupRoom. by rewrite Hr.
Qed.

Lemma events_touch_one_room_witness :
  rooms (step (run twoRooms) (CleanupTimer "omi")) !! VStr "side"
  = rooms (run twoRooms) !! VStr "side"
  ∧ rooms (step (run twoRooms) (PlayCard "s0" "attic" 0 9)) !! VStr "attic" = None.
Proof.
  destruct (events_touch_one_room (run twoRooms) (CleanupTimer "omi")) as [Hother _].
  destruct (events_touch_one_room (run twoRooms) (PlayCard "s0" "attic" 0 9))
    as [_ Hfree].
  split.
  - by apply Hother.
  - apply Hfree; [intros; intro; discriminate | by vm_compute].
Defined.

(** X27.  One event takes a waiting room out of the waiting phase only if
    it is a [joinRoom] for that room and one of the four seats was available
    before it: while the four seats are taken (the fourth was filled without
    the game starting, by a player that left and came back), the next event
    does not start the game, whatever it is. *)
Theorem game_starts_only_by_join_into_free_seat (σ : Server) (e : Event)
    (rid : JsVal) (r r' : Room) :
  rooms σ !! rid = Some r → gameState r = Waiting →
  rooms (step σ e) !! rid = Some r' → gameState r' ≠ Waiting →
  ¬ noSeatAvailable r
  ∧ ∃ sid pname preferred isReconnect now draws,
      e = JoinRoom sid rid pname preferred isReconnect now draws.
Proof.
  intros Hr Hg Hr' Hne.
  destruct e as [sid roomId pname preferred isReconnect now draws| | | | | |].
  2-7: exfalso; apply Hne;
       eapply (waiting_kept_by_other_events σ _ rid r r');
       [exact Hr | exact Hg | | exact Hr']; intros; intro; discriminate.
  destruct (decide (roomId = rid)) as [->|Hother].
  - split; [|by eauto 10].
    intros Hfull. apply Hne.
    by eapply (full_waiting_room_join σ sid rid pname preferred isReconnect now draws r r').
  - exfalso. apply Hne. rewrite step_other_rooms in Hr' by (simpl; congruence).
    congruence.
Qed.

Lemma game_starts_only_by_join_into_free_seat_witness :
  let σ := run (take 3 tableJoins) in
  let e := JoinRoom "s3" "omi" "d" "B" false 0 [] in
  let r := default seatedRoom (rooms σ !! VStr "omi") in
  gameState r = Waiting
  ∧ (gameState <$> rooms (step σ e) !! VStr "omi") = Some TrumpSelection
  ∧ ¬ noSeatAvailable r
  ∧ ∃ sid pname preferred isReconnect now draws,
      e = JoinRoom sid "omi" pname preferred isReconnect now draws.
Proof.
  cbv zeta. split; [by vm_compute|]. split; [by vm_compute|].
  apply (game_starts_only_by_join_into_free_seat (run (take 3 tableJoins))
           (JoinRoom "s3" "omi" "d" "B" false 0 []) "omi"
           (default seatedRoom (rooms (run (take 3 tableJoins)) !! VStr "omi"))
           seatedRoom); by vm_compute.
Defined.

(** The run [lateFourth] ends in such a room: four connected players, every
    seat taken, and still waiting.  The game starts later, once a seat has
    been freed: a player leaves, is evicted by the health check, and a join
    takes the seat. *)
Example late_fourth_still_waiting :
  let r := default seatedRoom (rooms (run lateFourth) !! VStr "omi") in
  let later :=
    (lateFourth ++ [Disconnect "s3" 10; HealthCheck "omi" 400000;
                    JoinRoom "s5" "omi" "e" "B" false 400001 []])%list in
  (gameState r = Waiting ∧ connectedCount r = 4%nat
   ∧ seatAvailable r 0 = false ∧ seatAvailable r 1 = false
   ∧ seatAvailable r 2 = false ∧ seatAvailable r 3 = false)
  ∧ (gameState <$> rooms (run later) !! VStr "omi") = Some TrumpSelection.
Proof. by vm_compute. Qed.

(** ** The periodic sweep *)

Section Sweep.

Lemma connectedIds_none (r : Room) :
  connectedCount r = 0%nat →
  omap (λ slot : option Player,
          match slot with
          | Some p => if connected p then Some (id p) else None
          | None => None
          end) (players r) = [].
Proof.
  unfold connectedCount. induction (players r) as [|s ps IH]; [done|].
  rewrite filter_cons. destruct (decide (isConnected s = true)) as [|Hs]; [done|].
  intros Hl. specialize (IH Hl).
  destruct s as [p|]; csimpl; [|done].
  simpl in Hs. destruct (connected p); [done|]. exact IH.
Qed.

(** One check: the room checked, and the table of connections. *)
Lemma checkRoomHealth_room σ roomId now :
  rooms (checkRoomHealth σ roomId now).1.1 !! roomId
  = rooms σ !! roomId ≫= afterHealthCheck now
  ∧ playerSockets (checkRoomHealth σ roomId now).1.1 = playerSockets σ.
Proof.
  unfold checkRoomHealth, afterHealthCheck.
  destruct (rooms σ !! roomId) as [room|] eqn:E; simpl; [|by rewrite E].
  destruct (_ && _) eqn:Hidle.
  - unfold cleanupRoom. rewrite E. simpl. rewrite lookup_delete_eq.
    apply andb_true_iff in Hidle as [Hc _]. apply Nat.eqb_eq in Hc.
    by rewrite (connectedIds_none _ Hc).
  - destruct (existsb _ _); simpl; [by rewrite lookup_insert_eq | by rewrite E].
Qed.

Lemma sweep_rooms σ ks nows rid :
  NoDup ks →
  rooms (sweep σ ks nows) !! rid
  = (if decide (rid ∈ ks) then rooms σ !! rid ≫= afterHealthCheck (nows rid)
     else rooms σ !! rid)
  ∧ playerSockets (sweep σ ks nows) = playerSockets σ.
Proof.
  unfold sweep. revert σ. induction ks as [|k ks IH]; intros σ Hnd; cbn [foldl].
  { by rewrite decide_False by apply not_elem_of_nil. }
  apply NoDup_cons in Hnd as [Hk Hnd].
  destruct (IH (checkRoomHealth σ k (nows k)).1.1 Hnd) as [-> ->].
  destruct (checkRoomHealth_room σ k (nows k)) as [Hroom Hsock].
  split; [|done].
  destruct (decide (rid = k)) as [->|Hne].
  - rewrite decide_False by done. rewrite decide_True by left. done.
  - rewrite !other_checkRoomHealth by done.
    destruct (decide (rid ∈ ks)) as [Hin|Hin].
    + rewrite decide_True by (by right). done.
    + rewrite decide_False; [done|]. rewrite elem_of_cons. intros [?|?]; done.
Qed.

End Sweep.

(** X28.  The cleanup interval treats every room on its own: after the loop
    over the room names, each room that was checked is gone if it was idle
    (no connected player and no activity for two minutes) and otherwise is
    there without its stale players, as [checkRoomHealth] leaves it at the
    time it was checked; a room that was not in the list, and the table of
    connections, are as before.  So the order of the loop does not matter. *)
Theorem sweep_checks_rooms_independently (σ : Server) (roomsToCheck : list JsVal)
    (nows : JsVal → Z) :
  NoDup roomsToCheck →
  (∀ rid, rid ∈ roomsToCheck →
     rooms (sweep σ roomsToCheck nows) !! rid
     = rooms σ !! rid ≫= afterHealthCheck (nows rid))
  ∧ (∀ rid, rid ∉ roomsToCheck →
       rooms (sweep σ roomsToCheck nows) !! rid = rooms σ !! rid)
  ∧ playerSockets (sweep σ roomsToCheck nows) = playerSockets σ
  ∧ (∀ ks, ks ≡ₚ roomsToCheck →
       rooms (sweep σ ks nows) = rooms (sweep σ roomsToCheck nows)).
Proof.
  intros Hnd. split_and!.
  - intros rid Hin. destruct (sweep_rooms σ roomsToCheck nows rid Hnd) as [-> _].
    by rewrite decide_True.
  - intros rid Hin. destruct (sweep_rooms σ roomsToCheck nows rid Hnd) as [-> _].
    by rewrite decide_False.
  - by destruct (sweep_rooms σ roomsToCheck nows "" Hnd) as [_ ->].
  - intros ks Hperm. apply map_eq. intros rid.
    assert (Hnd' : NoDup ks) by (by rewrite Hperm).
    destruct (sweep_rooms σ roomsToCheck nows rid Hnd) as [-> _].
    destruct (sweep_rooms σ ks nows rid Hnd') as [-> _].
    destruct (decide (rid ∈ ks)) as [Hin|Hin].
    + rewrite decide_True; [done|]. by rewrite <- Hperm.
    + rewrite decide_False; [done|]. by rewrite <- Hperm.
Qed.

Lemma sweep_checks_rooms_independently_witness :
  let σ := run twoRooms in
  rooms (sweep σ [VStr "side"; VStr "omi"] (λ _, 400000)) !! VStr "omi"
  = rooms σ !! VStr "omi" ≫= afterHealthCheck 400000
  ∧ rooms (sweep σ [VStr "omi"; VStr "side"] (λ _, 400000))
    = rooms (sweep σ [VStr "side"; VStr "omi"] (λ _, 400000)).
Proof.
  cbv zeta.
  assert (Hnd : NoDup [VStr "side"; VStr "omi"]).
  { apply NoDup_cons. split; [|apply NoDup_singleton].
    rewrite list_elem_of_singleton. done. }
  destruct (sweep_checks_rooms_independently (run twoRooms) [VStr "side"; VStr "omi"]
              (λ _, 400000) Hnd) as (Hin & _ & _ & Hperm).
  split.
  - apply Hin. right. left.
  - apply Hperm. apply Permutation_swap.
Defined.
